(** * The session coordinator of the territory game (class [Game])

    A shallow embedding of the server-side rule engine: the 30x30 board,
    the dice-driven move geometry, the corner bookkeeping and the message
    handlers of one session, followed by the properties of that code.

    Conventions of the embedding.
    - JavaScript numbers that the code uses as coordinates, dice faces and
      loop counters are integers, modelled in [Z].  So are the scores, sums
      of dice: the statements about them are made for integers of magnitude
      at most [2^53], on which the addition of doubles is exact.
    - A JavaScript array is an object with integer-keyed properties and a
      [length]; it is modelled as such ([JSArray.array]), so that reads
      outside the array give [undefined] ([None]), writes past the end
      extend it and leave holes, and [filter] skips holes.
    - An uncaught [TypeError] (indexing [undefined]) is the [TypeError]
      outcome of the [result] monad.
    - Outbound messages are serialised inside [_sendMessage] at the moment of
      the call, so a handler returns the list of its sends, in order, each
      with the snapshot of the data it carried. *)

From stdpp Require Import gmap strings list fin_maps functions.
From Stdlib Require Import ZArith Lia.

Open Scope Z_scope.

(** ** Exceptions *)

Inductive result (A : Type) : Type :=
| Ok (a : A)
| TypeError.

Arguments Ok {A} a.
Arguments TypeError {A}.

#[global] Instance result_ret : MRet result := λ A a, Ok a.
#[global] Instance result_bind : MBind result := λ A B f m,
  match m with
  | Ok a => f a
  | TypeError => TypeError
  end.

(** [a && b] on computations that may throw: [b] runs only when [a] is true. *)
Definition and_then (a b : result bool) : result bool :=
  x ← a; if (x : bool) then b else Ok false.

Infix "&&&" := and_then (at level 40, left associativity).

(** ** JavaScript arrays *)

Module JSArray.

Record array (A : Type) : Type := mk {
  items : gmap Z A;
  length : Z;
}.
Arguments mk {A} items length.
Arguments items {A} a.
Arguments length {A} a.

Section Ops.
Context {A : Type}.

(** The literal [[]]. *)
Definition empty : array A := mk ∅ 0.

(** [a[i]]: [None] is [undefined]. *)
Definition get (a : array A) (i : Z) : option A := items a !! i.

(** [a[i] = x]: an index at or past [length] extends the array; a
    negative index only adds a property. *)
Definition set (a : array A) (i : Z) (x : A) : array A :=
  mk (<[i := x]> (items a))
     (if decide (length a ≤ i) then i + 1 else length a).

(** [a.push(x)]. *)
Definition push (a : array A) (x : A) : array A :=
  mk (<[length a := x]> (items a)) (length a + 1).

(** The elements [filter] and [for..of] over a hole-free array visit:
    the present entries at indices [0 .. length-1], in order.  This is
    [a.filter(item => item !== null)] when no entry is [null]. *)
Definition filter_not_null (a : array A) : list A :=
  omap (λ k, items a !! k) (seqZ 0 (length a)).
End Ops.

End JSArray.

Import JSArray.

(** ** The board *)

(** The three class names a cell can carry. *)
Inductive cell : Type := default__cell | red__cell | blue__cell.

#[global] Instance cell_eq_dec : EqDecision cell.
Proof. solve_decision. Defined.

Abbreviation Field := (array (array cell)).

(** [field[i][j]]: indexing a missing row throws, a missing column of an
    existing row is [undefined]. *)
Definition cell_at (field : Field) (i j : Z) : result (option cell) :=
  match get field i with
  | None => TypeError
  | Some row => Ok (get row j)
  end.

(** [field[i][j] === t] and [field[i][j] !== t]. *)
Definition cell_is (field : Field) (i j : Z) (t : cell) : result bool :=
  c ← cell_at field i j; Ok (bool_decide (c = Some t)).

Definition cell_isnt (field : Field) (i j : Z) (t : cell) : result bool :=
  c ← cell_at field i j; Ok (negb (bool_decide (c = Some t))).

(** [color === 'r' ? 'red__cell' : 'blue__cell']. *)
Definition cell_of_color (color : string) : cell :=
  if bool_decide (color = "r"%string) then red__cell else blue__cell.

(** [_generateField]: thirty pushes of a fresh row, thirty pushes into it. *)
Definition _generateField (field : Field) : result Field :=
  foldl (λ acc i,
           defaultField ← acc;
           foldl (λ acc' (_ : Z),
                    f ← acc';
                    match get f i with
                    | None => TypeError
                    | Some row => Ok (set f i (push row default__cell))
                    end)
                 (Ok (push defaultField empty)) (seqZ 0 30))
        (Ok field) (seqZ 0 30).

(** [_isFieldEmpty]: the four corners are unclaimed. *)
Definition _isFieldEmpty (field : Field) : result bool :=
  cell_is field 0 0 default__cell &&& cell_is field 0 29 default__cell
  &&& cell_is field 29 0 default__cell &&& cell_is field 29 29 default__cell.

(** [_isCornerEmpty]: the corner opposite the first claimed one is free. *)
Definition _isCornerEmpty (field : Field) : result bool :=
  c1 ← cell_isnt field 0 0 default__cell;
  if (c1 : bool) then cell_is field 29 29 default__cell else
  c2 ← cell_isnt field 0 29 default__cell;
  if (c2 : bool) then cell_is field 29 0 default__cell else
  c3 ← cell_isnt field 29 0 default__cell;
  if (c3 : bool) then cell_is field 0 29 default__cell else
  c4 ← cell_isnt field 29 29 default__cell;
  if (c4 : bool) then cell_is field 0 0 default__cell else
  Ok false.

(** [_findFirstMove]: the corner opposite a claimed corner; later tests
    overwrite earlier ones.  The empty list is the array [[]]. *)
Definition _findFirstMove (field : Field) : result (list Z) :=
  let from := [] in
  c1 ← cell_isnt field 0 0 default__cell;
  let from := if (c1 : bool) then [29; 29] else from in
  c2 ← cell_isnt field 0 29 default__cell;
  let from := if (c2 : bool) then [29; 0] else from in
  c3 ← cell_isnt field 29 0 default__cell;
  let from := if (c3 : bool) then [0; 29] else from in
  c4 ← cell_isnt field 29 29 default__cell;
  let from := if (c4 : bool) then [0; 0] else from in
  Ok from.

(** [_findCurrentMove]: the corner that carries the colour. *)
Definition _findCurrentMove (gameField : Field) (color : string)
  : result (list Z) :=
  let type := cell_of_color color in
  let from := [] in
  c1 ← cell_is gameField 0 0 type;
  let from := if (c1 : bool) then [0; 0] else from in
  c2 ← cell_is gameField 0 29 type;
  let from := if (c2 : bool) then [0; 29] else from in
  c3 ← cell_is gameField 29 0 type;
  let from := if (c3 : bool) then [29; 0] else from in
  c4 ← cell_is gameField 29 29 type;
  let from := if (c4 : bool) then [29; 29] else from in
  Ok from.

(** ** Move geometry *)

(** [_factorization]: [numbers[i-1] = [i-1, n/i-1]] for every [i] in
    [1..n] that divides [n]; the holes left at the other indices are
    dropped by the final [filter]. *)
Definition _factorization (n : Z) : list (Z * Z) :=
  let numbers :=
    foldl (λ (numbers : array (Z * Z)) i,
             if decide (Z.rem n i = 0)
             then set numbers (i - 1) (i - 1, n / i - 1)
             else numbers)
          empty (seqZ 1 n) in
  filter_not_null numbers.

(** The two sign arguments of [_showMoves], ['+'] and ['-']. *)
Inductive sign : Type := plus | minus.

(** [_showMoves]: [moves[i]] is the cell reached from [(row, col)] by the
    [i]-th displacement, each component added or subtracted by its sign. *)
Definition _showMoves (primeNumbers : list (Z * Z)) (firstSign secondSign : sign)
    (row col : Z) : list (Z * Z) :=
  let '(moves, _) :=
    foldl (λ '(moves, i) (item : Z * Z),
             let m0 := match firstSign with
                       | plus => item.1 + row
                       | minus => row - item.1
                       end in
             let m1 := match secondSign with
                       | plus => item.2 + col
                       | minus => col - item.2
                       end in
             (set moves i (m0, m1), i + 1))
          (empty, 0) primeNumbers in
  filter_not_null moves.

(** [_checkTo]: some entry of [moves] is [(row, col)]. *)
Definition _checkTo (moves : list (Z * Z)) (row col : Z) : bool :=
  foldl (λ (flag : bool) (item : Z * Z),
           if bool_decide (item.1 = row) && bool_decide (item.2 = col)
           then true else flag)
        false moves.

(** The bounds both rectangle loops compute: the smaller and the larger of
    [from] and [to]. *)
Definition lowF (from to : Z) : Z := if decide (from < to) then from else to.
Definition highT (from to : Z) : Z :=
  if decide (lowF from to = to) then from else to.

(** [for (i = lo; i <= hi; i++)]. *)
Definition range (lo hi : Z) : list Z := seqZ lo (hi - lo + 1).

(** A loop whose body may return [false] early or throw. *)
Fixpoint all_cells {A} (body : A → result bool) (l : list A) : result bool :=
  match l with
  | [] => Ok true
  | x :: l' => b ← body x; if (b : bool) then all_cells body l' else Ok false
  end.

(** [_areCellsEmpty]: scans the rectangle row by row and stops at the first
    cell that is not ['default__cell']. *)
Definition _areCellsEmpty (field : Field) (rowFrom colFrom rowTo colTo : Z)
  : result bool :=
  let rowF := lowF rowFrom rowTo in
  let colF := lowF colFrom colTo in
  let rowT := highT rowFrom rowTo in
  let colT := highT colFrom colTo in
  all_cells (λ i, all_cells (λ j, cell_is field i j default__cell)
                            (range colF colT))
            (range rowF rowT).

(** [_fillField]: writes the colour's class into every cell of the
    rectangle; [field[i][j] = type] throws when row [i] is missing. *)
Definition _fillField (color : string) (gameField : Field)
    (rowFrom colFrom rowTo colTo : Z) : result Field :=
  let type := cell_of_color color in
  let rowF := lowF rowFrom rowTo in
  let colF := lowF colFrom colTo in
  let rowT := highT rowFrom rowTo in
  let colT := highT colFrom colTo in
  foldl (λ acc i,
           foldl (λ acc' j,
                    field ← acc';
                    match get field i with
                    | None => TypeError
                    | Some row => Ok (set field i (set row j type))
                    end)
                 acc (range colF colT))
        (Ok gameField) (range rowF rowT).

(** [_makeMove]: the reachable cells from [(rowFrom, colFrom)] under the
    signs of the corner [from], then the target test and the emptiness
    scan.  [&&] does not scan when the target test fails. *)
Definition _makeMove (gameField : Field) (from : list Z)
    (rowFrom colFrom rowTo colTo : Z) (dices : Z * Z) : result bool :=
  let primeNumbersArray := _factorization (dices.1 + dices.2) in
  let possibleMoves : list (Z * Z) := [] in
  let possibleMoves :=
    if bool_decide (from !! 0%nat = Some 0) then
      if bool_decide (from !! 1%nat = Some 0)
      then _showMoves primeNumbersArray plus plus rowFrom colFrom
      else _showMoves primeNumbersArray plus minus rowFrom colFrom
    else possibleMoves in
  let possibleMoves :=
    if bool_decide (from !! 0%nat = Some 29) then
      if bool_decide (from !! 1%nat = Some 0)
      then _showMoves primeNumbersArray minus plus rowFrom colFrom
      else _showMoves primeNumbersArray minus minus rowFrom colFrom
    else possibleMoves in
  Ok (_checkTo possibleMoves rowTo colTo)
  &&& _areCellsEmpty gameField rowFrom colFrom rowTo colTo.

(** [_checkFirstMove]: the very first move of a game. *)
Definition _checkFirstMove (field : Field) (rowFrom colFrom rowTo colTo : Z)
    (dices : Z * Z) : result bool :=
  if bool_decide (rowFrom > 0) && bool_decide (rowFrom < 29) then Ok false else
  if bool_decide (colFrom > 0) && bool_decide (colFrom < 29) then Ok false else
  _makeMove field [rowFrom; colFrom] rowFrom colFrom rowTo colTo dices.

(** [_cellFree]: the unclaimed neighbours of [(row, col)].  [field[row+1]]
    and [field[row][col+1]] are tested for being defined first. *)
Definition _cellFree (gameField : Field) (row col : Z) : result (list (Z * Z)) :=
  let resultArray := [] in
  resultArray ←
    (if bool_decide (row ≠ 0) then
       c ← cell_is gameField (row - 1) col default__cell;
       Ok (if (c : bool) then resultArray ++ [(row - 1, col)] else resultArray)
     else Ok resultArray);
  resultArray ←
    (if bool_decide (col ≠ 0) then
       c ← cell_is gameField row (col - 1) default__cell;
       Ok (if (c : bool) then resultArray ++ [(row, col - 1)] else resultArray)
     else Ok resultArray);
  resultArray ←
    (if bool_decide (is_Some (get gameField (row + 1))) then
       c ← cell_is gameField (row + 1) col default__cell;
       Ok (if (c : bool) then resultArray ++ [(row + 1, col)] else resultArray)
     else Ok resultArray);
  here ← cell_at gameField row (col + 1);
  resultArray ←
    (if bool_decide (is_Some here) then
       c ← cell_is gameField row (col + 1) default__cell;
       Ok (if (c : bool) then resultArray ++ [(row, col + 1)] else resultArray)
     else Ok resultArray);
  Ok resultArray.

(** [_findFreeCells]: the unclaimed neighbours of every cell of the colour,
    rows and columns scanned in order. *)
Definition _findFreeCells (gameField : Field) (color : string)
  : result (list (Z * Z)) :=
  let cellColor := cell_of_color color in
  foldl (λ acc i,
           foldl (λ acc' j,
                    freeCells ← acc';
                    c ← cell_is gameField i j cellColor;
                    if (c : bool)
                    then more ← _cellFree gameField i j; Ok (freeCells ++ more)
                    else Ok freeCells)
                 acc (seqZ 0 30))
        (Ok []) (seqZ 0 30).

(** [gameField[from[0]][from[1]] === 'default__cell'], where [from] may be
    the empty array: [gameField[undefined]] is [undefined], and indexing it
    throws. *)
Definition anchor_is_default (gameField : Field) (from : list Z) : result bool :=
  match from !! 0%nat with
  | None => TypeError
  | Some r =>
      match get gameField r with
      | None => TypeError
      | Some row =>
          Ok (bool_decide ((c ← from !! 1%nat; get row c) = Some default__cell))
      end
  end.

(** [_checkMove]: a move of a player whose corner is [from]. *)
Definition _checkMove (from : list Z) (gameField : Field)
    (rowFrom colFrom rowTo colTo : Z) (dices : Z * Z) (color : string)
  : result bool :=
  fresh ← anchor_is_default gameField from;
  if (fresh : bool) then
    if bool_decide (Some rowFrom ≠ from !! 0%nat)
       || bool_decide (Some colFrom ≠ from !! 1%nat)
    then Ok false
    else _makeMove gameField from rowFrom colFrom rowTo colTo dices
  else
    freeCells ← _findFreeCells gameField color;
    if _checkTo freeCells rowFrom colFrom
    then _makeMove gameField from rowFrom colFrom rowTo colTo dices
    else Ok false.

(** [_checkWin]. *)
Definition win_threshold : Z := 450.

Definition _checkWin (sum : Z) : bool := bool_decide (sum >= win_threshold).

(** ** Messages *)

(** A connection handle; two handles are the same object iff they are the
    same number. *)
Abbreviation WebSocket := nat.

Inductive ReadyState : Type := CONNECTING | OPEN | CLOSING | CLOSED.

#[global] Instance ReadyState_eq_dec : EqDecision ReadyState.
Proof. solve_decision. Defined.

Record Coordinate : Type := { row : Z; col : Z }.

(** The [move] of a [playerMove] message with all its members, as the
    client fills it in.  [dices] holds the two entries the code reads,
    [dices[0]] and [dices[1]]; a move in which one of them is missing is a
    [playerMoveLacking] message below. *)
Record PlayerState : Type := {
  from : Coordinate;
  to : Coordinate;
  color : string;
  moved : bool;
  sum : Z;
  dices : Z * Z;
}.

(** What a [move] can lack.  [_parseMessage] returns whatever
    [JSON.parse] makes of the text, and the handler reads the members
    without testing them: [noMove], the message has no [move] (or a null
    one); [noCells], the move has no [from] or no [to]; [fewDice], its
    [dices] array has fewer than two entries. *)
Inductive Missing : Type := noMove | noCells | fewDice.

(** The values [_processMessage] is handed: the declared messages, a
    [playerMove] whose move lacks a member (the members that are there are
    those of [move]), the value [null], and any other value, which
    [otherType] stands for with the text that [message.type] gives in the
    reply (["undefined"] for a value without that member).  An
    [incorrectRequest] is sent back as it came; [message] stands for what
    it carried. *)
Inductive AnyClientMessage : Type :=
| playerMove (move : PlayerState)
| repeatGame
| incorrectRequest (message : string)
| incorrectResponse (message : string)
| otherType (type : string)
| playerMoveLacking (missing : Missing) (move : PlayerState)
| nullMessage.

Inductive AnyServerMessage : Type :=
| gameStarted (myTurn : bool) (field : Field) (color : string) (sum : Z)
| changePlayer (myTurn : bool) (field : Field) (color : string)
| gameResult (win : bool)
| gameAborted
| incorrectRequest' (message : string).

(** What arrives on a connection: something that is not a string, a string
    on which [JSON.parse] throws [error], or a string that parses to the
    value [message]. *)
Inductive Payload : Type :=
| notAString
| badJSON (error : string)
| json (message : AnyClientMessage).

(** One call of [_sendMessage]: the recipient and the message. *)
Abbreviation Sent := (WebSocket * AnyServerMessage)%type.

(** ** The session *)

(** A stored score.  [Num z] is the integer [z]: [number_add] is the
    addition of integers, which is what [+] computes on the code's doubles
    as long as both operands and the sum are integers of magnitude at most
    [2^53]; the statements on scores carry that bound ([exact_sum]).  [NaN]
    is what [undefined + d] and [x + undefined] evaluate to, when the map
    has no entry for the key or [dices] has no such entry; [_checkWin] is
    false on it, as it is on [undefined]. *)
Inductive number : Type := Num (z : Z) | NaN.

Definition number_add (a : number) (d : Z) : number :=
  match a with
  | Num z => Num (z + d)
  | NaN => NaN
  end.

Definition number_wins (a : number) : bool :=
  match a with
  | Num z => _checkWin z
  | NaN => false
  end.

(** The fields of a [Game].  [_session] and [_playersState] are [None]
    once [destroy] has nulled them; [_currentMove] is [None] while it is
    [undefined]; [destroy_replaced] records that the instance's [destroy]
    has been overwritten by the empty function. *)
Record Game : Type := {
  _session : option (list WebSocket);
  _playersState : option (gmap WebSocket number);
  _gameField : Field;
  _currentMove : option WebSocket;
  destroy_replaced : bool;
}.

(** [this._playersState.get(player)!] as both of its uses see it. *)
Definition score_of (ps : gmap WebSocket number) (player : WebSocket) : number :=
  default NaN (ps !! player).

(** [_sendStartMessage]: a fresh board, a fresh score map, the first seat
    to move; the first recipient is told ['r'] and [myTurn], every later
    one ['b'] and not [myTurn]. *)
Definition _sendStartMessage (g : Game) : result (Game * list Sent) :=
  gameField ← _generateField empty;
  match _session g with
  | None => TypeError
  | Some session =>
      let currentMove := session !! 0%nat in
      let '(playersState, promises, _) :=
        foldl (λ '(playersState, promises, (myTurn, color)) player,
                 (<[player := Num 0]> playersState,
                  promises ++ [(player, gameStarted myTurn gameField color 0)],
                  (false, "b"%string)))
              (∅, [], (true, "r"%string)) session in
      Ok ({| _session := Some session;
             _playersState := Some playersState;
             _gameField := gameField;
             _currentMove := currentMove;
             destroy_replaced := destroy_replaced g |},
          promises)
  end.

(** The constructor: stores the session and starts the game. *)
Definition new_Game (session : list WebSocket) : result (Game * list Sent) :=
  _sendStartMessage {| _session := Some session;
                       _playersState := None;
                       _gameField := empty;
                       _currentMove := None;
                       destroy_replaced := false |}.

(** The middle of [_onPlayerMove] (the block guarded by [sum === 0]):
    [Some field] is the board to go on with, [None] is the early return
    after the 'wrong move' reply. *)
Definition checked_field (gameField : Field) (currentPlayerMove : PlayerState)
  : result (option Field) :=
  let m := currentPlayerMove in
  if bool_decide (sum m = 0) then
    isEmpty ← _isFieldEmpty gameField;
    if (isEmpty : bool) then
      ok ← _checkFirstMove gameField (row (from m)) (col (from m))
                           (row (to m)) (col (to m)) (dices m);
      if negb ok then Ok None
      else
        field ← _fillField (color m) gameField (row (from m)) (col (from m))
                           (row (to m)) (col (to m));
        Ok (Some field)
    else
      cornerEmpty ← _isCornerEmpty gameField;
      from' ← (if (cornerEmpty : bool) then _findFirstMove gameField
               else _findCurrentMove gameField (color m));
      ok ← _checkMove from' gameField (row (from m)) (col (from m))
                      (row (to m)) (col (to m)) (dices m) (color m);
      if negb ok then Ok None
      else
        field ← _fillField (color m) gameField (row (from m)) (col (from m))
                           (row (to m)) (col (to m));
        Ok (Some field)
  else Ok (Some gameField).

(** The end of [_onPlayerMove] (from the score update on), run on the board
    [gameField] that the middle part left. *)
Definition settle (g : Game) (gameField : Field) (currentPlayer : WebSocket)
    (currentPlayerMove : PlayerState) : result (Game * list Sent) :=
  let m := currentPlayerMove in
  match _playersState g, _session g with
  | Some playersState, Some session =>
      let playersState :=
        <[currentPlayer :=
            number_add (number_add (score_of playersState currentPlayer)
                                   (dices m).1)
                       (dices m).2]> playersState in
      let '(winFlag, player2) :=
        foldl (λ '(winFlag, player2) player,
                 (winFlag || number_wins (score_of playersState player),
                  if bool_decide (player ≠ currentPlayer) then player else player2))
              (false, currentPlayer) session in
      let g' := {| _session := Some session;
                   _playersState := Some playersState;
                   _gameField := gameField;
                   _currentMove := Some player2;
                   destroy_replaced := destroy_replaced g |} in
      if negb winFlag then
        Ok (g', [(player2,
                  changePlayer true gameField
                    (if bool_decide (color m = "r"%string) then "b" else "r")%string);
                 (currentPlayer, changePlayer false gameField (color m))])
      else
        Ok (g', map (λ player,
                       (player, gameResult (number_wins (score_of playersState player))))
                    session)
  | _, _ => TypeError
  end.

(** [_onPlayerMove]. *)
Definition _onPlayerMove (g : Game) (currentPlayer : WebSocket)
    (currentPlayerMove : PlayerState) : result (Game * list Sent) :=
  if bool_decide (_currentMove g ≠ Some currentPlayer) then
    Ok (g, [(currentPlayer, incorrectRequest' "Not your turn")])
  else
    checked ← checked_field (_gameField g) currentPlayerMove;
    match checked with
    | None => Ok (g, [(currentPlayer, incorrectRequest' "wrong move")])
    | Some gameField => settle g gameField currentPlayer currentPlayerMove
    end.

(** The end of [_onPlayerMove] when [dices[0]] or [dices[1]] is
    [undefined]: the sum that line 312 stores is [NaN]. *)
Definition settle_NaN (g : Game) (gameField : Field) (currentPlayer : WebSocket)
    (currentPlayerMove : PlayerState) : result (Game * list Sent) :=
  let m := currentPlayerMove in
  match _playersState g, _session g with
  | Some playersState, Some session =>
      let playersState := <[currentPlayer := NaN]> playersState in
      let '(winFlag, player2) :=
        foldl (λ '(winFlag, player2) player,
                 (winFlag || number_wins (score_of playersState player),
                  if bool_decide (player ≠ currentPlayer) then player else player2))
              (false, currentPlayer) session in
      let g' := {| _session := Some session;
                   _playersState := Some playersState;
                   _gameField := gameField;
                   _currentMove := Some player2;
                   destroy_replaced := destroy_replaced g |} in
      if negb winFlag then
        Ok (g', [(player2,
                  changePlayer true gameField
                    (if bool_decide (color m = "r"%string) then "b" else "r")%string);
                 (currentPlayer, changePlayer false gameField (color m))])
      else
        Ok (g', map (λ player,
                       (player, gameResult (number_wins (score_of playersState player))))
                    session)
  | _, _ => TypeError
  end.

(** The move as the checks see it when [dices[0] + dices[1]] is [NaN]: the
    loop of [_factorization] does not run on [NaN], as it does not on [0],
    and nothing else in the checks reads the dice. *)
Definition without_dice (m : PlayerState) : PlayerState :=
  {| from := from m; to := to m; color := color m; moved := moved m;
     sum := sum m; dices := (0, 0) |}.

(** The block guarded by [sum === 0] for a move without [from] or [to]:
    the tests that read only the board run, then reading the arguments of
    the check ([currentPlayerMove.from.row], lines 267 and 294) throws. *)
Definition checked_field_without_cells (gameField : Field)
    (currentPlayerMove : PlayerState) : result (option Field) :=
  let m := currentPlayerMove in
  if bool_decide (sum m = 0) then
    isEmpty ← _isFieldEmpty gameField;
    if (isEmpty : bool) then TypeError
    else
      cornerEmpty ← _isCornerEmpty gameField;
      from' ← (if (cornerEmpty : bool) then _findFirstMove gameField
               else _findCurrentMove gameField (color m));
      TypeError
  else Ok (Some gameField).

(** [_onPlayerMove] on a move that lacks a member.  The turn test comes
    before any read of the move.  Without a move, [currentPlayerMove.sum]
    throws (line 260).  Without [from] or [to], a move with [sum === 0]
    throws in the guarded block; any other goes to the end, which reads
    neither.  With fewer than two dice the checks run on an empty list of
    displacements and the end stores [NaN]. *)
Definition _onPlayerMove_lacking (g : Game) (currentPlayer : WebSocket)
    (missing : Missing) (currentPlayerMove : PlayerState)
  : result (Game * list Sent) :=
  if bool_decide (_currentMove g ≠ Some currentPlayer) then
    Ok (g, [(currentPlayer, incorrectRequest' "Not your turn")])
  else
    match missing with
    | noMove => TypeError
    | noCells =>
        checked ← checked_field_without_cells (_gameField g) currentPlayerMove;
        match checked with
        | None => Ok (g, [(currentPlayer, incorrectRequest' "wrong move")])
        | Some gameField => settle g gameField currentPlayer currentPlayerMove
        end
    | fewDice =>
        checked ← checked_field (_gameField g) (without_dice currentPlayerMove);
        match checked with
        | None => Ok (g, [(currentPlayer, incorrectRequest' "wrong move")])
        | Some gameField => settle_NaN g gameField currentPlayer currentPlayerMove
        end
    end.

(** [_parseMessage]. *)
Definition _parseMessage (data : Payload) : AnyClientMessage :=
  match data with
  | notAString => incorrectRequest "Wrong data type"
  | badJSON error => incorrectRequest ("Can't parse JSON data: " +:+ error)
  | json message => message
  end.

Definition quote : string := String (Ascii.ascii_of_nat 34) EmptyString.

(** [_processMessage]. *)
Definition _processMessage (g : Game) (player : WebSocket)
    (message : AnyClientMessage) : result (Game * list Sent) :=
  match message with
  | playerMove move => _onPlayerMove g player move
  | repeatGame => _sendStartMessage g
  | incorrectRequest text => Ok (g, [(player, incorrectRequest' text)])
  | incorrectResponse _ => Ok (g, [])
  | otherType type =>
      Ok (g, [(player,
               incorrectRequest' ("Unknown message type: " +:+ quote +:+ type +:+ quote))])
  | playerMoveLacking missing move => _onPlayerMove_lacking g player missing move
  | nullMessage => TypeError
  end.

(** The ['message'] listener of [_listenMessages]. *)
Definition on_message (g : Game) (player : WebSocket) (data : Payload)
  : result (Game * list Sent) :=
  _processMessage g player (_parseMessage data).

(** [destroy], with the ready states of the sockets it reads and, through
    [player.close()], moves to [CLOSING]. *)
Definition destroy (g : Game) (readyState : WebSocket → ReadyState)
  : result (Game * (WebSocket → ReadyState) * list Sent) :=
  if destroy_replaced g then Ok (g, readyState, [])
  else
    match _session g with
    | None => TypeError
    | Some session =>
        let '(readyState, sent) :=
          foldl (λ '(readyState, sent) player,
                   if bool_decide (readyState player ≠ CLOSED)
                      && bool_decide (readyState player ≠ CLOSING)
                   then (<[player := CLOSING]> readyState,
                         sent ++ [(player, gameAborted)])
                   else (readyState, sent))
                (readyState, []) session in
        Ok ({| _session := None;
               _playersState := None;
               _gameField := _gameField g;
               _currentMove := _currentMove g;
               destroy_replaced := true |},
            readyState, sent)
    end.

(** The ['close'] listener of [_listenMessages]. *)
Definition on_close (g : Game) (readyState : WebSocket → ReadyState)
  : result (Game * (WebSocket → ReadyState) * list Sent) :=
  destroy g readyState.

(** ** Notions used by the statements *)

(** The array [numbers] of [_factorization n] after the loop has run for
    [i = 1 .. k]. *)
Definition numbers_upto (n : Z) (k : nat) : array (Z * Z) :=
  foldl (λ (numbers : array (Z * Z)) i,
           if decide (Z.rem n i = 0)
           then set numbers (i - 1) (i - 1, n / i - 1)
           else numbers)
        empty (seqZ 1 (Z.of_nat k)).

(** The divisor pairs of [n], each component reduced by one. *)
Definition divisor_pair (n : Z) (p : Z * Z) : Prop :=
  ∃ i, 1 ≤ i ≤ n ∧ (i | n) ∧ p = (i - 1, n / i - 1).

(** The cell a displacement leads to along one axis. *)
Definition shift (s : sign) (base d : Z) : Z :=
  match s with
  | plus => d + base
  | minus => base - d
  end.

Definition apply_signs (firstSign secondSign : sign) (row col : Z)
    (item : Z * Z) : Z * Z :=
  (shift firstSign row item.1, shift secondSign col item.2).

(** The inclusive rectangle spanned by two cells. *)
Definition in_rect (rowFrom colFrom rowTo colTo i j : Z) : Prop :=
  rowFrom `min` rowTo ≤ i ≤ rowFrom `max` rowTo
  ∧ colFrom `min` colTo ≤ j ≤ colFrom `max` colTo.

#[global] Instance in_rect_dec rf cf rt ct i j :
  Decision (in_rect rf cf rt ct i j).
Proof. unfold in_rect. apply _. Defined.

(** Every cell of the rectangle is on the board and unclaimed. *)
Definition rect_unclaimed (field : Field) (rowFrom colFrom rowTo colTo : Z) : Prop :=
  ∀ i j, in_rect rowFrom colFrom rowTo colTo i j →
         cell_at field i j = Ok (Some default__cell).

(** The signs of the corner [from], as [_makeMove] picks them; [None] when
    [from[0]] is neither [0] nor [29] and no move is offered. *)
Definition corner_signs (from : list Z) : option (sign * sign) :=
  let second := if bool_decide (from !! 1%nat = Some 0) then plus else minus in
  if bool_decide (from !! 0%nat = Some 29) then Some (minus, second)
  else if bool_decide (from !! 0%nat = Some 0) then Some (plus, second)
  else None.

(** The target is one divisor-pair displacement of [n] away from the start
    cell, in the direction of the anchor corner's signs. *)
Definition reachable (anchor : list Z) (rowFrom colFrom n rowTo colTo : Z) : Prop :=
  ∃ s1 s2 p, corner_signs anchor = Some (s1, s2) ∧ divisor_pair n p
             ∧ (rowTo, colTo) = apply_signs s1 s2 rowFrom colFrom p.

(** The anchor corner [_onPlayerMove] resolves for a move. *)
Definition resolve_anchor (gameField : Field) (m : PlayerState) : result (list Z) :=
  isEmpty ← _isFieldEmpty gameField;
  if (isEmpty : bool) then Ok [row (from m); col (from m)]
  else
    cornerEmpty ← _isCornerEmpty gameField;
    if (cornerEmpty : bool) then _findFirstMove gameField
    else _findCurrentMove gameField (color m).

(** The verdict of the checks [_onPlayerMove] runs under [sum === 0]. *)
Definition validation (gameField : Field) (m : PlayerState) : result bool :=
  isEmpty ← _isFieldEmpty gameField;
  if (isEmpty : bool) then
    _checkFirstMove gameField (row (from m)) (col (from m))
                    (row (to m)) (col (to m)) (dices m)
  else
    from' ← resolve_anchor gameField m;
    _checkMove from' gameField (row (from m)) (col (from m))
               (row (to m)) (col (to m)) (dices m) (color m).

(** A game between [_sendStartMessage] and [destroy]. *)
Definition live (g : Game) : Prop :=
  is_Some (_session g) ∧ is_Some (_playersState g).

Definition is_error_reply (message : AnyServerMessage) : bool :=
  match message with
  | incorrectRequest' _ => true
  | _ => false
  end.

(** A handler call rejected its message: one error reply, to the sender,
    and the game as it was. *)
Definition rejected (g : Game) (player : WebSocket)
    (r : result (Game * list Sent)) : Prop :=
  ∃ text, r = Ok (g, [(player, incorrectRequest' text)]).

(** A handler call went through: it returned, and what it sent are not
    error replies. *)
Definition accepted (r : result (Game * list Sent)) : bool :=
  match r with
  | Ok (_, sent) => forallb (λ s : Sent, negb (is_error_reply s.2)) sent
  | TypeError => false
  end.

(** The scores after the sender's dice are added. *)
Definition scores_after (playersState : gmap WebSocket number)
    (player : WebSocket) (m : PlayerState) : gmap WebSocket number :=
  <[player := number_add (number_add (score_of playersState player)
                                     (dices m).1)
                         (dices m).2]> playersState.

(** [winFlag] and [player2] as the first loop of the tail computes them. *)
Definition some_win (playersState : gmap WebSocket number)
    (session : list WebSocket) : bool :=
  foldl (λ (winFlag : bool) player,
           winFlag || number_wins (score_of playersState player))
        false session.

Definition next_mover (session : list WebSocket) (currentPlayer : WebSocket)
  : WebSocket :=
  foldl (λ player2 player,
           if bool_decide (player ≠ currentPlayer) then player else player2)
        currentPlayer session.

(** The object inside the constructor, before the game is started. *)
Definition unstarted (session : list WebSocket) : Game :=
  {| _session := Some session;
     _playersState := None;
     _gameField := empty;
     _currentMove := None;
     destroy_replaced := false |}.

(** The game a handler call leaves behind.  An exception propagates out of
    the listener; in a live game it is thrown by the checks or by a read of
    a missing member, before any field is written
    ([onPlayerMove_throws_in_checks]), so the game is as it was. *)
Definition state_after (g : Game) (r : result (Game * list Sent)) : Game :=
  match r with
  | Ok (g', _) => g'
  | TypeError => g
  end.

Definition started (session : list WebSocket) : Game :=
  state_after (unstarted session) (new_Game session).

(** A sequence of [playerMove] messages, each handled in arrival order. *)
Fixpoint play (g : Game) (moves : list (WebSocket * PlayerState)) : Game :=
  match moves with
  | [] => g
  | (player, m) :: rest => play (state_after g (_onPlayerMove g player m)) rest
  end.

(** The accepted moves of [player] in such a sequence, in order. *)
Fixpoint accepted_moves (g : Game) (player : WebSocket)
    (moves : list (WebSocket * PlayerState)) : list PlayerState :=
  match moves with
  | [] => []
  | (p, m) :: rest =>
      let r := _onPlayerMove g p m in
      (if accepted r && bool_decide (p = player) then [m] else [])
      ++ accepted_moves (state_after g r) player rest
  end.

(** The integers that a double holds exactly, with exact sums as long as
    the sum is one of them. *)
Definition safe (z : Z) : Prop := - 2 ^ 53 ≤ z ≤ 2 ^ 53.

(** [score + d0 + d1], evaluated from the left as line 312 evaluates it,
    is exact at each step. *)
Definition exact_sum (score d0 d1 : Z) : Prop :=
  safe score ∧ safe d0 ∧ safe d1 ∧ safe (score + d0) ∧ safe (score + d0 + d1).

(** [dices[0] + dices[1]]. *)
Definition dice_total (m : PlayerState) : Z := (dices m).1 + (dices m).2.

Definition sum_of (l : list Z) : Z := foldr Z.add 0 l.

(** The number of cells of a colour's class on the 30x30 board. *)
Definition cells_of (gameField : Field) (t : cell) : nat :=
  List.length
    (List.filter
       (λ ij : Z * Z,
          match cell_at gameField ij.1 ij.2 with
          | Ok (Some c) => bool_decide (c = t)
          | _ => false
          end)
       (i ← seqZ 0 30; j ← seqZ 0 30; [(i, j)])).

Definition mkMove (rowFrom colFrom rowTo colTo : Z) (color : string) (sum : Z)
    (d0 d1 : Z) : PlayerState :=
  {| from := {| row := rowFrom; col := colFrom |};
     to := {| row := rowTo; col := colTo |};
     color := color; moved := false; sum := sum; dices := (d0, d1) |}.

(** A started game of two participants, used for the concrete cases. *)
Definition two_players : Game := started [1%nat; 2%nat].

(** What a handler call sent. *)
Definition sent_by (r : result (Game * list Sent)) : list Sent :=
  match r with
  | Ok (_, sent) => sent
  | TypeError => []
  end.

(** One of the four corners of the grid. *)
Definition is_corner (r c : Z) : Prop := (r = 0 ∨ r = 29) ∧ (c = 0 ∨ c = 29).

(** The board has no cells outside the 30x30 grid. *)
Definition on_board (field : Field) : Prop :=
  ∀ i j c, cell_at field i j = Ok (Some c) → 0 ≤ i < 30 ∧ 0 ≤ j < 30.

(** The board [_generateField] makes from the empty array. *)
Definition fresh_field : Field :=
  match _generateField empty with
  | Ok field => field
  | TypeError => empty
  end.

(** A run in which the first participant's territory grows down the left
    edge to row 23, and the move that participant then makes from the
    frontier cell [(24,0)] with dice [6,6] towards [(35,0)]. *)
Definition edge_run : list (WebSocket * PlayerState) :=
  [(1%nat, mkMove 0 0 11 0 "r" 0 6 6);
   (2%nat, mkMove 29 29 29 28 "b" 0 1 1);
   (1%nat, mkMove 12 0 23 0 "r" 0 6 6);
   (2%nat, mkMove 29 27 29 26 "b" 0 1 1)].

Definition overshoot : PlayerState := mkMove 24 0 35 0 "r" 0 6 6.

(** A socket [destroy] still notifies and closes. *)
Definition still_open (st : ReadyState) : Prop := st ≠ CLOSED ∧ st ≠ CLOSING.

(** ** Notions used by the further properties *)

(** The board is exactly the 30x30 grid: rows [0..29] exist and hold
    exactly the columns [0..29]. *)
Definition grid (field : Field) : Prop :=
  ∀ i j,
    if decide (0 ≤ i < 30) then
      if decide (0 ≤ j < 30) then ∃ c, cell_at field i j = Ok (Some c)
      else cell_at field i j = Ok None
    else cell_at field i j = TypeError.

(** [field[i][j] === 'default__cell'] where a missing row counts as no. *)
Definition is_default_at (field : Field) (i j : Z) : bool :=
  match cell_at field i j with
  | Ok (Some default__cell) => true
  | _ => false
  end.

(** The four neighbours of a cell, in the order [_cellFree] visits them. *)
Definition neighbours (row col : Z) : list (Z * Z) :=
  [(row - 1, col); (row, col - 1); (row + 1, col); (row, col + 1)].

(** A frontier cell of a colour: unclaimed, and next to a cell of it. *)
Definition frontier (field : Field) (color : string) (r c : Z) : Prop :=
  cell_at field r c = Ok (Some default__cell)
  ∧ ∃ i j, cell_at field i j = Ok (Some (cell_of_color color))
           ∧ (r, c) ∈ neighbours i j.

(** The number of cells of the inclusive rectangle between two cells. *)
Definition rect_area (rowFrom colFrom rowTo colTo : Z) : Z :=
  (rowFrom `max` rowTo - rowFrom `min` rowTo + 1)
  * (colFrom `max` colTo - colFrom `min` colTo + 1).

(** The corner diagonally opposite a corner. *)
Definition opposite (corner : Z * Z) : list Z := [29 - corner.1; 29 - corner.2].

Definition corners : list (Z * Z) := [(0, 0); (0, 29); (29, 0); (29, 29)].

(** A sequence of arbitrary messages, each handled in arrival order.  On a
    live game an exception leaves the game as it was: [repeatGame] does
    not throw there, and [_onPlayerMove] throws only in its checks or
    where it reads a member that is missing, before it writes a field. *)
Fixpoint run (g : Game) (events : list (WebSocket * Payload)) : Game :=
  match events with
  | [] => g
  | (player, data) :: rest => run (state_after g (on_message g player data)) rest
  end.

(** What [_sendStartMessage] sends to a session: the first seat is told
    ['r'] and its turn, every later one ['b']. *)
Definition start_messages (session : list WebSocket) : list Sent :=
  match session with
  | [] => []
  | first :: others =>
      (first, gameStarted true fresh_field "r" 0)
      :: map (λ q, (q, gameStarted false fresh_field "b" 0)) others
  end.

(** The unclaimed neighbours of a cell, in [_cellFree]'s order. *)
Definition free_neighbours (field : Field) (row col : Z) : list (Z * Z) :=
  List.filter (λ p : Z * Z, is_default_at field p.1 p.2) (neighbours row col).

(** The state of a game that was started for [session] and not destroyed:
    the 30x30 board, the turn with a member of the session, and a score
    entry for every member. *)
Definition in_session (session : list WebSocket) (g : Game) : Prop :=
  _session g = Some session
  ∧ destroy_replaced g = false
  ∧ grid (_gameField g)
  ∧ (∀ q, _currentMove g = Some q → q ∈ session)
  ∧ ∃ playersState,
      _playersState g = Some playersState
      ∧ ∀ q, q ∈ session → is_Some (playersState !! q).

(** ** Legal moves *)

(** The cells a move may start from, for the anchor corner [(ar, ac)]: the
    corner itself while it is unclaimed, a frontier cell of the move's
    colour afterwards. *)
Definition start_cell (field : Field) (color : string) (ar ac r c : Z) : Prop :=
  if is_default_at field ar ac then r = ar ∧ c = ac
  else frontier field color r c.

(** The rules for a move of a participant whose anchor corner is
    [(ar, ac)]: an allowed start cell, a target one divisor-pair
    displacement of the dice total away from it in the corner's directions,
    and a rectangle of unclaimed cells of the board. *)
Definition legal_move (field : Field) (m : PlayerState) (ar ac : Z) : Prop :=
  start_cell field (color m) ar ac (row (from m)) (col (from m))
  ∧ reachable [ar; ac] (row (from m)) (col (from m)) (dice_total m)
              (row (to m)) (col (to m))
  ∧ rect_unclaimed field (row (from m)) (col (from m)) (row (to m)) (col (to m)).

(** A legal move: the anchor resolved for it is a corner of the grid (on
    the first move of a game the anchor is the move's own [from]), and the
    move keeps the rules for that corner. *)
Definition legal (field : Field) (m : PlayerState) : Prop :=
  ∃ ar ac, resolve_anchor field m = Ok [ar; ac]
           ∧ is_corner ar ac ∧ legal_move field m ar ac.



(** ** Seats, scores and the order of moves *)

(** The other participant of the session [[a; b]]. *)
Definition other_seat (a b player : WebSocket) : WebSocket :=
  if decide (player = a) then b else a.

(** The score [z] of [q] once the dice of [player]'s move are added. *)
Definition settled_score (player q : WebSocket) (z : Z) (m : PlayerState) : Z :=
  if decide (q = player) then z + (dices m).1 + (dices m).2 else z.

(** Both dice are integers of magnitude at most [D]. *)
Definition dice_within (D : Z) (m : PlayerState) : Prop :=
  - D ≤ (dices m).1 ≤ D ∧ - D ≤ (dices m).2 ≤ D.

(** What a message leaves in the order of play: an accepted move of its
    sender, or a restart. *)
Inductive Played : Type := moveBy (player : WebSocket) | restart.

Definition entry (g : Game) (player : WebSocket) (data : Payload) : list Played :=
  match _parseMessage data with
  | playerMove _ | playerMoveLacking _ _ =>
      if accepted (on_message g player data) then [moveBy player] else []
  | repeatGame => [restart]
  | _ => []
  end.

(** The order of play of a sequence of messages. *)
Fixpoint history (g : Game) (events : list (WebSocket * Payload)) : list Played :=
  match events with
  | [] => []
  | (player, data) :: rest =>
      entry g player data ++ history (state_after g (on_message g player data)) rest
  end.

(** No two moves that follow each other directly are of the same
    participant. *)
Definition alternates (l : list Played) : Prop :=
  ∀ i p q, l !! i = Some (moveBy p) → l !! S i = Some (moveBy q) → p ≠ q.

(** What a call of a move handler on a started game comes to: it is not
    accepted and the game is as it was, or it is accepted, it was the
    sender's turn and the turn has passed on. *)
Definition passes_turn (session : list WebSocket) (g : Game) (player : WebSocket)
    (r : result (Game * list Sent)) : Prop :=
  (accepted r = false ∧ state_after g r = g)
  ∨ (accepted r = true ∧ _currentMove g = Some player
     ∧ _currentMove (state_after g r) = Some (next_mover session player)).

(** ** The game screen of the client ([screens/game.ts]) *)

Module Client.

(** The clicked element as [onCell] reads it: the numbers in its second
    class [r<row>c<col>], its third class, and whether it carries the
    class ['number']. *)
Record Target : Type := {
  cellRow : Z;
  cellCol : Z;
  cellColorClass : string;
  isNumber : bool;
}.

(** The module's [playerState] object; [dices] is [[]] until the dice are
    rolled. *)
Record State : Type := {
  from : Coordinate;
  to : Coordinate;
  color : string;
  moved : bool;
  sum : Z;
  dices : list Z;
}.

(** The initial value of [playerState]. *)
Definition initial : State :=
  {| from := {| row := 0; col := 0 |};
     to := {| row := 0; col := 0 |};
     color := "r";
     moved := false;
     sum := 0;
     dices := [] |}.

(** [onDices], with the two numbers [roll] drew. *)
Definition onDices (playerState : State) (d0 d1 : Z) : State :=
  {| from := from playerState; to := to playerState;
     color := color playerState; moved := moved playerState;
     sum := sum playerState; dices := [d0; d1] |}.

(** [update]: the colour is stored and, on the player's turn,
    [defaultDices] empties the dice. *)
Definition update (playerState : State) (myTurn : bool) (color' : string) : State :=
  {| from := from playerState; to := to playerState;
     color := color'; moved := moved playerState;
     sum := sum playerState;
     dices := if myTurn then [] else dices playerState |}.

(** [onCell]: the new [playerState] and, when [turnHandler] is called, the
    state it is called with. *)
Definition onCell (playerState : State) (cell : Target) : State * option State :=
  if bool_decide (List.length (dices playerState) = 0%nat) then (playerState, None)
  else if isNumber cell then (playerState, None)
  else if bool_decide (cellColorClass cell = "blue__cell"%string)
          || bool_decide (cellColorClass cell = "red__cell"%string)
  then (playerState, None)
  else if negb (moved playerState)
          && (bool_decide (cellColorClass cell = "default__cell"%string)
              || bool_decide (cellColorClass cell = "free__cell"%string))
  then ({| from := {| row := cellRow cell; col := cellCol cell |};
           to := to playerState; color := color playerState;
           moved := true; sum := sum playerState; dices := dices playerState |},
        None)
  else if bool_decide (cellColorClass cell = "default__cell"%string)
          || (bool_decide (cellColorClass cell = "free__cell"%string)
              && moved playerState)
  then let playerState' :=
         {| from := from playerState;
            to := {| row := cellRow cell; col := cellCol cell |};
            color := color playerState; moved := false;
            sum := sum playerState; dices := dices playerState |} in
       (playerState', Some playerState')
  else (playerState, None).

(** The calls the screen receives: a click on the dice with the numbers
    drawn, a click on a cell, an [update] from the server. *)
Inductive Event : Type :=
| Dice (d0 d1 : Z)
| Cell (cell : Target)
| Update (myTurn : bool) (color : string).

(** The state after a sequence of calls, and the moves handed to
    [turnHandler] on the way, in order. *)
Fixpoint handle (playerState : State) (events : list Event)
  : State * list State :=
  match events with
  | [] => (playerState, [])
  | Dice d0 d1 :: rest => handle (onDices playerState d0 d1) rest
  | Cell cell :: rest =>
      let '(playerState', handed) := onCell playerState cell in
      let '(final, moves) := handle playerState' rest in
      (final, option_list handed ++ moves)
  | Update myTurn color' :: rest => handle (update playerState myTurn color') rest
  end.

End Client.

(** The [move] of the [playerMove] message as the server reads it:
    [dices[0]] and [dices[1]] of the array the client sent.  It is meant
    for the moves the game screen hands over, which carry two dice; a state
    with fewer dice would reach the server as a [playerMoveLacking fewDice]
    message, not as this move. *)
Definition as_received (m : Client.State) : PlayerState :=
  {| from := Client.from m; to := Client.to m; color := Client.color m;
     moved := Client.moved m; sum := Client.sum m;
     dices := (default 0 (Client.dices m !! 0%nat),
               default 0 (Client.dices m !! 1%nat)) |}.

(** * Properties *)

(** ** The exception monad *)

Lemma bind_Ok {A B} (m : result A) (f : A → result B) (b : B) :
  m ≫= f = Ok b ↔ ∃ a, m = Ok a ∧ f a = Ok b.
Proof.
  destruct m as [a|]; simpl.
  - split; [intros H; exists a; auto | intros (a' & [= <-] & H); exact H].
  - split; [discriminate | intros (a' & H & _); discriminate].
Qed.

Lemma and_then_true (a b : result bool) :
  a &&& b = Ok true ↔ a = Ok true ∧ b = Ok true.
Proof.
  unfold and_then. destruct a as [[|]|]; simpl; split; try tauto;
    try (intros [? ?]; discriminate); try discriminate.
Qed.

(** ** Arrays *)

Lemma seqZ_snoc (m n : Z) : 0 ≤ n → seqZ m (n + 1) = seqZ m n ++ [m + n].
Proof.
  intros Hn. rewrite seqZ_app by lia. reflexivity.
Qed.

Lemma omap_lookup_insert_fresh {A} (m : gmap Z A) (i : Z) (x : A) (l : list Z) :
  i ∉ l → omap (λ k, <[i := x]> m !! k) l = omap (λ k, m !! k) l.
Proof.
  induction l as [|k l IH]; [reflexivity|]. intros Hi.
  apply not_elem_of_cons in Hi as [Hne Hl]. cbn [omap list_omap].
  rewrite lookup_insert_ne by done. rewrite <- (IH Hl). reflexivity.
Qed.

(** Writing at index [length] of an array is a [push]: the visited
    elements grow by the new one. *)
Lemma filter_not_null_set_end {A} (a : array A) (x : A) :
  0 ≤ length a →
  filter_not_null (set a (length a) x) = filter_not_null a ++ [x].
Proof.
  intros Hlen. unfold filter_not_null, set. cbn [items length].
  rewrite decide_True by lia. rewrite seqZ_snoc by lia. rewrite omap_app.
  f_equal.
  - apply omap_lookup_insert_fresh. rewrite elem_of_seqZ. lia.
  - cbn. rewrite Z.add_0_l, lookup_insert_eq. reflexivity.
Qed.

Lemma elem_of_filter_not_null {A} (a : array A) (x : A) :
  x ∈ filter_not_null a ↔ ∃ k, 0 ≤ k < length a ∧ get a k = Some x.
Proof.
  unfold filter_not_null, get. rewrite list_elem_of_omap.
  setoid_rewrite elem_of_seqZ. split; intros (k & ? & ?); exists k; split; auto; lia.
Qed.

(** ** [_factorization] *)

Lemma numbers_upto_S (n : Z) (k : nat) :
  numbers_upto n (S k) =
    let i := Z.of_nat k + 1 in
    if decide (Z.rem n i = 0)
    then set (numbers_upto n k) (i - 1) (i - 1, n / i - 1)
    else numbers_upto n k.
Proof.
  unfold numbers_upto. rewrite seqZ_S, foldl_app. cbn [foldl].
  replace (1 + Z.of_nat k) with (Z.of_nat k + 1) by lia. reflexivity.
Qed.

Lemma numbers_upto_spec (n : Z) (k : nat) :
  0 ≤ length (numbers_upto n k) ≤ Z.of_nat k ∧
  (∀ j, get (numbers_upto n k) j =
          if decide (0 ≤ j < Z.of_nat k ∧ Z.rem n (j + 1) = 0)
          then Some (j, n / (j + 1) - 1) else None) ∧
  (∀ j, is_Some (get (numbers_upto n k) j) → j < length (numbers_upto n k)).
Proof.
  induction k as [|k (IHlen & IHget & IHdom)].
  - change (numbers_upto n 0) with (@empty (Z * Z)). unfold get, empty.
    cbn [items length]. split; [lia|]. split; intros j.
    + rewrite lookup_empty. rewrite decide_False by lia. reflexivity.
    + rewrite lookup_empty. intros [? [=]].
  - rewrite numbers_upto_S. cbv zeta.
    destruct (decide (Z.rem n (Z.of_nat k + 1) = 0)) as [Hdiv|Hndiv].
    + replace (Z.of_nat k + 1 - 1) with (Z.of_nat k) by lia.
      unfold set, get in *. cbn [items length].
      rewrite decide_True by lia. split; [lia|]. split; intros j.
      * rewrite lookup_insert. destruct (decide (Z.of_nat k = j)) as [<-|Hne].
        -- rewrite decide_True by (split; [lia|exact Hdiv]). reflexivity.
        -- rewrite IHget. repeat case_decide; try reflexivity; exfalso; lia.
      * rewrite lookup_insert. destruct (decide (Z.of_nat k = j)) as [<-|Hne].
        -- lia.
        -- intros Hj. apply IHdom in Hj. lia.
    + split; [lia|]. split; [|exact IHdom]. intros j. rewrite IHget.
      repeat case_decide; try reflexivity; exfalso.
      * apply H0. split; [lia|tauto].
      * destruct H0 as [Hj Hr]. apply H. split; [|exact Hr].
        destruct (decide (j = Z.of_nat k)) as [->|]; [contradiction|lia].
Qed.

Lemma factorization_numbers (n : Z) :
  _factorization n = filter_not_null (numbers_upto n (Z.to_nat n)).
Proof.
  unfold _factorization, numbers_upto. destruct (decide (0 ≤ n)) as [Hn|Hn].
  - rewrite Z2Nat.id by lia. reflexivity.
  - rewrite (seqZ_nil 1 n) by lia.
    replace (Z.to_nat n) with 0%nat by lia. reflexivity.
Qed.

Lemma elem_of_factorization (n : Z) (p : Z * Z) :
  p ∈ _factorization n ↔ divisor_pair n p.
Proof.
  rewrite factorization_numbers, elem_of_filter_not_null.
  destruct (numbers_upto_spec n (Z.to_nat n)) as (Hlen & Hget & Hdom).
  unfold divisor_pair. split.
  - intros (k & Hk & Hp). rewrite Hget in Hp.
    case_decide as Hd; [|discriminate]. destruct Hd as [Hk' Hrem].
    injection Hp as <-. exists (k + 1). split; [lia|]. split.
    + apply Z.rem_divide; [lia|exact Hrem].
    + f_equal. lia.
  - intros (i & Hi & Hdiv & ->).
    assert (Hsome : get (numbers_upto n (Z.to_nat n)) (i - 1)
                    = Some (i - 1, n / i - 1)).
    { rewrite Hget. replace (i - 1 + 1) with i by lia.
      rewrite decide_True; [reflexivity|]. split; [lia|].
      apply Z.rem_divide; [lia|exact Hdiv]. }
    exists (i - 1). split; [|exact Hsome].
    specialize (Hdom (i - 1)). rewrite Hsome in Hdom.
    specialize (Hdom (mk_is_Some _ _ eq_refl)). lia.
Qed.

(** C2. For every dice sum [n] in [2,12] the displacements that
    [_factorization n] returns are exactly the pairs [(i-1, n/i-1)] for the
    divisors [i] of [n] with [1 <= i <= n], each once; for [n = 6] they are
    [(0,5)], [(1,2)], [(2,1)] and [(5,0)]. *)
Theorem factorization_displacement_set (n : Z) :
  2 ≤ n ≤ 12 →
  (∀ p, p ∈ _factorization n ↔ divisor_pair n p)
  ∧ NoDup (_factorization n)
  ∧ _factorization 6 = [(0, 5); (1, 2); (2, 1); (5, 0)].
Proof.
  intros Hn. split; [intros p; apply elem_of_factorization|]. split.
  - assert (Hcases : n ∈ seqZ 2 11) by (apply elem_of_seqZ; lia).
    change (seqZ 2 11) with [2; 3; 4; 5; 6; 7; 8; 9; 10; 11; 12] in Hcases.
    repeat (apply elem_of_cons in Hcases as [->|Hcases];
            [apply (bool_decide_unpack _); vm_compute; reflexivity|]).
    apply elem_of_nil in Hcases. contradiction.
  - vm_compute. reflexivity.
Qed.

Lemma factorization_displacement_set_witness :
  2 ≤ 6 ≤ 12
  ∧ (∀ p, p ∈ _factorization 6 ↔ divisor_pair 6 p)
  ∧ NoDup (_factorization 6)
  ∧ _factorization 6 = [(0, 5); (1, 2); (2, 1); (5, 0)].
Proof. split; [lia | apply (factorization_displacement_set 6); lia]. Defined.

(** ** [_showMoves] and [_checkTo] *)

Lemma showMoves_map (primeNumbers : list (Z * Z)) (s1 s2 : sign) (row col : Z) :
  _showMoves primeNumbers s1 s2 row col
  = apply_signs s1 s2 row col <$> primeNumbers.
Proof.
  unfold _showMoves.
  set (step := λ '(moves, i) (item : Z * Z), _).
  assert (Hinv : ∀ l (a : array (Z * Z)),
             0 ≤ length a →
             let '(moves, i) := foldl step (a, length a) l in
             filter_not_null moves
             = filter_not_null a ++ (apply_signs s1 s2 row col <$> l)).
  { induction l as [|item l IH]; intros a Ha.
    - cbn. rewrite app_nil_r. reflexivity.
    - cbn [foldl]. rewrite fmap_cons. unfold step at 2.
      assert (Hlen : length (set a (length a)
                              (apply_signs s1 s2 row col item))
                     = length a + 1).
      { unfold set. cbn [length]. rewrite decide_True by lia. reflexivity. }
      specialize (IH (set a (length a) (apply_signs s1 s2 row col item))).
      rewrite Hlen in IH. specialize (IH ltac:(lia)).
      replace (match s1 with plus => item.1 + row | minus => row - item.1 end,
               match s2 with plus => item.2 + col | minus => col - item.2 end)
        with (apply_signs s1 s2 row col item) by (destruct s1, s2; reflexivity).
      destruct (foldl step _ l) as [moves i].
      rewrite IH, filter_not_null_set_end by lia.
      rewrite <- app_assoc. reflexivity. }
  specialize (Hinv primeNumbers empty). cbn [length empty] in Hinv.
  specialize (Hinv ltac:(lia)).
  change (@empty (Z * Z), 0) with (@mk (Z * Z) ∅ 0, 0).
  destruct (foldl step _ primeNumbers) as [moves i]. exact Hinv.
Qed.

Lemma checkTo_true (moves : list (Z * Z)) (row col : Z) :
  _checkTo moves row col = true ↔ (row, col) ∈ moves.
Proof.
  unfold _checkTo.
  set (step := λ (flag : bool) (item : Z * Z), _).
  assert (Hinv : ∀ l flag,
             foldl step flag l = true ↔ flag = true ∨ (row, col) ∈ l).
  { induction l as [|item l IH]; intros flag; cbn [foldl].
    - rewrite elem_of_nil. tauto.
    - rewrite IH, elem_of_cons. unfold step. destruct item as [r c]. cbn [fst snd].
      destruct (bool_decide_reflect (r = row)) as [Hr|Hr];
        destruct (bool_decide_reflect (c = col)) as [Hc|Hc]; cbn [andb];
        subst; intuition congruence. }
  rewrite Hinv. split; [intros [?|?]; [discriminate|assumption] | auto].
Qed.

(** ** The rectangle loops *)

Lemma lowF_min (a b : Z) : lowF a b = a `min` b.
Proof. unfold lowF. case_decide; lia. Qed.

Lemma highT_max (a b : Z) : highT a b = a `max` b.
Proof. unfold highT. rewrite lowF_min. case_decide; lia. Qed.

Lemma elem_of_range (lo hi k : Z) : k ∈ range lo hi ↔ lo ≤ k ≤ hi.
Proof. unfold range. rewrite elem_of_seqZ. lia. Qed.

Lemma all_cells_true {A} (body : A → result bool) (l : list A) :
  all_cells body l = Ok true ↔ ∀ x, x ∈ l → body x = Ok true.
Proof.
  induction l as [|x l IH]; cbn [all_cells].
  - split; [intros _ y Hy; apply elem_of_nil in Hy; contradiction | reflexivity].
  - split.
    + intros H y Hy. destruct (body x) as [[|]|] eqn:Hx; try discriminate.
      cbn in H. apply elem_of_cons in Hy as [->|Hy]; [exact Hx|].
      apply IH; assumption.
    + intros H. rewrite (H x) by (left). cbn. apply IH.
      intros y Hy. apply H. right. exact Hy.
Qed.

Lemma cell_is_true (field : Field) (i j : Z) (t : cell) :
  cell_is field i j t = Ok true ↔ cell_at field i j = Ok (Some t).
Proof.
  unfold cell_is. destruct (cell_at field i j) as [c|]; cbn.
  - destruct (bool_decide_reflect (c = Some t)) as [->|Hne]; split;
      try reflexivity; try discriminate. intros [= ->]. contradiction.
  - split; discriminate.
Qed.

Lemma areCellsEmpty_true (field : Field) (rowFrom colFrom rowTo colTo : Z) :
  _areCellsEmpty field rowFrom colFrom rowTo colTo = Ok true
  ↔ rect_unclaimed field rowFrom colFrom rowTo colTo.
Proof.
  unfold _areCellsEmpty, rect_unclaimed, in_rect.
  rewrite !lowF_min, !highT_max, all_cells_true.
  setoid_rewrite all_cells_true. setoid_rewrite elem_of_range.
  setoid_rewrite cell_is_true. split.
  - intros H i j [Hi Hj]. apply H; assumption.
  - intros H i Hi j Hj. apply H. split; assumption.
Qed.

(** ** [_fillField] *)

Lemma cell_at_set_row (f : Field) (i : Z) (row' : array cell) (i' j' : Z) :
  cell_at (set f i row') i' j'
  = if decide (i' = i) then Ok (get row' j') else cell_at f i' j'.
Proof.
  unfold cell_at, set, get. cbn [items]. rewrite lookup_insert.
  destruct (decide (i = i')) as [->|Hne].
  - rewrite decide_True by reflexivity. reflexivity.
  - rewrite decide_False by congruence. reflexivity.
Qed.

Lemma get_set_row_is_Some (f : Field) (i : Z) (row' : array cell) (i' : Z) :
  is_Some (get f i') → is_Some (get (set f i row') i').
Proof.
  unfold set, get. cbn [items]. rewrite lookup_insert.
  case_decide; [intros _; eexists; reflexivity | auto].
Qed.

Section FillRow.
Variables (t : cell) (i : Z).

Let step : result Field → Z → result Field :=
  λ acc' j,
    field ← acc';
    match get field i with
    | None => TypeError
    | Some row => Ok (set field i (set row j t))
    end.

Lemma fill_row_spec (js : list Z) (f : Field) :
  is_Some (get f i) →
  ∃ f', foldl step (Ok f) js = Ok f'
        ∧ (∀ i', is_Some (get f i') → is_Some (get f' i'))
        ∧ ∀ i' j', cell_at f' i' j'
                   = if decide (i' = i ∧ j' ∈ js) then Ok (Some t)
                     else cell_at f i' j'.
Proof.
  revert f. induction js as [|j js IH]; intros f [row Hrow].
  - exists f. split; [reflexivity|]. split; [auto|]. intros i' j'.
    rewrite decide_False; [reflexivity|]. intros [_ H].
    apply elem_of_nil in H. exact H.
  - cbn [foldl]. unfold step at 2. cbn. rewrite Hrow.
    destruct (IH (set f i (set row j t))) as (f' & Hrun & Hdom & Hcells).
    { apply get_set_row_is_Some. eexists; exact Hrow. }
    exists f'. split; [exact Hrun|]. split.
    + intros i' Hi'. apply Hdom, get_set_row_is_Some, Hi'.
    + intros i' j'. rewrite Hcells, cell_at_set_row.
      destruct (decide (i' = i)) as [->|Hne].
      * destruct (decide (j' = j)) as [->|Hj].
        -- rewrite (decide_True (P := i = i ∧ j ∈ j :: js))
             by (split; [reflexivity|left]).
           case_decide; [reflexivity|].
           unfold set, get. cbn [items]. rewrite lookup_insert_eq. reflexivity.
        -- assert (Hiff : j' ∈ j :: js ↔ j' ∈ js).
           { rewrite elem_of_cons. tauto. }
           destruct (decide (i = i ∧ j' ∈ js)) as [Hin|Hout].
           ++ rewrite decide_True by tauto. reflexivity.
           ++ rewrite decide_False by tauto.
              unfold cell_at. rewrite Hrow. unfold set at 1, get at 1.
              cbn [items]. rewrite lookup_insert_ne by congruence. reflexivity.
      * rewrite !decide_False by tauto. reflexivity.
Qed.

Lemma fill_row_error (js : list Z) : foldl step TypeError js = TypeError.
Proof. induction js as [|j js IH]; [reflexivity | exact IH]. Qed.
End FillRow.

Lemma fill_rows_spec (t : cell) (js rows : list Z) (f : Field) :
  (∀ i, i ∈ rows → is_Some (get f i)) →
  ∃ f', foldl (λ acc i,
                 foldl (λ acc' j,
                          field ← acc';
                          match get field i with
                          | None => TypeError
                          | Some row => Ok (set field i (set row j t))
                          end) acc js) (Ok f) rows = Ok f'
        ∧ ∀ i' j', cell_at f' i' j'
                   = if decide (i' ∈ rows ∧ j' ∈ js) then Ok (Some t)
                     else cell_at f i' j'.
Proof.
  revert f. induction rows as [|i rows IH]; intros f Hrows.
  - exists f. split; [reflexivity|]. intros i' j'.
    rewrite decide_False; [reflexivity|]. intros [H _].
    apply elem_of_nil in H. exact H.
  - cbn [foldl].
    destruct (fill_row_spec t i js f) as (f1 & Hrun1 & Hdom1 & Hcells1).
    { apply Hrows. left. }
    rewrite Hrun1.
    destruct (IH f1) as (f' & Hrun & Hcells).
    { intros i' Hi'. apply Hdom1, Hrows. right. exact Hi'. }
    exists f'. split; [exact Hrun|]. intros i' j'.
    rewrite Hcells, Hcells1.
    destruct (decide (i' ∈ rows ∧ j' ∈ js)) as [Hin|Hout].
    + rewrite decide_True; [reflexivity|]. split; [right|]; tauto.
    + destruct (decide (i' = i ∧ j' ∈ js)) as [[-> Hj]|Hout'].
      * rewrite decide_True; [reflexivity|]. split; [left|exact Hj].
      * rewrite decide_False; [reflexivity|]. rewrite elem_of_cons. tauto.
Qed.

(** On rows that exist, [_fillField] returns the board with exactly the
    cells of the rectangle set to the colour's class. *)
Lemma fillField_spec (color : string) (f : Field) (rowFrom colFrom rowTo colTo : Z) :
  (∀ i, rowFrom `min` rowTo ≤ i ≤ rowFrom `max` rowTo → is_Some (get f i)) →
  ∃ f', _fillField color f rowFrom colFrom rowTo colTo = Ok f'
        ∧ ∀ i j, cell_at f' i j
                 = if decide (in_rect rowFrom colFrom rowTo colTo i j)
                   then Ok (Some (cell_of_color color))
                   else cell_at f i j.
Proof.
  intros Hrows. unfold _fillField. cbv zeta. rewrite !lowF_min, !highT_max.
  destruct (fill_rows_spec (cell_of_color color)
              (range (colFrom `min` colTo) (colFrom `max` colTo))
              (range (rowFrom `min` rowTo) (rowFrom `max` rowTo)) f)
    as (f' & Hrun & Hcells).
  { intros i Hi. apply Hrows, elem_of_range, Hi. }
  exists f'. split; [exact Hrun|]. intros i j. rewrite Hcells.
  unfold in_rect.
  destruct (decide (_ ∧ _)) as [Hin|Hout]; rewrite !elem_of_range in *;
    [rewrite decide_True by exact Hin | rewrite decide_False by exact Hout];
    reflexivity.
Qed.

Lemma rect_unclaimed_rows (f : Field) (rowFrom colFrom rowTo colTo : Z) :
  rect_unclaimed f rowFrom colFrom rowTo colTo →
  ∀ i, rowFrom `min` rowTo ≤ i ≤ rowFrom `max` rowTo → is_Some (get f i).
Proof.
  intros H i Hi. specialize (H i colFrom). unfold cell_at, in_rect in H.
  destruct (get f i); [eexists; reflexivity|].
  discriminate H. split; [exact Hi | lia].
Qed.

(** ** [_makeMove] *)

Lemma makeMove_moves (gameField : Field) (anchor : list Z)
    (rowFrom colFrom rowTo colTo : Z) (dices : Z * Z) :
  _makeMove gameField anchor rowFrom colFrom rowTo colTo dices
  = Ok (_checkTo
          (match corner_signs anchor with
           | Some (s1, s2) =>
               _showMoves (_factorization (dices.1 + dices.2)) s1 s2 rowFrom colFrom
           | None => []
           end) rowTo colTo)
    &&& _areCellsEmpty gameField rowFrom colFrom rowTo colTo.
Proof.
  unfold _makeMove, corner_signs. cbv zeta.
  destruct (bool_decide_reflect (anchor !! 0%nat = Some 29)) as [H29|H29];
    destruct (bool_decide_reflect (anchor !! 0%nat = Some 0)) as [H0|H0];
    destruct (bool_decide (anchor !! 1%nat = Some 0));
    try reflexivity; congruence.
Qed.

Lemma makeMove_true (gameField : Field) (anchor : list Z)
    (rowFrom colFrom rowTo colTo : Z) (dices : Z * Z) :
  _makeMove gameField anchor rowFrom colFrom rowTo colTo dices = Ok true
  ↔ reachable anchor rowFrom colFrom (dices.1 + dices.2) rowTo colTo
    ∧ rect_unclaimed gameField rowFrom colFrom rowTo colTo.
Proof.
  rewrite makeMove_moves, and_then_true, areCellsEmpty_true.
  unfold reachable. split; intros [Hreach Hrect]; (split; [|exact Hrect]).
  - injection Hreach as Hreach. apply checkTo_true in Hreach.
    destruct (corner_signs anchor) as [[s1 s2]|];
      [|apply elem_of_nil in Hreach; contradiction].
    rewrite showMoves_map in Hreach.
    apply list_elem_of_fmap in Hreach as (p & Hp & Hin).
    exists s1, s2, p. split; [reflexivity|]. split; [|exact Hp].
    apply elem_of_factorization, Hin.
  - destruct Hreach as (s1 & s2 & p & -> & Hdiv & Hp). f_equal.
    apply checkTo_true. rewrite showMoves_map, Hp.
    apply list_elem_of_fmap. exists p. split; [reflexivity|].
    apply elem_of_factorization, Hdiv.
Qed.

(** ** The tail of [_onPlayerMove] *)

Lemma settle_fold (playersState : gmap WebSocket number)
    (currentPlayer : WebSocket) (session : list WebSocket) :
  foldl (λ '(winFlag, player2) player,
           (winFlag || number_wins (score_of playersState player),
            if bool_decide (player ≠ currentPlayer) then player else player2))
        (false, currentPlayer) session
  = (some_win playersState session, next_mover session currentPlayer).
Proof.
  unfold some_win, next_mover.
  assert (Hgen : ∀ (w : bool) (q : WebSocket),
    foldl (λ '(winFlag, player2) player,
             (winFlag || number_wins (score_of playersState player),
              if bool_decide (player ≠ currentPlayer) then player else player2))
          (w, q) session
    = (foldl (λ (winFlag : bool) player,
                winFlag || number_wins (score_of playersState player)) w session,
       foldl (λ player2 player,
                if bool_decide (player ≠ currentPlayer) then player else player2)
             q session)).
  { induction session as [|player session IH]; intros w q; [reflexivity|].
    cbn [foldl]. apply IH. }
  apply Hgen.
Qed.

Lemma settle_live (g : Game) (gameField : Field) (currentPlayer : WebSocket)
    (m : PlayerState) (playersState : gmap WebSocket number)
    (session : list WebSocket) :
  _playersState g = Some playersState → _session g = Some session →
  settle g gameField currentPlayer m
  = Ok ({| _session := Some session;
           _playersState := Some (scores_after playersState currentPlayer m);
           _gameField := gameField;
           _currentMove := Some (next_mover session currentPlayer);
           destroy_replaced := destroy_replaced g |},
        if some_win (scores_after playersState currentPlayer m) session
        then map (λ player, (player, gameResult
                    (number_wins
                       (score_of (scores_after playersState currentPlayer m) player))))
                 session
        else [(next_mover session currentPlayer,
               changePlayer true gameField
                 (if bool_decide (color m = "r"%string) then "b" else "r")%string);
              (currentPlayer, changePlayer false gameField (color m))]).
Proof.
  intros Hps Hsession. unfold settle. rewrite Hps, Hsession. cbv zeta.
  fold (scores_after playersState currentPlayer m). rewrite settle_fold.
  destruct (some_win _ session); reflexivity.
Qed.

Lemma settle_accepted (g : Game) (gameField : Field) (currentPlayer : WebSocket)
    (m : PlayerState) :
  live g → accepted (settle g gameField currentPlayer m) = true.
Proof.
  intros [[session Hsession] [playersState Hps]].
  rewrite (settle_live _ _ _ _ _ _ Hps Hsession). cbn [accepted].
  destruct (some_win _ session); [|reflexivity].
  generalize (scores_after playersState currentPlayer m). clear.
  intros scores. induction session as [|q session IH]; [reflexivity | exact IH].
Qed.

(** ** [_onPlayerMove] *)

Lemma checked_field_validation (gameField : Field) (m : PlayerState) :
  sum m = 0 →
  checked_field gameField m
  = (ok ← validation gameField m;
     if negb ok then Ok None
     else field ← _fillField (color m) gameField (row (from m)) (col (from m))
                             (row (to m)) (col (to m));
          Ok (Some field)).
Proof.
  intros Hsum. unfold checked_field, validation, resolve_anchor. cbv zeta.
  rewrite bool_decide_eq_true_2 by exact Hsum.
  destruct (_isFieldEmpty gameField) as [[|]|]; cbn; try reflexivity.
  destruct (_isCornerEmpty gameField) as [[|]|]; cbn; try reflexivity.
  - destruct (_findFirstMove gameField); reflexivity.
  - destruct (_findCurrentMove gameField (color m)); reflexivity.
Qed.

Lemma validation_true (gameField : Field) (m : PlayerState) :
  validation gameField m = Ok true →
  ∃ anchor, resolve_anchor gameField m = Ok anchor
            ∧ reachable anchor (row (from m)) (col (from m))
                        ((dices m).1 + (dices m).2) (row (to m)) (col (to m))
            ∧ rect_unclaimed gameField (row (from m)) (col (from m))
                             (row (to m)) (col (to m)).
Proof.
  unfold validation, resolve_anchor.
  destruct (_isFieldEmpty gameField) as [[|]|]; cbn; try discriminate.
  - unfold _checkFirstMove. intros H.
    destruct (_ && _); [discriminate|]. destruct (_ && _); [discriminate|].
    eexists. split; [reflexivity|]. apply makeMove_true, H.
  - destruct (_isCornerEmpty gameField) as [[|]|]; cbn; try discriminate.
    + destruct (_findFirstMove gameField) as [anchor|]; cbn; [|discriminate].
      intros H. exists anchor. split; [reflexivity|].
      unfold _checkMove in H.
      destruct (anchor_is_default gameField anchor) as [[|]|]; cbn in H;
        try discriminate.
      * destruct (_ || _); [discriminate|]. apply makeMove_true, H.
      * destruct (_findFreeCells gameField (color m)); cbn in H; [|discriminate].
        destruct (_checkTo _ _ _); [|discriminate]. apply makeMove_true, H.
    + destruct (_findCurrentMove gameField (color m)) as [anchor|]; cbn;
        [|discriminate].
      intros H. exists anchor. split; [reflexivity|].
      unfold _checkMove in H.
      destruct (anchor_is_default gameField anchor) as [[|]|]; cbn in H;
        try discriminate.
      * destruct (_ || _); [discriminate|]. apply makeMove_true, H.
      * destruct (_findFreeCells gameField (color m)); cbn in H; [|discriminate].
        destruct (_checkTo _ _ _); [|discriminate]. apply makeMove_true, H.
Qed.

Lemma onPlayerMove_out_of_turn (g : Game) (player : WebSocket) (m : PlayerState) :
  _currentMove g ≠ Some player →
  _onPlayerMove g player m = Ok (g, [(player, incorrectRequest' "Not your turn")]).
Proof.
  intros Hturn. unfold _onPlayerMove.
  rewrite bool_decide_eq_true_2 by exact Hturn. reflexivity.
Qed.

Lemma onPlayerMove_unchecked (g : Game) (player : WebSocket) (m : PlayerState) :
  _currentMove g = Some player → sum m ≠ 0 →
  _onPlayerMove g player m = settle g (_gameField g) player m.
Proof.
  intros Hturn Hsum. unfold _onPlayerMove, checked_field. cbv zeta.
  rewrite bool_decide_eq_false_2 by (intros H; apply H, Hturn).
  rewrite bool_decide_eq_false_2 by exact Hsum. reflexivity.
Qed.

Lemma onPlayerMove_checked (g : Game) (player : WebSocket) (m : PlayerState) :
  _currentMove g = Some player → sum m = 0 →
  _onPlayerMove g player m
  = match validation (_gameField g) m with
    | Ok true =>
        field ← _fillField (color m) (_gameField g) (row (from m)) (col (from m))
                           (row (to m)) (col (to m));
        settle g field player m
    | Ok false => Ok (g, [(player, incorrectRequest' "wrong move")])
    | TypeError => TypeError
    end.
Proof.
  intros Hturn Hsum. unfold _onPlayerMove.
  rewrite bool_decide_eq_false_2 by (intros H; apply H, Hturn).
  rewrite checked_field_validation by exact Hsum.
  destruct (validation (_gameField g) m) as [[|]|]; cbn; try reflexivity.
  destruct (_fillField _ _ _ _ _ _); reflexivity.
Qed.

(** A move that passed the checks is written to the board without an
    exception: every row of its rectangle exists. *)
Lemma fill_after_validation (gameField : Field) (m : PlayerState) :
  validation gameField m = Ok true →
  ∃ field,
    _fillField (color m) gameField (row (from m)) (col (from m))
               (row (to m)) (col (to m)) = Ok field
    ∧ ∀ i j, cell_at field i j
             = if decide (in_rect (row (from m)) (col (from m))
                                  (row (to m)) (col (to m)) i j)
               then Ok (Some (cell_of_color (color m)))
               else cell_at gameField i j.
Proof.
  intros Hvalid. apply validation_true in Hvalid as (anchor & _ & _ & Hrect).
  apply fillField_spec. eapply rect_unclaimed_rows, Hrect.
Qed.

(** The three ways a call of [_onPlayerMove] on a live game can end. *)
Lemma onPlayerMove_outcome (g : Game) (player : WebSocket) (m : PlayerState) :
  live g →
  rejected g player (_onPlayerMove g player m)
  ∨ (_onPlayerMove g player m = TypeError
     ∧ sum m = 0 ∧ validation (_gameField g) m = TypeError)
  ∨ (_currentMove g = Some player
     ∧ ∃ field, _onPlayerMove g player m = settle g field player m
                ∧ (sum m = 0 → validation (_gameField g) m = Ok true)).
Proof.
  intros Hlive.
  destruct (decide (_currentMove g = Some player)) as [Hturn|Hturn].
  - destruct (decide (sum m = 0)) as [Hsum|Hsum].
    + rewrite (onPlayerMove_checked _ _ _ Hturn Hsum).
      destruct (validation (_gameField g) m) as [[|]|] eqn:Hvalid.
      * right. right. split; [exact Hturn|].
        destruct (fill_after_validation _ _ Hvalid) as (field & -> & _).
        exists field. split; [reflexivity | auto].
      * left. eexists. reflexivity.
      * right. left. auto.
    + right. right. split; [exact Hturn|]. exists (_gameField g).
      split; [apply onPlayerMove_unchecked; assumption | contradiction].
  - left. rewrite onPlayerMove_out_of_turn by exact Hturn. eexists. reflexivity.
Qed.

Lemma rejected_not_accepted (g : Game) (player : WebSocket)
    (r : result (Game * list Sent)) :
  rejected g player r → accepted r = false ∧ state_after g r = g.
Proof. intros [text ->]. split; reflexivity. Qed.

Lemma settle_not_TypeError (g : Game) (gameField : Field) (player : WebSocket)
    (m : PlayerState) :
  live g → settle g gameField player m ≠ TypeError.
Proof.
  intros [[session Hsession] [playersState Hps]].
  rewrite (settle_live _ _ _ _ _ _ Hps Hsession). discriminate.
Qed.

(** In a live game an exception of [_onPlayerMove] comes from the checks. *)
Lemma onPlayerMove_throws_in_checks (g : Game) (player : WebSocket)
    (m : PlayerState) :
  live g → _onPlayerMove g player m = TypeError →
  sum m = 0 ∧ validation (_gameField g) m = TypeError.
Proof.
  intros Hlive Hthrow.
  destruct (onPlayerMove_outcome g player m Hlive)
    as [[text Hr]|[(_ & Hsum & Hvalid)|(_ & field & Hr & _)]].
  - rewrite Hr in Hthrow. discriminate.
  - auto.
  - rewrite Hr in Hthrow. apply settle_not_TypeError in Hthrow; [contradiction|].
    exact Hlive.
Qed.

Lemma accepted_settled (g : Game) (player : WebSocket) (m : PlayerState) :
  live g → accepted (_onPlayerMove g player m) = true →
  _currentMove g = Some player
  ∧ ∃ field, _onPlayerMove g player m = settle g field player m
             ∧ (sum m = 0 → validation (_gameField g) m = Ok true).
Proof.
  intros Hlive Hacc.
  destruct (onPlayerMove_outcome g player m Hlive)
    as [Hrej|[(Hr & _)|Hsettled]].
  - apply rejected_not_accepted in Hrej as [Hrej _]. congruence.
  - rewrite Hr in Hacc. discriminate.
  - exact Hsettled.
Qed.

Lemma next_mover_pair (a b player : WebSocket) :
  a ≠ b → player ∈ [a; b] →
  next_mover [a; b] player ∈ [a; b]
  ∧ next_mover [a; b] player ≠ player
  ∧ (player = a → next_mover [a; b] player = b)
  ∧ (player = b → next_mover [a; b] player = a).
Proof.
  intros Hab Hin. unfold next_mover. cbn [foldl].
  apply elem_of_cons in Hin as [->|Hin];
    [|apply elem_of_cons in Hin as [->|Hin];
      [|apply elem_of_nil in Hin; contradiction]].
  - rewrite (bool_decide_eq_false_2 (a ≠ a)) by auto.
    rewrite (bool_decide_eq_true_2 (b ≠ a)) by auto.
    split; [right; left|]. split; [congruence|]. split; [reflexivity | congruence].
  - rewrite (bool_decide_eq_true_2 (a ≠ b)) by auto.
    rewrite (bool_decide_eq_false_2 (b ≠ b)) by auto.
    split; [left|]. split; [congruence|]. split; [congruence | reflexivity].
Qed.

Lemma two_players_live : live two_players.
Proof. split; eexists; vm_compute; reflexivity. Qed.

(** * The statements of the specification *)

(** ** Win detection *)

Lemma some_win_true (playersState : gmap WebSocket number)
    (session : list WebSocket) :
  some_win playersState session = true
  ↔ ∃ q, q ∈ session ∧ number_wins (score_of playersState q) = true.
Proof.
  unfold some_win.
  assert (Hgen : ∀ w : bool,
    foldl (λ (winFlag : bool) player,
             winFlag || number_wins (score_of playersState player)) w session
    = true
    ↔ w = true ∨ ∃ q, q ∈ session ∧ number_wins (score_of playersState q) = true).
  { induction session as [|p session IH]; intros w; cbn [foldl].
    - split; [auto|]. intros [?|(q & Hq & _)]; [assumption|].
      apply elem_of_nil in Hq. contradiction.
    - rewrite IH, orb_true_iff. split.
      + intros [[?|Hp]|(q & Hq & Hw)]; auto.
        * right. exists p. split; [left | exact Hp].
        * right. exists q. split; [right; exact Hq | exact Hw].
      + intros [?|(q & Hq & Hw)]; auto.
        apply elem_of_cons in Hq as [->|Hq]; auto.
        right. exists q. auto. }
  rewrite Hgen. split; [intros [?|?]; [discriminate|assumption] | auto].
Qed.

(** C6. After an accepted move, with the scores as the move left them: if
    some participant's score is at least 450, what is sent is one
    [gameResult] per participant, in session order, each carrying
    [win = (that participant's own score >= 450)]; if no score has reached
    450, what is sent is the two [changePlayer] messages, to the next mover
    and to the sender, and no [gameResult]. *)
Theorem win_round (g : Game) (player : WebSocket) (m : PlayerState)
    (g' : Game) (sent : list Sent) :
  live g → _onPlayerMove g player m = Ok (g', sent) →
  accepted (Ok (g', sent)) = true →
  ∃ session scores,
    _session g' = Some session ∧ _playersState g' = Some scores
    ∧ (∀ z, number_wins (Num z) = true ↔ 450 ≤ z)
    ∧ ((∃ q, q ∈ session ∧ number_wins (score_of scores q) = true) →
         sent = map (λ q, (q, gameResult (number_wins (score_of scores q))))
                    session
         ∧ ∀ a b, session = [a; b] →
                  sent = [(a, gameResult (number_wins (score_of scores a)));
                          (b, gameResult (number_wins (score_of scores b)))])
    ∧ ((∀ q, q ∈ session → number_wins (score_of scores q) = false) →
         sent = [(next_mover session player,
                  changePlayer true (_gameField g')
                    (if bool_decide (color m = "r"%string) then "b" else "r")%string);
                 (player, changePlayer false (_gameField g') (color m))]
         ∧ ∀ q win, (q, gameResult win) ∉ sent).
Proof.
  intros Hlive Hrun Hacc. rewrite <- Hrun in Hacc.
  destruct (accepted_settled g player m Hlive Hacc) as (_ & field & Hr & _).
  destruct Hlive as [[session Hsession] [playersState Hps]].
  rewrite Hrun, (settle_live _ _ _ _ _ _ Hps Hsession) in Hr.
  injection Hr as -> ->. cbn [_session _playersState _gameField].
  exists session, (scores_after playersState player m).
  split; [reflexivity|]. split; [reflexivity|]. split.
  { intros z. cbn. unfold _checkWin, win_threshold.
    rewrite bool_decide_eq_true. lia. }
  split.
  - intros Hwin. apply some_win_true in Hwin. rewrite Hwin.
    split; [reflexivity|]. intros a b ->. reflexivity.
  - intros Hnone.
    destruct (some_win (scores_after playersState player m) session) eqn:Hwin.
    + apply some_win_true in Hwin as (q & Hq & Hw).
      rewrite (Hnone q Hq) in Hw. discriminate.
    + split; [reflexivity|]. intros q win Hin.
      repeat (apply elem_of_cons in Hin as [Hin|Hin]; [discriminate|]).
      apply elem_of_nil in Hin. exact Hin.
Qed.

Lemma win_round_witness :
  live two_players
  ∧ _onPlayerMove two_players 1%nat (mkMove 0 0 0 0 "r" 9 225 225)
    = Ok (state_after two_players
            (_onPlayerMove two_players 1%nat (mkMove 0 0 0 0 "r" 9 225 225)),
          [(1%nat, gameResult true); (2%nat, gameResult false)])
  ∧ accepted (_onPlayerMove two_players 1%nat (mkMove 0 0 0 0 "r" 9 225 225))
    = true
  ∧ ∃ session scores,
      _session (state_after two_players
                  (_onPlayerMove two_players 1%nat (mkMove 0 0 0 0 "r" 9 225 225)))
      = Some session
      ∧ _playersState
          (state_after two_players
             (_onPlayerMove two_players 1%nat (mkMove 0 0 0 0 "r" 9 225 225)))
        = Some scores
      ∧ ((∃ q, q ∈ session ∧ number_wins (score_of scores q) = true) →
           [(1%nat, gameResult true); (2%nat, gameResult false)]
           = map (λ q, (q, gameResult (number_wins (score_of scores q)))) session).
Proof.
  assert (Hrun : _onPlayerMove two_players 1%nat (mkMove 0 0 0 0 "r" 9 225 225)
                 = Ok (state_after two_players
                         (_onPlayerMove two_players 1%nat
                            (mkMove 0 0 0 0 "r" 9 225 225)),
                       [(1%nat, gameResult true); (2%nat, gameResult false)]))
    by (vm_compute; reflexivity).
  assert (Hacc : accepted (_onPlayerMove two_players 1%nat
                             (mkMove 0 0 0 0 "r" 9 225 225)) = true)
    by (vm_compute; reflexivity).
  split; [exact two_players_live|]. split; [exact Hrun|]. split; [exact Hacc|].
  destruct (win_round two_players 1%nat (mkMove 0 0 0 0 "r" 9 225 225) _ _
              two_players_live Hrun)
    as (session & scores & Hs & Hp & _ & Hwin & _).
  - rewrite <- Hrun. exact Hacc.
  - exists session, scores. split; [exact Hs|]. split; [exact Hp|].
    intros Hq. apply Hwin, Hq.
Defined.

(** ** Error replies *)




(** ** The shape of the board *)

Lemma on_board_items (field : Field) :
  map_Forall (λ i (row : array cell),
                0 ≤ i < 30 ∧ map_Forall (λ j (_ : cell), 0 ≤ j < 30) (items row))
             (items field) →
  on_board field.
Proof.
  intros Hall i j c Hcell. unfold cell_at, get in Hcell.
  destruct (items field !! i) as [row|] eqn:Hrow; [|discriminate].
  injection Hcell as Hcell.
  destruct (Hall i row Hrow) as [Hi Hcols]. split; [exact Hi|].
  exact (Hcols j c Hcell).
Qed.

Lemma generateField_fresh : _generateField empty = Ok fresh_field.
Proof. vm_compute. reflexivity. Qed.

Lemma fresh_field_on_board : on_board fresh_field.
Proof.
  apply on_board_items. apply (bool_decide_unpack _). vm_compute. reflexivity.
Qed.

Lemma sendStartMessage_live (g : Game) (session : list WebSocket) :
  _session g = Some session →
  ∃ playersState sent,
    _sendStartMessage g
    = Ok ({| _session := Some session;
             _playersState := Some playersState;
             _gameField := fresh_field;
             _currentMove := session !! 0%nat;
             destroy_replaced := destroy_replaced g |}, sent)
    ∧ ∀ q, q ∈ session → playersState !! q = Some (Num 0).
Proof.
  intros Hsession. unfold _sendStartMessage.
  rewrite generateField_fresh, Hsession. cbn.
  set (step := λ '(playersState, promises, (myTurn, color)) player, _).
  assert (Hinv : ∀ l (acc : gmap WebSocket number * list Sent * (bool * string)) q,
             (q ∈ l ∨ acc.1.1 !! q = Some (Num 0)) →
             (foldl step acc l).1.1 !! q = Some (Num 0)).
  { induction l as [|p l IH]; intros acc q Hq; cbn [foldl].
    - destruct Hq as [Hq|Hq]; [apply elem_of_nil in Hq; contradiction | exact Hq].
    - apply IH. destruct acc as [[ps promises] [myTurn color]]. cbn in *.
      destruct (decide (p = q)) as [->|Hne].
      + right. apply lookup_insert_eq.
      + rewrite lookup_insert_ne by exact Hne.
        destruct Hq as [Hq|Hq]; [|auto].
        apply elem_of_cons in Hq as [->|Hq]; [contradiction | auto]. }
  pose proof (λ q Hq, Hinv session (∅, [], (true, "r"%string)) q (or_introl Hq))
    as Hzero.
  destruct (foldl step _ session) as [[ps promises] flags].
  exists ps, promises. split; [reflexivity | exact Hzero].
Qed.

Lemma started_spec (session : list WebSocket) :
  live (started session)
  ∧ _session (started session) = Some session
  ∧ on_board (_gameField (started session))
  ∧ ∀ q, q ∈ session →
         (_playersState (started session) ≫= (.!! q)) = Some (Num 0).
Proof.
  unfold started, new_Game.
  destruct (sendStartMessage_live (unstarted session) session eq_refl)
    as (playersState & sent & Hrun & Hzero).
  fold (unstarted session). rewrite Hrun. cbn.
  split; [split; eexists; reflexivity|]. split; [reflexivity|].
  split; [exact fresh_field_on_board | exact Hzero].
Qed.

Lemma valid_move_accepted (g : Game) (player : WebSocket) (m : PlayerState) :
  live g → _currentMove g = Some player → sum m = 0 →
  validation (_gameField g) m = Ok true →
  accepted (_onPlayerMove g player m) = true.
Proof.
  intros Hlive Hturn Hsum Hvalid.
  rewrite (onPlayerMove_checked _ _ _ Hturn Hsum), Hvalid.
  destruct (fill_after_validation _ _ Hvalid) as (field & -> & _). cbn.
  apply settle_accepted, Hlive.
Qed.

(** ** The first move *)

Lemma checkFirstMove_true (field : Field) (rowFrom colFrom rowTo colTo : Z)
    (dices : Z * Z) :
  on_board field →
  _checkFirstMove field rowFrom colFrom rowTo colTo dices = Ok true
  ↔ is_corner rowFrom colFrom
    ∧ reachable [rowFrom; colFrom] rowFrom colFrom (dices.1 + dices.2) rowTo colTo
    ∧ rect_unclaimed field rowFrom colFrom rowTo colTo.
Proof.
  intros Hboard. unfold _checkFirstMove, is_corner. split.
  - destruct (bool_decide_reflect (rowFrom > 0)) as [Hr0|Hr0];
      destruct (bool_decide_reflect (rowFrom < 29)) as [Hr29|Hr29];
      cbn [andb]; try discriminate;
      destruct (bool_decide_reflect (colFrom > 0)) as [Hc0|Hc0];
      destruct (bool_decide_reflect (colFrom < 29)) as [Hc29|Hc29];
      cbn [andb]; try discriminate;
      intros Hmove; apply makeMove_true in Hmove as [Hreach Hrect];
      (split; [|split; assumption]);
      (assert (Hrow : rowFrom = 0 ∨ rowFrom = 29)
         by (destruct Hreach as (s1 & s2 & p & Hsigns & _);
             unfold corner_signs in Hsigns; cbn in Hsigns;
             repeat case_bool_decide; simplify_eq; auto));
      (assert (Hcol : 0 ≤ colFrom < 30)
         by (apply (Hboard rowFrom colFrom default__cell), Hrect;
             unfold in_rect; lia));
      (split; [exact Hrow | lia]).
  - intros ([Hrow Hcol] & Hreach & Hrect).
    replace (bool_decide (rowFrom > 0) && bool_decide (rowFrom < 29)) with false
      by (symmetry; apply andb_false_iff;
          destruct Hrow as [->| ->]; [left|right];
          apply bool_decide_eq_false_2; lia).
    replace (bool_decide (colFrom > 0) && bool_decide (colFrom < 29)) with false
      by (symmetry; apply andb_false_iff;
          destruct Hcol as [->| ->]; [left|right];
          apply bool_decide_eq_false_2; lia).
    apply makeMove_true. auto.
Qed.

Lemma validation_first_move (field : Field) (m : PlayerState) :
  _isFieldEmpty field = Ok true →
  validation field m
  = _checkFirstMove field (row (from m)) (col (from m))
                    (row (to m)) (col (to m)) (dices m).
Proof. intros Hempty. unfold validation. rewrite Hempty. reflexivity. Qed.

(** C3 (amended). While the four corner cells are unclaimed, a move with
    [sum = 0] by the participant whose turn it is is accepted iff its
    [from] is one of the four grid corners, its [to] is reachable from it
    by a divisor-pair displacement of the dice sum in that corner's inward
    directions, and the rectangle between them is fully unclaimed; on a
    fresh game, [from = (0,0)], [to = (2,1)] with any dice of sum 6 is
    accepted, and [from = (1,0)], [to = (2,1)] is rejected whatever the
    dice. *)
Theorem first_move_accepted_iff (g : Game) (player : WebSocket) (m : PlayerState) :
  live g → on_board (_gameField g) → _currentMove g = Some player →
  _isFieldEmpty (_gameField g) = Ok true → sum m = 0 →
  (accepted (_onPlayerMove g player m) = true
   ↔ is_corner (row (from m)) (col (from m))
     ∧ reachable [row (from m); col (from m)] (row (from m)) (col (from m))
                 ((dices m).1 + (dices m).2) (row (to m)) (col (to m))
     ∧ rect_unclaimed (_gameField g) (row (from m)) (col (from m))
                      (row (to m)) (col (to m)))
  ∧ (∀ d0 d1, d0 + d1 = 6 →
       accepted (_onPlayerMove two_players 1%nat (mkMove 0 0 2 1 "r" 0 d0 d1))
       = true)
  ∧ (∀ d0 d1,
       rejected two_players 1%nat
         (_onPlayerMove two_players 1%nat (mkMove 1 0 2 1 "r" 0 d0 d1))).
Proof.
  intros Hlive Hboard Hturn Hempty Hsum.
  assert (Hturn2 : _currentMove two_players = Some 1%nat)
    by (vm_compute; reflexivity).
  assert (Hempty2 : _isFieldEmpty (_gameField two_players) = Ok true)
    by (vm_compute; reflexivity).
  split; [|split].
  - rewrite <- (checkFirstMove_true _ _ _ _ _ _ Hboard),
      <- (validation_first_move _ m Hempty).
    split.
    + intros Hacc. apply accepted_settled in Hacc as (_ & _ & _ & Hvalid); auto.
    + apply valid_move_accepted; assumption.
  - intros d0 d1 Hd.
    apply valid_move_accepted;
      [exact two_players_live | exact Hturn2 | reflexivity |].
    rewrite (validation_first_move _ _ Hempty2).
    apply checkFirstMove_true; [apply started_spec|].
    unfold mkMove. cbn [row col from to dices].
    split; [unfold is_corner; lia|]. split.
    + exists plus, plus, (2, 1). split; [reflexivity|]. split; [|reflexivity].
      exists 3. cbn [fst snd]. rewrite Hd. split; [lia|].
      split; [exists 2; reflexivity | reflexivity].
    + apply areCellsEmpty_true. vm_compute. reflexivity.
  - intros d0 d1. exists "wrong move"%string.
    rewrite (onPlayerMove_checked two_players 1%nat
               (mkMove 1 0 2 1 "r" 0 d0 d1) Hturn2 eq_refl).
    rewrite (validation_first_move _ _ Hempty2). reflexivity.
Qed.

Lemma first_move_accepted_iff_witness :
  live two_players
  ∧ on_board (_gameField two_players)
  ∧ _currentMove two_players = Some 1%nat
  ∧ _isFieldEmpty (_gameField two_players) = Ok true
  ∧ sum (mkMove 0 0 2 1 "r" 0 3 3) = 0
  ∧ (accepted (_onPlayerMove two_players 1%nat (mkMove 0 0 2 1 "r" 0 3 3)) = true
     ↔ is_corner 0 0
       ∧ reachable [0; 0] 0 0 (3 + 3) 2 1
       ∧ rect_unclaimed (_gameField two_players) 0 0 2 1).
Proof.
  assert (Hboard : on_board (_gameField two_players)) by apply started_spec.
  assert (Hturn : _currentMove two_players = Some 1%nat)
    by (vm_compute; reflexivity).
  assert (Hempty : _isFieldEmpty (_gameField two_players) = Ok true)
    by (vm_compute; reflexivity).
  split; [exact two_players_live|]. split; [exact Hboard|].
  split; [exact Hturn|]. split; [exact Hempty|]. split; [reflexivity|].
  destruct (first_move_accepted_iff two_players 1%nat (mkMove 0 0 2 1 "r" 0 3 3)
              two_players_live Hboard Hturn Hempty eq_refl) as (Hiff & _).
  exact Hiff.
Defined.

(** C3, as stated, fails in both directions on a fresh game: the move from
    the corner [(0,0)] to [(3,3)] with dice [3,3] covers an unclaimed
    rectangle and is not accepted, its target not being reachable under the
    dice sum; and the move from [(1,0)], not a corner, is accepted when its
    [sum] field is not [0]. *)
Lemma corner_and_unclaimed_do_not_decide :
  (is_corner 0 0
   ∧ rect_unclaimed (_gameField two_players) 0 0 3 3
   ∧ accepted (_onPlayerMove two_players 1%nat (mkMove 0 0 3 3 "r" 0 3 3)) = false)
  ∧ (¬ is_corner 1 0
     ∧ accepted (_onPlayerMove two_players 1%nat (mkMove 1 0 2 1 "r" 1 3 3)) = true).
Proof.
  split; split.
  - unfold is_corner. lia.
  - split; [apply areCellsEmpty_true|]; vm_compute; reflexivity.
  - unfold is_corner. lia.
  - vm_compute. reflexivity.
Qed.

(** ** What a sequence of moves preserves *)

Lemma onPlayerMove_preserves (g : Game) (player : WebSocket) (m : PlayerState)
    (session : list WebSocket) :
  live g → on_board (_gameField g) → _session g = Some session →
  live (state_after g (_onPlayerMove g player m))
  ∧ on_board (_gameField (state_after g (_onPlayerMove g player m)))
  ∧ _session (state_after g (_onPlayerMove g player m)) = Some session.
Proof.
  intros Hlive Hboard Hsession.
  destruct (Hlive) as [_ [playersState Hps]].
  destruct (decide (_currentMove g = Some player)) as [Hturn|Hturn];
    [|rewrite onPlayerMove_out_of_turn by exact Hturn; cbn; auto].
  destruct (decide (sum m = 0)) as [Hsum|Hsum].
  - rewrite (onPlayerMove_checked _ _ _ Hturn Hsum).
    destruct (validation (_gameField g) m) as [[|]|] eqn:Hvalid; cbn; auto.
    destruct (fill_after_validation _ _ Hvalid) as (field & -> & Hcells). cbn.
    rewrite (settle_live _ _ _ _ _ _ Hps Hsession). cbn.
    split; [split; eexists; reflexivity|]. split; [|reflexivity].
    intros i j c Hc. rewrite Hcells in Hc.
    apply validation_true in Hvalid as (_ & _ & _ & Hrect).
    case_decide as Hin; [|apply (Hboard i j c Hc)].
    apply (Hboard i j default__cell), Hrect, Hin.
  - rewrite (onPlayerMove_unchecked _ _ _ Hturn Hsum).
    rewrite (settle_live _ _ _ _ _ _ Hps Hsession). cbn.
    split; [split; eexists; reflexivity|]. auto.
Qed.

Lemma play_preserves (moves : list (WebSocket * PlayerState)) (g : Game)
    (session : list WebSocket) :
  live g → on_board (_gameField g) → _session g = Some session →
  live (play g moves) ∧ on_board (_gameField (play g moves))
  ∧ _session (play g moves) = Some session.
Proof.
  revert g. induction moves as [|[p m] moves IH]; intros g Hlive Hboard Hsession.
  - cbn. auto.
  - cbn [play].
    destruct (onPlayerMove_preserves g p m session Hlive Hboard Hsession)
      as (Hlive' & Hboard' & Hsession').
    apply IH; assumption.
Qed.

(** ** Scores *)

Lemma onPlayerMove_score (g : Game) (p player : WebSocket) (m : PlayerState)
    (z : Z) :
  live g → (_playersState g ≫= (.!! player)) = Some (Num z) →
  live (state_after g (_onPlayerMove g p m))
  ∧ (_playersState (state_after g (_onPlayerMove g p m)) ≫= (.!! player))
    = Some (Num (z + if accepted (_onPlayerMove g p m) && bool_decide (p = player)
                     then dice_total m else 0)).
Proof.
  intros Hlive Hscore.
  destruct (onPlayerMove_outcome g p m Hlive)
    as [[text ->]|[(-> & _)|(_ & field & -> & _)]].
  - cbn. rewrite Z.add_0_r. auto.
  - cbn. rewrite Z.add_0_r. auto.
  - rewrite (settle_accepted _ _ _ _ Hlive).
    destruct Hlive as [[session Hsession] [playersState Hps]].
    rewrite (settle_live _ _ _ _ _ _ Hps Hsession). cbn.
    split; [split; eexists; reflexivity|].
    rewrite Hps in Hscore. cbn in Hscore. unfold scores_after.
    destruct (bool_decide_reflect (p = player)) as [->|Hne].
    + rewrite lookup_insert_eq. unfold score_of, dice_total. rewrite Hscore.
      cbn. rewrite Z.add_assoc. reflexivity.
    + rewrite lookup_insert_ne by exact Hne. rewrite Z.add_0_r. exact Hscore.
Qed.

Lemma play_score (moves : list (WebSocket * PlayerState)) (g : Game)
    (player : WebSocket) (z : Z) :
  live g → (_playersState g ≫= (.!! player)) = Some (Num z) →
  (_playersState (play g moves) ≫= (.!! player))
  = Some (Num (z + sum_of (dice_total <$> accepted_moves g player moves))).
Proof.
  revert g z. induction moves as [|[p m] moves IH]; intros g z Hlive Hscore.
  - cbn. rewrite Z.add_0_r. exact Hscore.
  - cbn [play accepted_moves].
    destruct (onPlayerMove_score g p player m z Hlive Hscore) as [Hlive' Hscore'].
    rewrite (IH _ _ Hlive' Hscore'). do 2 f_equal. rewrite fmap_app.
    unfold sum_of at 2. rewrite foldr_app. fold (sum_of (dice_total <$>
      accepted_moves (state_after g (_onPlayerMove g p m)) player moves)).
    destruct (accepted (_onPlayerMove g p m) && bool_decide (p = player)); cbn; lia.
Qed.

(** ** [destroy] *)

Lemma destroy_loop (session : list WebSocket)
    (readyState : WebSocket → ReadyState) (sent : list Sent) :
  ∃ readyState' extra,
    foldl (λ '(readyState, sent) player,
             if bool_decide (readyState player ≠ CLOSED)
                && bool_decide (readyState player ≠ CLOSING)
             then (<[player := CLOSING]> readyState,
                   sent ++ [(player, gameAborted)])
             else (readyState, sent))
          (readyState, sent) session
    = (readyState', sent ++ extra)
    ∧ NoDup extra
    ∧ (∀ s, s ∈ extra →
            s.2 = gameAborted ∧ s.1 ∈ session ∧ still_open (readyState s.1))
    ∧ (∀ q, q ∈ session → still_open (readyState q) → (q, gameAborted) ∈ extra).
Proof.
  revert readyState sent.
  induction session as [|p session IH]; intros readyState sent.
  - exists readyState, []. rewrite app_nil_r. split; [reflexivity|].
    split; [constructor|].
    split; intros ? Hin; apply elem_of_nil in Hin; contradiction.
  - cbn [foldl].
    destruct (decide (still_open (readyState p))) as [Hopen|Hdone].
    + rewrite (bool_decide_eq_true_2 _ (proj1 Hopen)),
        (bool_decide_eq_true_2 _ (proj2 Hopen)). cbn [andb].
      destruct (IH (<[p := CLOSING]> readyState) (sent ++ [(p, gameAborted)]))
        as (readyState' & extra & Hrun & Hnodup & Hsound & Hcomplete).
      assert (Hother : ∀ s, s ∈ extra → s.1 ≠ p).
      { intros s Hs Heq. destruct (Hsound s Hs) as (_ & _ & _ & Hclosing).
        rewrite Heq, fn_lookup_insert in Hclosing. contradiction. }
      exists readyState', ((p, gameAborted) :: extra).
      split; [rewrite Hrun, <- app_assoc; reflexivity|]. split.
      { constructor; [|exact Hnodup]. intros Hp. apply (Hother _ Hp). reflexivity. }
      split.
      * intros s Hs. apply elem_of_cons in Hs as [->|Hs].
        -- cbn. split; [reflexivity|]. split; [left | exact Hopen].
        -- destruct (Hsound s Hs) as (Hmsg & Hin & Hopen').
           split; [exact Hmsg|]. split; [right; exact Hin|].
           rewrite fn_lookup_insert_ne in Hopen'; [exact Hopen'|].
           intros Heq. apply (Hother s Hs). congruence.
      * intros q Hq Hopen'. destruct (decide (q = p)) as [->|Hne]; [left|].
        right. apply Hcomplete.
        -- apply elem_of_cons in Hq as [?|?]; [contradiction | assumption].
        -- rewrite fn_lookup_insert_ne by congruence. exact Hopen'.
    + replace (bool_decide (readyState p ≠ CLOSED)
               && bool_decide (readyState p ≠ CLOSING)) with false.
      2:{ symmetry. apply andb_false_iff. unfold still_open in Hdone.
          destruct (bool_decide_reflect (readyState p ≠ CLOSED)); [|auto].
          destruct (bool_decide_reflect (readyState p ≠ CLOSING)); [|auto].
          tauto. }
      destruct (IH readyState sent)
        as (readyState' & extra & Hrun & Hnodup & Hsound & Hcomplete).
      exists readyState', extra. split; [exact Hrun|]. split; [exact Hnodup|].
      split.
      * intros s Hs. destruct (Hsound s Hs) as (Hmsg & Hin & Hopen).
        split; [exact Hmsg|]. split; [right; exact Hin | exact Hopen].
      * intros q Hq Hopen. apply Hcomplete; [|exact Hopen].
        apply elem_of_cons in Hq as [->|?]; [contradiction | assumption].
Qed.

(** C8. The first [destroy] of a game returns without an exception and
    sends one [gameAborted] to each participant whose socket is neither
    closed nor closing, and nothing else, no participant being notified
    twice; every later invocation, whether the direct call or the one of a
    connection's close listener, and whatever the sockets' states by then,
    returns without an exception, sends nothing and changes nothing. *)
Theorem destroy_idempotent (g : Game) (readyState : WebSocket → ReadyState)
    (session : list WebSocket) :
  _session g = Some session → destroy_replaced g = false →
  ∃ g1 readyState1 sent1,
    destroy g readyState = Ok (g1, readyState1, sent1)
    ∧ NoDup sent1
    ∧ (∀ s, s ∈ sent1 →
            s.2 = gameAborted ∧ s.1 ∈ session ∧ still_open (readyState s.1))
    ∧ (∀ q, q ∈ session → still_open (readyState q) → (q, gameAborted) ∈ sent1)
    ∧ on_close g readyState = Ok (g1, readyState1, sent1)
    ∧ (∀ rs, destroy g1 rs = Ok (g1, rs, []))
    ∧ (∀ rs, on_close g1 rs = Ok (g1, rs, []))
    ∧ (∀ rs g2 rs2 sent2, on_close g1 rs = Ok (g2, rs2, sent2) →
                          destroy g2 rs2 = Ok (g2, rs2, [])).
Proof.
  intros Hsession Hfresh. unfold on_close, destroy at 1 2.
  rewrite Hfresh, Hsession.
  destruct (destroy_loop session readyState [])
    as (readyState1 & sent1 & Hrun & Hnodup & Hsound & Hcomplete).
  rewrite Hrun. cbn [app].
  eexists _, readyState1, sent1. split; [reflexivity|].
  split; [exact Hnodup|]. split; [exact Hsound|]. split; [exact Hcomplete|].
  split; [reflexivity|]. split; [reflexivity|]. split; [reflexivity|].
  intros rs g2 rs2 sent2 [= <- <- <-]. reflexivity.
Qed.

Lemma destroy_idempotent_witness :
  _session two_players = Some [1%nat; 2%nat]
  ∧ destroy_replaced two_players = false
  ∧ ∃ g1 readyState1 sent1,
      destroy two_players (λ q, if decide (q = 1%nat) then CLOSED else OPEN)
      = Ok (g1, readyState1, sent1)
      ∧ (∀ s, s ∈ sent1 → s.2 = gameAborted ∧ s.1 ∈ [1%nat; 2%nat])
      ∧ (2%nat, gameAborted) ∈ sent1
      ∧ ∀ rs, destroy g1 rs = Ok (g1, rs, []).
Proof.
  assert (Hsession : _session two_players = Some [1%nat; 2%nat])
    by (vm_compute; reflexivity).
  assert (Hfresh : destroy_replaced two_players = false)
    by (vm_compute; reflexivity).
  split; [exact Hsession|]. split; [exact Hfresh|].
  destruct (destroy_idempotent two_players
              (λ q, if decide (q = 1%nat) then CLOSED else OPEN)
              [1%nat; 2%nat] Hsession Hfresh)
    as (g1 & rs1 & sent1 & Hrun & _ & Hsound & Hcomplete & _ & Hagain & _).
  exists g1, rs1, sent1. split; [exact Hrun|]. split.
  - intros s Hs. destruct (Hsound s Hs) as (Hm & Hin & _). auto.
  - split; [|exact Hagain]. apply Hcomplete; [right; left|].
    split; discriminate.
Defined.

(** ** Targets outside the grid *)

(** C10 fails on the code.  After the four accepted moves of [edge_run]
    it is the first participant's turn; the move from the frontier cell
    [(24,0)] with dice [6,6] has the target [(35,0)], which passes the
    reachability test of [_makeMove]; the emptiness scan that follows
    finds rows 24 to 29 unclaimed and then indexes row 30, which does not
    exist, so [_areCellsEmpty], and with it the handler, ends in a
    [TypeError]. *)
Theorem reachable_target_off_the_board :
  List.length (accepted_moves two_players 1%nat edge_run) = 2%nat
  ∧ List.length (accepted_moves two_players 2%nat edge_run) = 2%nat
  ∧ _currentMove (play two_players edge_run) = Some 1%nat
  ∧ reachable [0; 0] 24 0 (6 + 6) 35 0
  ∧ _checkTo (_showMoves (_factorization (6 + 6)) plus plus 24 0) 35 0 = true
  ∧ ¬ (0 ≤ 35 < 30)
  ∧ _areCellsEmpty (_gameField (play two_players edge_run)) 24 0 29 0 = Ok true
  ∧ get (_gameField (play two_players edge_run)) 30 = None
  ∧ _areCellsEmpty (_gameField (play two_players edge_run)) 24 0 35 0 = TypeError
  ∧ _onPlayerMove (play two_players edge_run) 1%nat overshoot = TypeError.
Proof.
  split; [vm_compute; reflexivity|]. split; [vm_compute; reflexivity|].
  split; [vm_compute; reflexivity|]. split.
  { exists plus, plus, (11, 0). split; [reflexivity|]. split; [|reflexivity].
    exists 12. split; [lia|]. split; [exists 1; reflexivity | reflexivity]. }
  split; [vm_compute; reflexivity|]. split; [lia|].
  repeat split; vm_compute; reflexivity.
Qed.

(** * Further properties *)

(** ** The grid *)

Lemma grid_cell_inv (field : Field) (i j : Z) (c : cell) :
  grid field → cell_at field i j = Ok (Some c) → 0 ≤ i < 30 ∧ 0 ≤ j < 30.
Proof.
  intros Hgrid Hcell. specialize (Hgrid i j).
  destruct (decide (0 ≤ i < 30)); [|congruence].
  destruct (decide (0 ≤ j < 30)); [auto | congruence].
Qed.

Lemma grid_on_board (field : Field) : grid field → on_board field.
Proof. intros Hgrid i j c. apply grid_cell_inv, Hgrid. Qed.

Lemma grid_row (field : Field) (i : Z) :
  grid field → is_Some (get field i) ↔ 0 ≤ i < 30.
Proof.
  intros Hgrid. specialize (Hgrid i 0). unfold cell_at in Hgrid.
  destruct (decide (0 ≤ i < 30)) as [Hi|Hi].
  - rewrite decide_True in Hgrid by lia. destruct Hgrid as [c Hc].
    destruct (get field i); [|discriminate]. split; [auto | eexists; reflexivity].
  - destruct (get field i); [discriminate|]. split; [intros [? [=]] | contradiction].
Qed.

Lemma grid_cell (field : Field) (i j : Z) :
  grid field → 0 ≤ i < 30 →
  ∃ oc, cell_at field i j = Ok oc ∧ (is_Some oc ↔ 0 ≤ j < 30).
Proof.
  intros Hgrid Hi. specialize (Hgrid i j). rewrite decide_True in Hgrid by exact Hi.
  destruct (decide (0 ≤ j < 30)) as [Hj|Hj].
  - destruct Hgrid as [c Hc]. exists (Some c). split; [exact Hc|].
    split; [auto | eexists; reflexivity].
  - exists None. split; [exact Hgrid|]. split; [intros [? [=]] | contradiction].
Qed.

Lemma is_default_at_true (field : Field) (i j : Z) :
  is_default_at field i j = true ↔ cell_at field i j = Ok (Some default__cell).
Proof.
  unfold is_default_at. destruct (cell_at field i j) as [[[| |]|]|];
    split; congruence.
Qed.

Lemma fresh_field_default (i j : Z) :
  0 ≤ i < 30 → 0 ≤ j < 30 → cell_at fresh_field i j = Ok (Some default__cell).
Proof.
  intros Hi Hj. apply is_default_at_true.
  assert (Hall : forallb (λ i, forallb (λ j, is_default_at fresh_field i j)
                                       (seqZ 0 30)) (seqZ 0 30) = true)
    by (vm_compute; reflexivity).
  rewrite forallb_forall in Hall.
  specialize (Hall i). rewrite forallb_forall in Hall.
  apply Hall; apply list_elem_of_In, elem_of_seqZ; lia.
Qed.

Lemma fresh_field_rows (i : Z) : is_Some (get fresh_field i) → 0 ≤ i < 30.
Proof.
  assert (Hall : map_Forall (λ i (_ : array cell), 0 ≤ i < 30) (items fresh_field))
    by (apply (bool_decide_unpack _); vm_compute; reflexivity).
  intros [row Hrow]. exact (Hall i row Hrow).
Qed.

Lemma fresh_field_lengths :
  length fresh_field = 30
  ∧ ∀ i row, get fresh_field i = Some row → length row = 30.
Proof.
  split; [vm_compute; reflexivity|].
  assert (Hall : map_Forall (λ (_ : Z) (row : array cell), length row = 30)
                            (items fresh_field))
    by (apply (bool_decide_unpack _); vm_compute; reflexivity).
  intros i row Hrow. exact (Hall i row Hrow).
Qed.

Lemma grid_intro (field : Field) :
  (∀ i j, 0 ≤ i < 30 → 0 ≤ j < 30 → ∃ c, cell_at field i j = Ok (Some c)) →
  on_board field → (∀ i, is_Some (get field i) → 0 ≤ i < 30) →
  grid field.
Proof.
  intros Hcells Hboard Hrows i j. destruct (decide (0 ≤ i < 30)) as [Hi|Hi].
  - destruct (decide (0 ≤ j < 30)) as [Hj|Hj]; [apply Hcells; assumption|].
    destruct (Hcells i 0 Hi ltac:(lia)) as [c0 Hrow].
    destruct (cell_at field i j) as [[c|]|] eqn:Hc.
    + exfalso. apply Hj. apply (Hboard i j c Hc).
    + reflexivity.
    + unfold cell_at in Hrow, Hc. destruct (get field i); discriminate.
  - unfold cell_at. destruct (get field i) as [row|] eqn:Hrow; [|reflexivity].
    exfalso. apply Hi, Hrows. rewrite Hrow. eexists; reflexivity.
Qed.

Lemma fresh_field_grid : grid fresh_field.
Proof.
  apply grid_intro.
  - intros i j Hi Hj. exists default__cell. apply fresh_field_default; assumption.
  - exact fresh_field_on_board.
  - exact fresh_field_rows.
Qed.

(** X1. [_generateField], run on the empty array, returns without an
    exception the 30x30 board: thirty rows of length thirty, every cell of
    rows and columns [0..29] unclaimed, no column beyond them in a row
    (reading one gives [undefined]) and no row beyond them (indexing one
    throws). *)
Theorem generateField_grid :
  _generateField empty = Ok fresh_field
  ∧ grid fresh_field
  ∧ (∀ i j, 0 ≤ i < 30 → 0 ≤ j < 30 →
            cell_at fresh_field i j = Ok (Some default__cell))
  ∧ length fresh_field = 30
  ∧ (∀ i row, get fresh_field i = Some row → length row = 30).
Proof.
  split; [exact generateField_fresh|]. split; [exact fresh_field_grid|].
  split; [exact fresh_field_default | exact fresh_field_lengths].
Qed.

Lemma generateField_grid_witness :
  0 ≤ 29 < 30 ∧ 0 ≤ 0 < 30
  ∧ cell_at fresh_field 29 0 = Ok (Some default__cell).
Proof.
  split; [lia|]. split; [lia|].
  destruct generateField_grid as (_ & _ & Hcells & _).
  apply Hcells; lia.
Defined.

Lemma fill_grid (f f' : Field) (rowFrom colFrom rowTo colTo : Z) (t : cell) :
  grid f → rect_unclaimed f rowFrom colFrom rowTo colTo →
  (∀ i j, cell_at f' i j
          = if decide (in_rect rowFrom colFrom rowTo colTo i j)
            then Ok (Some t) else cell_at f i j) →
  grid f'.
Proof.
  intros Hgrid Hrect Hcells i j. rewrite Hcells.
  destruct (decide (in_rect rowFrom colFrom rowTo colTo i j)) as [Hin|Hout];
    [|apply Hgrid].
  destruct (grid_cell_inv f i j default__cell Hgrid (Hrect i j Hin)) as [Hi Hj].
  rewrite !decide_True by assumption. eexists; reflexivity.
Qed.

(** ** Starting and restarting *)

Lemma sendStartMessage_spec (g : Game) (session : list WebSocket) :
  _session g = Some session →
  ∃ playersState,
    _sendStartMessage g
    = Ok ({| _session := Some session;
             _playersState := Some playersState;
             _gameField := fresh_field;
             _currentMove := session !! 0%nat;
             destroy_replaced := destroy_replaced g |},
          start_messages session)
    ∧ ∀ q, playersState !! q
           = if decide (q ∈ session) then Some (Num 0) else None.
Proof.
  intros Hsession. unfold _sendStartMessage.
  rewrite generateField_fresh, Hsession. cbn.
  set (step := λ '(playersState, promises, (myTurn, color)) player, _).
  assert (Hrest : ∀ l (ps : gmap WebSocket number) (promises : list Sent),
             ∃ ps',
               foldl step (ps, promises, (false, "b"%string)) l
               = (ps',
                  promises ++ map (λ q, (q, gameStarted false fresh_field "b" 0)) l,
                  (false, "b"%string))
               ∧ ∀ q, ps' !! q = if decide (q ∈ l) then Some (Num 0) else ps !! q).
  { induction l as [|p l IH]; intros ps promises.
    - exists ps. cbn. rewrite app_nil_r. split; [reflexivity|]. intros q.
      rewrite decide_False; [reflexivity|]. apply not_elem_of_nil.
    - cbn [foldl]. unfold step at 2.
      destruct (IH (<[p := Num 0]> ps)
                   (promises ++ [(p, gameStarted false fresh_field "b" 0)]))
        as (ps' & Hrun & Hlook).
      exists ps'. split.
      + rewrite Hrun. cbn [map]. rewrite <- app_assoc. reflexivity.
      + intros q. rewrite Hlook. destruct (decide (q ∈ l)) as [Hin|Hout].
        * rewrite decide_True by (right; exact Hin). reflexivity.
        * destruct (decide (q = p)) as [->|Hne].
          -- rewrite decide_True by left. apply lookup_insert_eq.
          -- rewrite decide_False by (rewrite elem_of_cons; tauto).
             apply lookup_insert_ne. congruence. }
  destruct session as [|first others].
  - exists ∅. split; [reflexivity|]. intros q. rewrite lookup_empty.
    rewrite decide_False; [reflexivity|]. apply not_elem_of_nil.
  - cbn [foldl]. unfold step at 2.
    destruct (Hrest others (<[first := Num 0]> ∅)
                ([] ++ [(first, gameStarted true fresh_field "r" 0)]))
      as (ps' & Hrun & Hlook).
    rewrite Hrun. exists ps'. split; [reflexivity|]. intros q. rewrite Hlook.
    destruct (decide (q ∈ others)) as [Hin|Hout].
    + rewrite decide_True by (right; exact Hin). reflexivity.
    + destruct (decide (q = first)) as [->|Hne].
      * rewrite decide_True by left. apply lookup_insert_eq.
      * rewrite decide_False by (rewrite elem_of_cons; tauto).
        rewrite lookup_insert_ne by congruence. apply lookup_empty.
Qed.

(** X2. Creating a game for a session never throws; it leaves the fresh
    30x30 board, a score of 0 for exactly the members of the session, the
    turn with the first seat, and it sends one [gameStarted] per seat, in
    order, each with the fresh board and [sum = 0]: the first seat is told
    colour ['r'] and [myTurn], every later seat colour ['b'] and not
    [myTurn]. *)
Theorem new_Game_starts (session : list WebSocket) :
  ∃ playersState,
    new_Game session
    = Ok ({| _session := Some session;
             _playersState := Some playersState;
             _gameField := fresh_field;
             _currentMove := session !! 0%nat;
             destroy_replaced := false |},
          start_messages session)
    ∧ (∀ q, playersState !! q
            = if decide (q ∈ session) then Some (Num 0) else None)
    ∧ (∀ a b, session = [a; b] →
              start_messages session
              = [(a, gameStarted true fresh_field "r" 0);
                 (b, gameStarted false fresh_field "b" 0)]).
Proof.
  destruct (sendStartMessage_spec (unstarted session) session eq_refl)
    as (playersState & Hrun & Hlook).
  exists playersState. split; [exact Hrun|]. split; [exact Hlook|].
  intros a b ->. reflexivity.
Qed.

Lemma new_Game_starts_witness :
  [7%nat; 4%nat] = [7%nat; 4%nat]
  ∧ start_messages [7%nat; 4%nat]
    = [(7%nat, gameStarted true fresh_field "r" 0);
       (4%nat, gameStarted false fresh_field "b" 0)].
Proof.
  split; [reflexivity|].
  destruct (new_Game_starts [7%nat; 4%nat]) as (ps & _ & _ & Hpair).
  apply Hpair. reflexivity.
Defined.

(** ** What every sequence of messages preserves *)

Lemma next_mover_in (session : list WebSocket) (player : WebSocket) :
  player ∈ session → next_mover session player ∈ session.
Proof.
  intros Hin. unfold next_mover.
  assert (Hgen : ∀ l q, l ⊆ session → q ∈ session →
             foldl (λ player2 p, if bool_decide (p ≠ player) then p else player2)
                   q l ∈ session).
  { induction l as [|p l IH]; intros q Hsub Hq; [exact Hq|].
    cbn [foldl]. apply IH.
    - intros x Hx. apply Hsub. right. exact Hx.
    - destruct (bool_decide (p ≠ player)); [apply Hsub; left | exact Hq]. }
  apply Hgen; [reflexivity | exact Hin].
Qed.

Lemma in_session_live (session : list WebSocket) (g : Game) :
  in_session session g → live g.
Proof.
  intros (Hsession & _ & _ & _ & ps & Hps & _).
  split; eexists; eassumption.
Qed.

Lemma settle_in_session (session : list WebSocket) (g : Game) (field : Field)
    (player : WebSocket) (m : PlayerState) :
  in_session session g → _currentMove g = Some player → grid field →
  in_session session (state_after g (settle g field player m)).
Proof.
  intros (Hsession & Hfresh & _ & Hturn & ps & Hps & Hscores) Hcur Hgrid.
  rewrite (settle_live _ _ _ _ _ _ Hps Hsession). cbn.
  split; [reflexivity|]. split; [exact Hfresh|]. split; [exact Hgrid|]. split.
  - intros q [= <-]. apply next_mover_in, Hturn, Hcur.
  - eexists. split; [reflexivity|]. intros q Hq. unfold scores_after.
    destruct (decide (player = q)) as [->|Hne].
    + rewrite lookup_insert_eq. eexists; reflexivity.
    + rewrite lookup_insert_ne by exact Hne. apply Hscores, Hq.
Qed.

Lemma settle_NaN_live (g : Game) (gameField : Field) (currentPlayer : WebSocket)
    (m : PlayerState) (playersState : gmap WebSocket number)
    (session : list WebSocket) :
  _playersState g = Some playersState → _session g = Some session →
  settle_NaN g gameField currentPlayer m
  = Ok ({| _session := Some session;
           _playersState := Some (<[currentPlayer := NaN]> playersState);
           _gameField := gameField;
           _currentMove := Some (next_mover session currentPlayer);
           destroy_replaced := destroy_replaced g |},
        if some_win (<[currentPlayer := NaN]> playersState) session
        then map (λ player, (player, gameResult
                    (number_wins
                       (score_of (<[currentPlayer := NaN]> playersState) player))))
                 session
        else [(next_mover session currentPlayer,
               changePlayer true gameField
                 (if bool_decide (color m = "r"%string) then "b" else "r")%string);
              (currentPlayer, changePlayer false gameField (color m))]).
Proof.
  intros Hps Hsession. unfold settle_NaN. rewrite Hps, Hsession. cbv zeta.
  rewrite settle_fold.
  destruct (some_win _ session); reflexivity.
Qed.

Lemma settle_NaN_in_session (session : list WebSocket) (g : Game) (field : Field)
    (player : WebSocket) (m : PlayerState) :
  in_session session g → _currentMove g = Some player → grid field →
  in_session session (state_after g (settle_NaN g field player m)).
Proof.
  intros (Hsession & Hfresh & _ & Hturn & ps & Hps & Hscores) Hcur Hgrid.
  rewrite (settle_NaN_live _ _ _ _ _ _ Hps Hsession). cbn.
  split; [reflexivity|]. split; [exact Hfresh|]. split; [exact Hgrid|]. split.
  - intros q [= <-]. apply next_mover_in, Hturn, Hcur.
  - eexists. split; [reflexivity|]. intros q Hq.
    destruct (decide (player = q)) as [->|Hne].
    + rewrite lookup_insert_eq. eexists; reflexivity.
    + rewrite lookup_insert_ne by exact Hne. apply Hscores, Hq.
Qed.

(** The board the checks hand on is the 30x30 grid again. *)
Lemma checked_field_grid (f f' : Field) (m : PlayerState) :
  grid f → checked_field f m = Ok (Some f') → grid f'.
Proof.
  intros Hgrid. destruct (decide (sum m = 0)) as [Hsum|Hsum].
  - rewrite checked_field_validation by exact Hsum.
    destruct (validation f m) as [[|]|] eqn:Hvalid; cbn; try discriminate.
    destruct (fill_after_validation _ _ Hvalid) as (field & -> & Hcells). cbn.
    intros [= <-].
    apply validation_true in Hvalid as (_ & _ & _ & Hrect).
    eapply fill_grid; eassumption.
  - unfold checked_field. cbv zeta.
    rewrite bool_decide_eq_false_2 by exact Hsum. intros [= <-]. exact Hgrid.
Qed.

(** Without [from] or [to] the guarded block never hands a board on. *)
Lemma checked_field_without_cells_throws (f : Field) (m : PlayerState) :
  checked_field_without_cells f m
  = if bool_decide (sum m = 0) then TypeError else Ok (Some f).
Proof.
  unfold checked_field_without_cells. cbv zeta.
  destruct (bool_decide (sum m = 0)); [|reflexivity].
  destruct (_isFieldEmpty f) as [[|]|]; cbn; try reflexivity.
  destruct (_isCornerEmpty f) as [[|]|]; cbn; try reflexivity.
  - destruct (_findFirstMove f); reflexivity.
  - destruct (_findCurrentMove f (color m)); reflexivity.
Qed.

Lemma onPlayerMove_lacking_in_session (session : list WebSocket) (g : Game)
    (player : WebSocket) (missing : Missing) (m : PlayerState) :
  in_session session g →
  in_session session (state_after g (_onPlayerMove_lacking g player missing m)).
Proof.
  intros Hin. pose proof Hin as (_ & _ & Hgrid & _). unfold _onPlayerMove_lacking.
  destruct (bool_decide_reflect (_currentMove g ≠ Some player)) as [Hturn|Hturn];
    [exact Hin|].
  assert (Hcur : _currentMove g = Some player)
    by (destruct (decide (_currentMove g = Some player)); [assumption|contradiction]).
  destruct missing.
  - exact Hin.
  - rewrite checked_field_without_cells_throws.
    destruct (bool_decide (sum m = 0)); cbn; [exact Hin|].
    apply settle_in_session; assumption.
  - destruct (checked_field (_gameField g) (without_dice m))
      as [[field|]|] eqn:Hchecked; cbn; [|exact Hin|exact Hin].
    apply settle_NaN_in_session; [exact Hin | exact Hcur|].
    eapply checked_field_grid; eassumption.
Qed.

Lemma onPlayerMove_in_session (session : list WebSocket) (g : Game)
    (player : WebSocket) (m : PlayerState) :
  in_session session g →
  in_session session (state_after g (_onPlayerMove g player m)).
Proof.
  intros Hin. pose proof Hin as (_ & _ & Hgrid & _).
  destruct (decide (_currentMove g = Some player)) as [Hturn|Hturn];
    [|rewrite onPlayerMove_out_of_turn by exact Hturn; exact Hin].
  destruct (decide (sum m = 0)) as [Hsum|Hsum].
  - rewrite (onPlayerMove_checked _ _ _ Hturn Hsum).
    destruct (validation (_gameField g) m) as [[|]|] eqn:Hvalid;
      [|exact Hin|exact Hin].
    destruct (fill_after_validation _ _ Hvalid) as (field & -> & Hcells). cbn.
    apply settle_in_session; [exact Hin | exact Hturn|].
    apply validation_true in Hvalid as (_ & _ & _ & Hrect).
    eapply fill_grid; eassumption.
  - rewrite (onPlayerMove_unchecked _ _ _ Hturn Hsum).
    apply settle_in_session; assumption.
Qed.

Lemma sendStartMessage_in_session (session : list WebSocket) (g : Game) :
  _session g = Some session → destroy_replaced g = false →
  in_session session (state_after g (_sendStartMessage g)).
Proof.
  intros Hsession Hfresh.
  destruct (sendStartMessage_spec g session Hsession) as (ps & -> & Hlook). cbn.
  split; [reflexivity|]. split; [exact Hfresh|]. split; [exact fresh_field_grid|].
  split.
  - intros q Hq. apply list_elem_of_lookup. exists 0%nat. exact Hq.
  - exists ps. split; [reflexivity|]. intros q Hq. exists (Num 0).
    rewrite Hlook, decide_True by exact Hq. reflexivity.
Qed.

Lemma on_message_in_session (session : list WebSocket) (g : Game)
    (player : WebSocket) (data : Payload) :
  in_session session g →
  in_session session (state_after g (on_message g player data)).
Proof.
  intros Hin. unfold on_message.
  destruct (_parseMessage data) as [m| |text|text|type|missing m|];
    cbn [_processMessage]; try exact Hin.
  - apply onPlayerMove_in_session, Hin.
  - destruct Hin as (Hsession & Hfresh & _).
    apply sendStartMessage_in_session; assumption.
  - apply onPlayerMove_lacking_in_session, Hin.
Qed.

Lemma run_in_session (session : list WebSocket)
    (events : list (WebSocket * Payload)) (g : Game) :
  in_session session g → in_session session (run g events).
Proof.
  revert g. induction events as [|[player data] events IH]; intros g Hin;
    [exact Hin|].
  cbn [run]. apply IH, on_message_in_session, Hin.
Qed.

Lemma started_in_session (session : list WebSocket) :
  in_session session (started session).
Proof.
  unfold started, new_Game. fold (unstarted session).
  apply sendStartMessage_in_session; reflexivity.
Qed.

(** X4. A [repeatGame] from any connection, at any point of a game and
    whoever's turn it is, does exactly what the creation of the game did:
    it returns the same game (fresh board, scores 0, turn with the first
    seat) and sends the same start messages. *)
Theorem restart_is_creation (session : list WebSocket)
    (events : list (WebSocket * Payload)) (player : WebSocket) :
  on_message (run (started session) events) player (json repeatGame)
  = new_Game session
  ∧ state_after (run (started session) events)
      (on_message (run (started session) events) player (json repeatGame))
    = started session
  ∧ sent_by (on_message (run (started session) events) player (json repeatGame))
    = start_messages session.
Proof.
  pose proof (run_in_session session events _ (started_in_session session))
    as (Hsession & Hfresh & _).
  assert (Hsame : on_message (run (started session) events) player (json repeatGame)
                  = new_Game session).
  { unfold on_message, new_Game. cbn [_parseMessage _processMessage].
    unfold _sendStartMessage. rewrite Hsession, Hfresh. reflexivity. }
  split; [exact Hsame|]. rewrite Hsame. unfold started.
  destruct (sendStartMessage_spec (unstarted session) session eq_refl)
    as (ps & Hrun & _).
  unfold new_Game. fold (unstarted session). rewrite Hrun. cbn.
  split; reflexivity.
Qed.

(** ** Claimed cells *)

Lemma onPlayerMove_keeps_claimed (g : Game) (player : WebSocket)
    (m : PlayerState) (i j : Z) (c : cell) :
  live g → c ≠ default__cell →
  cell_at (_gameField g) i j = Ok (Some c) →
  cell_at (_gameField (state_after g (_onPlayerMove g player m))) i j
  = Ok (Some c).
Proof.
  intros Hlive Hc Hcell.
  destruct (decide (_currentMove g = Some player)) as [Hturn|Hturn];
    [|rewrite onPlayerMove_out_of_turn by exact Hturn; exact Hcell].
  destruct Hlive as [[session Hsession] [ps Hps]].
  destruct (decide (sum m = 0)) as [Hsum|Hsum].
  - rewrite (onPlayerMove_checked _ _ _ Hturn Hsum).
    destruct (validation (_gameField g) m) as [[|]|] eqn:Hvalid;
      [|exact Hcell|exact Hcell].
    destruct (fill_after_validation _ _ Hvalid) as (field & -> & Hcells). cbn.
    rewrite (settle_live _ _ _ _ _ _ Hps Hsession). cbn. rewrite Hcells.
    apply validation_true in Hvalid as (_ & _ & _ & Hrect).
    case_decide as Hin; [|exact Hcell].
    rewrite (Hrect i j Hin) in Hcell. congruence.
  - rewrite (onPlayerMove_unchecked _ _ _ Hturn Hsum).
    rewrite (settle_live _ _ _ _ _ _ Hps Hsession). exact Hcell.
Qed.

(** X5. A claimed cell is permanent under moves: in a live game, through
    any sequence of [playerMove] messages, a cell that carries a colour
    keeps that colour; no move unclaims or recolours it. *)
Theorem claimed_cells_are_permanent (moves : list (WebSocket * PlayerState))
    (g : Game) (i j : Z) (c : cell) :
  live g → on_board (_gameField g) → c ≠ default__cell →
  cell_at (_gameField g) i j = Ok (Some c) →
  cell_at (_gameField (play g moves)) i j = Ok (Some c).
Proof.
  revert g. induction moves as [|[p m] moves IH]; intros g Hlive Hboard Hc Hcell;
    [exact Hcell|].
  cbn [play]. destruct Hlive as [[session Hsession] Hps].
  destruct (onPlayerMove_preserves g p m session
              (conj (ex_intro _ session Hsession) Hps) Hboard Hsession)
    as (Hlive' & Hboard' & _).
  apply IH; [exact Hlive' | exact Hboard' | exact Hc|].
  apply onPlayerMove_keeps_claimed; [|exact Hc | exact Hcell].
  split; [eexists; exact Hsession | exact Hps].
Qed.

Lemma claimed_cells_are_permanent_witness :
  live (play two_players [(1%nat, mkMove 0 0 2 1 "r" 0 3 3)])
  ∧ on_board (_gameField (play two_players [(1%nat, mkMove 0 0 2 1 "r" 0 3 3)]))
  ∧ red__cell ≠ default__cell
  ∧ cell_at (_gameField (play two_players [(1%nat, mkMove 0 0 2 1 "r" 0 3 3)]))
            2 1 = Ok (Some red__cell)
  ∧ cell_at
      (_gameField
         (play (play two_players [(1%nat, mkMove 0 0 2 1 "r" 0 3 3)])
               [(2%nat, mkMove 29 29 27 28 "b" 0 3 3);
                (1%nat, mkMove 2 1 0 0 "b" 0 3 3)]))
      2 1 = Ok (Some red__cell).
Proof.
  destruct (play_preserves [(1%nat, mkMove 0 0 2 1 "r" 0 3 3)] two_players
              [1%nat; 2%nat] two_players_live ltac:(apply started_spec)
              ltac:(apply started_spec)) as (Hlive & Hboard & _).
  assert (Hcell : cell_at (_gameField (play two_players
                    [(1%nat, mkMove 0 0 2 1 "r" 0 3 3)])) 2 1 = Ok (Some red__cell))
    by (vm_compute; reflexivity).
  split; [exact Hlive|]. split; [exact Hboard|]. split; [discriminate|].
  split; [exact Hcell|].
  apply claimed_cells_are_permanent; [exact Hlive | exact Hboard | discriminate|].
  exact Hcell.
Defined.

(** ** The rectangle of a checked move *)

Lemma reachable_dimensions (anchor : list Z) (rowFrom colFrom n rowTo colTo : Z) :
  reachable anchor rowFrom colFrom n rowTo colTo →
  1 ≤ n ∧ rect_area rowFrom colFrom rowTo colTo = n.
Proof.
  intros (s1 & s2 & p & _ & (i & Hi & [k Hk] & ->) & Hp).
  assert (Hkpos : 1 ≤ k) by nia.
  assert (Hdiv : n / i = k) by (subst n; apply Z.div_mul; lia).
  split; [lia|]. unfold rect_area, apply_signs, shift in *. cbn [fst snd] in Hp.
  rewrite Hdiv in Hp. injection Hp as -> ->.
  destruct s1, s2; nia.
Qed.

(** X6. A move that passes the checks has a dice total of at least 1 and
    claims a rectangle of exactly that many cells: the number of cells
    between [from] and [to], both included, is [dices[0] + dices[1]]. *)
Theorem checked_move_area (gameField : Field) (m : PlayerState) :
  validation gameField m = Ok true →
  1 ≤ dice_total m
  ∧ rect_area (row (from m)) (col (from m)) (row (to m)) (col (to m))
    = dice_total m.
Proof.
  intros Hvalid. apply validation_true in Hvalid as (anchor & _ & Hreach & _).
  apply (reachable_dimensions anchor), Hreach.
Qed.

Lemma checked_move_area_witness :
  validation (_gameField two_players) (mkMove 0 0 2 1 "r" 0 3 3) = Ok true
  ∧ rect_area 0 0 2 1 = 3 + 3.
Proof.
  assert (Hvalid : validation (_gameField two_players) (mkMove 0 0 2 1 "r" 0 3 3)
                   = Ok true) by (vm_compute; reflexivity).
  split; [exact Hvalid|].
  destruct (checked_move_area _ _ Hvalid) as [_ Harea]. exact Harea.
Defined.

(** X7. The edge cases of the dice total: with a total of 0 or less
    [_factorization] is empty and no move passes the checks; with a total
    of 1 its only displacement is [(0,0)], so a move that passes has
    [to = from]. *)
Theorem small_dice_totals (gameField : Field) (m : PlayerState) :
  (∀ n, n ≤ 0 → _factorization n = [])
  ∧ _factorization 1 = [(0, 0)]
  ∧ (dice_total m ≤ 0 → validation gameField m ≠ Ok true)
  ∧ (dice_total m = 1 → validation gameField m = Ok true → to m = from m).
Proof.
  split; [|split; [vm_compute; reflexivity|split]].
  - intros n Hn. unfold _factorization. rewrite seqZ_nil by lia. reflexivity.
  - intros Hd Hvalid.
    apply validation_true in Hvalid as (anchor & _ & Hreach & _).
    apply reachable_dimensions in Hreach as [Hpos _].
    unfold dice_total in Hd. lia.
  - intros Hd Hvalid.
    apply validation_true in Hvalid as (anchor & _ & Hreach & _).
    destruct Hreach as (s1 & s2 & p & _ & (i & Hi & _ & ->) & Hp).
    fold (dice_total m) in Hi, Hp. rewrite Hd in Hi, Hp.
    assert (i = 1) as -> by lia. rewrite Z.div_1_r in Hp. cbn in Hp.
    destruct (from m) as [rf cf], (to m) as [rt ct]. cbn in Hp.
    injection Hp as -> ->. destruct s1, s2; cbn; f_equal; lia.
Qed.

Lemma small_dice_totals_witness :
  dice_total (mkMove 0 0 0 0 "r" 0 0 0) ≤ 0
  ∧ validation (_gameField two_players) (mkMove 0 0 0 0 "r" 0 0 0) ≠ Ok true.
Proof.
  assert (Hd : dice_total (mkMove 0 0 0 0 "r" 0 0 0) ≤ 0)
    by (unfold dice_total, mkMove; cbn; lia).
  split; [exact Hd|].
  destruct (small_dice_totals (_gameField two_players) (mkMove 0 0 0 0 "r" 0 0 0))
    as (_ & _ & Hnone & _).
  exact (Hnone Hd).
Defined.

(** ** The two rectangle loops take the corners in either order *)

Lemma lowF_comm (a b : Z) : lowF a b = lowF b a.
Proof. rewrite !lowF_min. lia. Qed.

Lemma highT_comm (a b : Z) : highT a b = highT b a.
Proof. rewrite !highT_max. lia. Qed.

(** X8. [_areCellsEmpty] and [_fillField] normalise their two corners:
    swapping [from] and [to], or taking the other diagonal of the same
    rectangle, gives the same answer (the same exception included) and
    the same board. *)
Theorem rectangle_corners_in_either_order (field : Field) (color : string)
    (rowFrom colFrom rowTo colTo : Z) :
  _areCellsEmpty field rowTo colTo rowFrom colFrom
  = _areCellsEmpty field rowFrom colFrom rowTo colTo
  ∧ _areCellsEmpty field rowFrom colTo rowTo colFrom
    = _areCellsEmpty field rowFrom colFrom rowTo colTo
  ∧ _fillField color field rowTo colTo rowFrom colFrom
    = _fillField color field rowFrom colFrom rowTo colTo
  ∧ _fillField color field rowFrom colTo rowTo colFrom
    = _fillField color field rowFrom colFrom rowTo colTo.
Proof.
  unfold _areCellsEmpty, _fillField. cbv zeta.
  rewrite (lowF_comm rowTo rowFrom), (lowF_comm colTo colFrom),
    (highT_comm rowTo rowFrom), (highT_comm colTo colFrom).
  repeat split; reflexivity.
Qed.

(** ** The frontier *)

Lemma cell_is_grid (f : Field) (i j : Z) :
  grid f → 0 ≤ i < 30 →
  cell_is f i j default__cell = Ok (is_default_at f i j).
Proof.
  intros Hgrid Hi. destruct (grid_cell f i j Hgrid Hi) as (oc & Hc & _).
  unfold cell_is, is_default_at. rewrite Hc. cbn.
  destruct oc as [[| |]|]; reflexivity.
Qed.

Lemma is_default_at_off_grid (f : Field) (i j : Z) :
  grid f → ¬ (0 ≤ i < 30 ∧ 0 ≤ j < 30) → is_default_at f i j = false.
Proof.
  intros Hgrid Hout. destruct (is_default_at f i j) eqn:Hd; [|reflexivity].
  apply is_default_at_true in Hd. apply grid_cell_inv in Hd; [tauto | exact Hgrid].
Qed.

Lemma guarded_probe (f : Field) (guard : bool) (i j : Z) (acc : list (Z * Z)) :
  grid f → (guard = true → 0 ≤ i < 30) →
  (guard = false → is_default_at f i j = false) →
  (if guard
   then c ← cell_is f i j default__cell;
        Ok (if (c : bool) then acc ++ [(i, j)] else acc)
   else Ok acc)
  = Ok (if is_default_at f i j then acc ++ [(i, j)] else acc).
Proof.
  intros Hgrid Hon Hoff. destruct guard.
  - rewrite (cell_is_grid f i j Hgrid (Hon eq_refl)). reflexivity.
  - rewrite (Hoff eq_refl). reflexivity.
Qed.

Lemma cellFree_grid (f : Field) (row col : Z) :
  grid f → 0 ≤ row < 30 → 0 ≤ col < 30 →
  _cellFree f row col = Ok (free_neighbours f row col).
Proof.
  intros Hgrid Hrow Hcol. unfold _cellFree. cbv zeta.
  rewrite (guarded_probe f (bool_decide (row ≠ 0)) (row - 1) col [] Hgrid).
  2:{ intros Hg. apply bool_decide_eq_true in Hg. lia. }
  2:{ intros Hg. apply bool_decide_eq_false in Hg.
      apply is_default_at_off_grid; [exact Hgrid | lia]. }
  cbn [mbind result_bind].
  rewrite (guarded_probe f (bool_decide (col ≠ 0)) row (col - 1) _ Hgrid).
  2:{ intros _. exact Hrow. }
  2:{ intros Hg. apply bool_decide_eq_false in Hg.
      apply is_default_at_off_grid; [exact Hgrid | lia]. }
  cbn [mbind result_bind].
  rewrite (guarded_probe f (bool_decide (is_Some (get f (row + 1))))
             (row + 1) col _ Hgrid).
  2:{ intros Hg. apply bool_decide_eq_true in Hg.
      apply (grid_row f (row + 1) Hgrid), Hg. }
  2:{ intros Hg. apply bool_decide_eq_false in Hg.
      apply is_default_at_off_grid; [exact Hgrid|].
      intros [Hin _]. apply Hg, (grid_row f (row + 1) Hgrid), Hin. }
  cbn [mbind result_bind].
  destruct (grid_cell f row (col + 1) Hgrid Hrow) as (here & Hhere & Hsome).
  rewrite Hhere. cbn [mbind result_bind].
  rewrite (guarded_probe f (bool_decide (is_Some here)) row (col + 1) _ Hgrid).
  2:{ intros _. exact Hrow. }
  2:{ intros Hg. apply bool_decide_eq_false in Hg.
      apply is_default_at_off_grid; [exact Hgrid|].
      intros [_ Hin]. apply Hg, Hsome, Hin. }
  cbn [mbind result_bind]. unfold free_neighbours, neighbours. cbn [List.filter fst snd].
  destruct (is_default_at f (row - 1) col), (is_default_at f row (col - 1)),
    (is_default_at f (row + 1) col), (is_default_at f row (col + 1));
    reflexivity.
Qed.

Lemma elem_of_free_neighbours (f : Field) (row col r c : Z) :
  (r, c) ∈ free_neighbours f row col
  ↔ (r, c) ∈ neighbours row col ∧ cell_at f r c = Ok (Some default__cell).
Proof.
  unfold free_neighbours. rewrite !list_elem_of_In, filter_In. cbn [fst snd].
  rewrite is_default_at_true. reflexivity.
Qed.

Lemma foldl_collect {A B} (step : result (list B) → A → result (list B))
    (F : A → list B) (l : list A) :
  (∀ x acc, x ∈ l → step (Ok acc) x = Ok (acc ++ F x)) →
  ∀ acc, foldl step (Ok acc) l = Ok (acc ++ (l ≫= F)).
Proof.
  induction l as [|x l IH]; intros Hstep acc.
  - cbn. rewrite app_nil_r. reflexivity.
  - cbn [foldl]. rewrite Hstep by left. rewrite IH.
    + rewrite <- app_assoc. reflexivity.
    + intros y acc' Hy. apply Hstep. right. exact Hy.
Qed.

Lemma findFreeCells_grid (f : Field) (color : string) :
  grid f →
  _findFreeCells f color
  = Ok (i ← seqZ 0 30; j ← seqZ 0 30;
        if match cell_at f i j with
           | Ok (Some c) => bool_decide (c = cell_of_color color)
           | _ => false
           end
        then free_neighbours f i j else []).
Proof.
  intros Hgrid. unfold _findFreeCells. cbv zeta.
  rewrite (foldl_collect _
             (λ i, j ← seqZ 0 30;
                   if match cell_at f i j with
                      | Ok (Some c) => bool_decide (c = cell_of_color color)
                      | _ => false
                      end
                   then free_neighbours f i j else [])); [reflexivity|].
  intros i acc Hi. apply elem_of_seqZ in Hi.
  apply (foldl_collect _
           (λ j, if match cell_at f i j with
                    | Ok (Some c) => bool_decide (c = cell_of_color color)
                    | _ => false
                    end
                 then free_neighbours f i j else [])).
  intros j acc' Hj. apply elem_of_seqZ in Hj. cbn [mbind result_bind].
  destruct (grid_cell f i j Hgrid ltac:(lia)) as (oc & Hc & Hsome).
  unfold cell_is. rewrite Hc. cbn [mbind result_bind].
  destruct oc as [c|]; [|exfalso; destruct Hsome as [_ Hs];
                          destruct (Hs ltac:(lia)) as [? [=]]].
  destruct (decide (c = cell_of_color color)) as [->|Hne].
  - rewrite !bool_decide_eq_true_2 by reflexivity.
    rewrite cellFree_grid by (exact Hgrid || lia). reflexivity.
  - rewrite !bool_decide_eq_false_2 by congruence. rewrite app_nil_r. reflexivity.
Qed.

Lemma findFreeCells_mem (f : Field) (color : string) :
  grid f →
  ∃ freeCells,
    _findFreeCells f color = Ok freeCells
    ∧ ∀ r c, (r, c) ∈ freeCells ↔ frontier f color r c.
Proof.
  intros Hgrid. eexists. split; [apply findFreeCells_grid, Hgrid|].
  intros r c. rewrite list_elem_of_bind. setoid_rewrite list_elem_of_bind.
  unfold frontier. split.
  - intros (i & (j & Hin & Hj) & Hi).
    destruct (cell_at f i j) as [[cc|]|] eqn:Hc;
      try (apply elem_of_nil in Hin; contradiction).
    destruct (bool_decide_reflect (cc = cell_of_color color)) as [->|Hne];
      [|apply elem_of_nil in Hin; contradiction].
    apply elem_of_free_neighbours in Hin as [Hn Hd].
    split; [exact Hd|]. exists i, j. auto.
  - intros (Hd & i & j & Hc & Hn).
    destruct (grid_cell_inv f i j _ Hgrid Hc) as [Hi Hj].
    exists i. split; [|apply elem_of_seqZ; lia].
    exists j. split; [|apply elem_of_seqZ; lia].
    rewrite Hc, bool_decide_eq_true_2 by reflexivity.
    apply elem_of_free_neighbours. auto.
Qed.

(** X9. On the 30x30 board, [_cellFree] of a cell of the board never
    throws and returns exactly its unclaimed neighbours that lie on the
    board (at an edge the missing neighbours are left out), and
    [_findFreeCells] never throws and returns exactly the frontier of the
    colour: the unclaimed cells that are 4-directionally adjacent to a cell
    of that colour. *)
Theorem findFreeCells_frontier (f : Field) (color : string) :
  grid f →
  (∀ row col, 0 ≤ row < 30 → 0 ≤ col < 30 →
     ∃ l, _cellFree f row col = Ok l
          ∧ ∀ r c, (r, c) ∈ l
                   ↔ (r, c) ∈ neighbours row col
                     ∧ cell_at f r c = Ok (Some default__cell))
  ∧ ∃ freeCells,
      _findFreeCells f color = Ok freeCells
      ∧ ∀ r c, (r, c) ∈ freeCells ↔ frontier f color r c.
Proof.
  intros Hgrid. split.
  - intros row col Hrow Hcol. exists (free_neighbours f row col).
    split; [apply cellFree_grid; assumption|].
    intros r c. apply elem_of_free_neighbours.
  - apply findFreeCells_mem, Hgrid.
Qed.

Lemma findFreeCells_frontier_witness :
  grid fresh_field
  ∧ 0 ≤ 0 < 30 ∧ 0 ≤ 29 < 30
  ∧ ∃ l, _cellFree fresh_field 0 29 = Ok l
         ∧ ∀ r c, (r, c) ∈ l
                  ↔ (r, c) ∈ neighbours 0 29
                    ∧ cell_at fresh_field r c = Ok (Some default__cell).
Proof.
  split; [exact fresh_field_grid|]. split; [lia|]. split; [lia|].
  destruct (findFreeCells_frontier fresh_field "r" fresh_field_grid) as [Hcell _].
  apply Hcell; lia.
Defined.

(** ** Moves after the first *)

Lemma anchor_is_default_grid (f : Field) (ar ac : Z) :
  grid f → 0 ≤ ar < 30 →
  anchor_is_default f [ar; ac] = Ok (is_default_at f ar ac).
Proof.
  intros Hgrid Har. destruct (grid_cell f ar ac Hgrid Har) as (oc & Hc & _).
  unfold anchor_is_default, is_default_at. cbn. unfold cell_at in *.
  destruct (get f ar) as [row|]; [|discriminate]. injection Hc as Hc.
  rewrite Hc. destruct oc as [[| |]|]; reflexivity.
Qed.

Lemma checkMove_grid (f : Field) (ar ac rowFrom colFrom rowTo colTo : Z)
    (dices : Z * Z) (color : string) :
  grid f → 0 ≤ ar < 30 →
  _checkMove [ar; ac] f rowFrom colFrom rowTo colTo dices color = Ok true
  ↔ (if is_default_at f ar ac then rowFrom = ar ∧ colFrom = ac
     else frontier f color rowFrom colFrom)
    ∧ reachable [ar; ac] rowFrom colFrom (dices.1 + dices.2) rowTo colTo
    ∧ rect_unclaimed f rowFrom colFrom rowTo colTo.
Proof.
  intros Hgrid Har. unfold _checkMove.
  rewrite (anchor_is_default_grid f ar ac Hgrid Har). cbn [mbind result_bind].
  destruct (is_default_at f ar ac).
  - cbn [lookup list_lookup].
    destruct (bool_decide_reflect (Some rowFrom ≠ Some ar)) as [Hr|Hr];
      [|destruct (bool_decide_reflect (Some colFrom ≠ Some ac)) as [Hc|Hc]];
      cbn [orb].
    + split; [discriminate|]. intros [[-> _] _]. contradiction.
    + split; [discriminate|]. intros [[_ ->] _]. contradiction.
    + rewrite makeMove_true. split; [|tauto].
      intros H. split; [|exact H].
      split; [destruct (decide (rowFrom = ar)); [assumption|]
             |destruct (decide (colFrom = ac)); [assumption|]].
      * exfalso. apply Hr. congruence.
      * exfalso. apply Hc. congruence.
  - destruct (findFreeCells_mem f color Hgrid) as (l & -> & Hl).
    cbn [mbind result_bind].
    destruct (_checkTo l rowFrom colFrom) eqn:Hto.
    + apply checkTo_true, Hl in Hto. rewrite makeMove_true. tauto.
    + split; [discriminate|]. intros [Hf _]. apply Hl, checkTo_true in Hf.
      congruence.
Qed.

Lemma later_move_iff (g : Game) (player : WebSocket)
    (m : PlayerState) (ar ac : Z) :
  live g → grid (_gameField g) → _currentMove g = Some player → sum m = 0 →
  _isFieldEmpty (_gameField g) = Ok false →
  resolve_anchor (_gameField g) m = Ok [ar; ac] → 0 ≤ ar < 30 →
  (accepted (_onPlayerMove g player m) = true
   ↔ (if is_default_at (_gameField g) ar ac
      then row (from m) = ar ∧ col (from m) = ac
      else frontier (_gameField g) (color m) (row (from m)) (col (from m)))
     ∧ reachable [ar; ac] (row (from m)) (col (from m)) (dice_total m)
                 (row (to m)) (col (to m))
     ∧ rect_unclaimed (_gameField g) (row (from m)) (col (from m))
                      (row (to m)) (col (to m))).
Proof.
  intros Hlive Hgrid Hturn Hsum Hempty Hanchor Har.
  rewrite <- (checkMove_grid _ _ _ _ _ _ _ (dices m) (color m) Hgrid Har).
  assert (Hvalid : validation (_gameField g) m
                   = _checkMove [ar; ac] (_gameField g) (row (from m))
                       (col (from m)) (row (to m)) (col (to m)) (dices m)
                       (color m)).
  { unfold validation. rewrite Hempty. cbn [mbind result_bind].
    rewrite Hanchor. reflexivity. }
  rewrite <- Hvalid. split.
  - intros Hacc. apply accepted_settled in Hacc as (_ & _ & _ & Hv); auto.
  - apply valid_move_accepted; assumption.
Qed.

(** X10. After the very first move of a game (some corner is claimed),
    on the 30x30 board, a move with [sum = 0] by the participant whose
    turn it is, for which the handler resolves the anchor corner
    [(ar, ac)], is accepted iff its target is reachable from [from] under
    the anchor's signs, its rectangle is unclaimed, and: when the anchor
    corner is still unclaimed (the mover's own first move) [from] is that
    corner; otherwise [from] is a frontier cell of the move's colour. *)
Theorem later_move_accepted_iff (g : Game) (player : WebSocket)
    (m : PlayerState) (ar ac : Z) :
  live g → grid (_gameField g) → _currentMove g = Some player → sum m = 0 →
  _isFieldEmpty (_gameField g) = Ok false →
  resolve_anchor (_gameField g) m = Ok [ar; ac] → 0 ≤ ar < 30 →
  (accepted (_onPlayerMove g player m) = true
   ↔ (if is_default_at (_gameField g) ar ac
      then row (from m) = ar ∧ col (from m) = ac
      else frontier (_gameField g) (color m) (row (from m)) (col (from m)))
     ∧ reachable [ar; ac] (row (from m)) (col (from m)) (dice_total m)
                 (row (to m)) (col (to m))
     ∧ rect_unclaimed (_gameField g) (row (from m)) (col (from m))
                      (row (to m)) (col (to m))).
Proof.
  intros Hlive Hgrid Hturn Hsum Hempty Hanchor Har.
  apply later_move_iff; assumption.
Qed.

(** ** The anchor of the second mover *)

Lemma cell_tests (f : Field) (i j : Z) (c t : cell) :
  cell_at f i j = Ok (Some c) →
  cell_is f i j t = Ok (bool_decide (c = t))
  ∧ cell_isnt f i j t = Ok (negb (bool_decide (c = t))).
Proof.
  intros Hc. unfold cell_is, cell_isnt. rewrite Hc. cbn.
  destruct (decide (c = t)) as [->|Hne].
  - rewrite !bool_decide_eq_true_2 by reflexivity. auto.
  - rewrite !bool_decide_eq_false_2 by congruence. auto.
Qed.

Lemma resolve_anchor_corners (f : Field) (m : PlayerState)
    (c1 c2 c3 c4 : cell) :
  cell_at f 0 0 = Ok (Some c1) → cell_at f 0 29 = Ok (Some c2) →
  cell_at f 29 0 = Ok (Some c3) → cell_at f 29 29 = Ok (Some c4) →
  _isFieldEmpty f
  = Ok (bool_decide (c1 = default__cell) && bool_decide (c2 = default__cell)
        && bool_decide (c3 = default__cell) && bool_decide (c4 = default__cell))
  ∧ (c1 ≠ default__cell → c2 = default__cell → c3 = default__cell →
     c4 = default__cell → resolve_anchor f m = Ok [29; 29])
  ∧ (c1 = default__cell → c2 ≠ default__cell → c3 = default__cell →
     c4 = default__cell → resolve_anchor f m = Ok [29; 0])
  ∧ (c1 = default__cell → c2 = default__cell → c3 ≠ default__cell →
     c4 = default__cell → resolve_anchor f m = Ok [0; 29])
  ∧ (c1 = default__cell → c2 = default__cell → c3 = default__cell →
     c4 ≠ default__cell → resolve_anchor f m = Ok [0; 0]).
Proof.
  intros H1 H2 H3 H4.
  unfold resolve_anchor, _isFieldEmpty, _isCornerEmpty, _findFirstMove, and_then.
  destruct (cell_tests f 0 0 c1 default__cell H1) as [-> ->].
  destruct (cell_tests f 0 29 c2 default__cell H2) as [-> ->].
  destruct (cell_tests f 29 0 c3 default__cell H3) as [-> ->].
  destruct (cell_tests f 29 29 c4 default__cell H4) as [-> ->].
  cbn [mbind result_bind].
  split; [destruct c1, c2, c3, c4; reflexivity|].
  repeat split; intros Ha Hb Hc Hd; destruct c1, c2, c3, c4;
    try congruence; reflexivity.
Qed.

(** X11. When exactly one corner of the 30x30 board is claimed (the
    opponent has moved, this mover has not), a move with [sum = 0] by the
    participant whose turn it is is accepted iff its [from] is the
    diagonally opposite corner, its target is reachable from there under
    that corner's inward signs, and its rectangle is unclaimed. *)
Theorem second_mover_starts_opposite (g : Game) (player : WebSocket)
    (m : PlayerState) (corner : Z * Z) (c : cell) :
  live g → grid (_gameField g) → _currentMove g = Some player → sum m = 0 →
  corner ∈ corners →
  cell_at (_gameField g) corner.1 corner.2 = Ok (Some c) → c ≠ default__cell →
  (∀ other, other ∈ corners → other ≠ corner →
            cell_at (_gameField g) other.1 other.2 = Ok (Some default__cell)) →
  resolve_anchor (_gameField g) m = Ok (opposite corner)
  ∧ (accepted (_onPlayerMove g player m) = true
     ↔ [row (from m); col (from m)] = opposite corner
       ∧ reachable (opposite corner) (row (from m)) (col (from m))
                   (dice_total m) (row (to m)) (col (to m))
       ∧ rect_unclaimed (_gameField g) (row (from m)) (col (from m))
                        (row (to m)) (col (to m))).
Proof.
  intros Hlive Hgrid Hturn Hsum Hcorner Hc Hne Hothers.
  assert (Hfacts :
    ∃ ar ac, opposite corner = [ar; ac] ∧ 0 ≤ ar < 30
             ∧ resolve_anchor (_gameField g) m = Ok [ar; ac]
             ∧ _isFieldEmpty (_gameField g) = Ok false
             ∧ is_default_at (_gameField g) ar ac = true).
  { unfold corners in Hcorner, Hothers.
    repeat (apply elem_of_cons in Hcorner as [->|Hcorner]);
      [| | | |apply elem_of_nil in Hcorner; contradiction]; cbn in Hc.
    - pose proof (Hothers (0, 29) ltac:(set_solver) ltac:(congruence)) as H2.
      pose proof (Hothers (29, 0) ltac:(set_solver) ltac:(congruence)) as H3.
      pose proof (Hothers (29, 29) ltac:(set_solver) ltac:(congruence)) as H4.
      cbn in H2, H3, H4.
      destruct (resolve_anchor_corners _ m _ _ _ _ Hc H2 H3 H4)
        as (He & Ha & _).
      exists 29, 29. split; [reflexivity|]. split; [lia|]. split; [auto|].
      split; [rewrite He; destruct c; [contradiction|reflexivity..]|].
      apply is_default_at_true, H4.
    - pose proof (Hothers (0, 0) ltac:(set_solver) ltac:(congruence)) as H1.
      pose proof (Hothers (29, 0) ltac:(set_solver) ltac:(congruence)) as H3.
      pose proof (Hothers (29, 29) ltac:(set_solver) ltac:(congruence)) as H4.
      cbn in H1, H3, H4.
      destruct (resolve_anchor_corners _ m _ _ _ _ H1 Hc H3 H4)
        as (He & _ & Ha & _).
      exists 29, 0. split; [reflexivity|]. split; [lia|]. split; [auto|].
      split; [rewrite He; destruct c; [contradiction|reflexivity..]|].
      apply is_default_at_true, H3.
    - pose proof (Hothers (0, 0) ltac:(set_solver) ltac:(congruence)) as H1.
      pose proof (Hothers (0, 29) ltac:(set_solver) ltac:(congruence)) as H2.
      pose proof (Hothers (29, 29) ltac:(set_solver) ltac:(congruence)) as H4.
      cbn in H1, H2, H4.
      destruct (resolve_anchor_corners _ m _ _ _ _ H1 H2 Hc H4)
        as (He & _ & _ & Ha & _).
      exists 0, 29. split; [reflexivity|]. split; [lia|]. split; [auto|].
      split; [rewrite He; destruct c; [contradiction|reflexivity..]|].
      apply is_default_at_true, H2.
    - pose proof (Hothers (0, 0) ltac:(set_solver) ltac:(congruence)) as H1.
      pose proof (Hothers (0, 29) ltac:(set_solver) ltac:(congruence)) as H2.
      pose proof (Hothers (29, 0) ltac:(set_solver) ltac:(congruence)) as H3.
      cbn in H1, H2, H3.
      destruct (resolve_anchor_corners _ m _ _ _ _ H1 H2 H3 Hc)
        as (He & _ & _ & _ & Ha).
      exists 0, 0. split; [reflexivity|]. split; [lia|]. split; [auto|].
      split; [rewrite He; destruct c; [contradiction|reflexivity..]|].
      apply is_default_at_true, H1. }
  destruct Hfacts as (ar & ac & -> & Har & Hanchor & Hempty & Hdefault).
  split; [exact Hanchor|].
  rewrite (later_move_iff g player m ar ac Hlive Hgrid Hturn Hsum
             Hempty Hanchor Har).
  rewrite Hdefault. split.
  - intros ([-> ->] & Hr & Hu). auto.
  - intros ([= -> ->] & Hr & Hu). auto.
Qed.

Lemma play_in_session (session : list WebSocket)
    (moves : list (WebSocket * PlayerState)) (g : Game) :
  in_session session g → in_session session (play g moves).
Proof.
  revert g. induction moves as [|[player m] moves IH]; intros g Hin;
    [exact Hin|].
  cbn [play]. apply IH, onPlayerMove_in_session, Hin.
Qed.

Lemma later_move_accepted_iff_witness :
  live (play two_players [(1%nat, mkMove 0 0 2 1 "r" 0 3 3);
                          (2%nat, mkMove 29 29 27 28 "b" 0 3 3)])
  ∧ _currentMove (play two_players [(1%nat, mkMove 0 0 2 1 "r" 0 3 3);
                                    (2%nat, mkMove 29 29 27 28 "b" 0 3 3)])
    = Some 1%nat
  ∧ resolve_anchor
      (_gameField (play two_players [(1%nat, mkMove 0 0 2 1 "r" 0 3 3);
                                     (2%nat, mkMove 29 29 27 28 "b" 0 3 3)]))
      (mkMove 3 0 5 1 "r" 0 3 3) = Ok [0; 0]
  ∧ is_default_at
      (_gameField (play two_players [(1%nat, mkMove 0 0 2 1 "r" 0 3 3);
                                     (2%nat, mkMove 29 29 27 28 "b" 0 3 3)]))
      0 0 = false
  ∧ (accepted
       (_onPlayerMove
          (play two_players [(1%nat, mkMove 0 0 2 1 "r" 0 3 3);
                             (2%nat, mkMove 29 29 27 28 "b" 0 3 3)])
          1%nat (mkMove 3 0 5 1 "r" 0 3 3)) = true
     ↔ (if is_default_at
             (_gameField (play two_players [(1%nat, mkMove 0 0 2 1 "r" 0 3 3);
                                            (2%nat, mkMove 29 29 27 28 "b" 0 3 3)]))
             0 0
        then 3 = 0 ∧ 0 = 0
        else frontier
               (_gameField (play two_players [(1%nat, mkMove 0 0 2 1 "r" 0 3 3);
                                              (2%nat, mkMove 29 29 27 28 "b" 0 3 3)]))
               "r" 3 0)
       ∧ reachable [0; 0] 3 0 (dice_total (mkMove 3 0 5 1 "r" 0 3 3)) 5 1
       ∧ rect_unclaimed
           (_gameField (play two_players [(1%nat, mkMove 0 0 2 1 "r" 0 3 3);
                                          (2%nat, mkMove 29 29 27 28 "b" 0 3 3)]))
           3 0 5 1).
Proof.
  pose proof (play_in_session [1%nat; 2%nat]
                [(1%nat, mkMove 0 0 2 1 "r" 0 3 3);
                 (2%nat, mkMove 29 29 27 28 "b" 0 3 3)] _
                (started_in_session [1%nat; 2%nat])) as Hin.
  fold two_players in Hin.
  pose proof (in_session_live _ _ Hin) as Hlive.
  destruct Hin as (_ & _ & Hgrid & _).
  assert (Hturn : _currentMove (play two_players
                    [(1%nat, mkMove 0 0 2 1 "r" 0 3 3);
                     (2%nat, mkMove 29 29 27 28 "b" 0 3 3)]) = Some 1%nat)
    by (vm_compute; reflexivity).
  assert (Hempty : _isFieldEmpty (_gameField (play two_players
                     [(1%nat, mkMove 0 0 2 1 "r" 0 3 3);
                      (2%nat, mkMove 29 29 27 28 "b" 0 3 3)])) = Ok false)
    by (vm_compute; reflexivity).
  assert (Hanchor : resolve_anchor (_gameField (play two_players
                      [(1%nat, mkMove 0 0 2 1 "r" 0 3 3);
                       (2%nat, mkMove 29 29 27 28 "b" 0 3 3)]))
                      (mkMove 3 0 5 1 "r" 0 3 3) = Ok [0; 0])
    by (vm_compute; reflexivity).
  split; [exact Hlive|]. split; [exact Hturn|]. split; [exact Hanchor|].
  split; [vm_compute; reflexivity|].
  exact (later_move_accepted_iff _ 1%nat (mkMove 3 0 5 1 "r" 0 3 3) 0 0
           Hlive Hgrid Hturn eq_refl Hempty Hanchor ltac:(lia)).
Defined.

Lemma second_mover_starts_opposite_witness :
  (0, 0) ∈ corners
  ∧ cell_at (_gameField (play two_players [(1%nat, mkMove 0 0 2 1 "r" 0 3 3)]))
            0 0 = Ok (Some red__cell)
  ∧ red__cell ≠ default__cell
  ∧ resolve_anchor
      (_gameField (play two_players [(1%nat, mkMove 0 0 2 1 "r" 0 3 3)]))
      (mkMove 29 29 27 28 "b" 0 3 3) = Ok (opposite (0, 0)).
Proof.
  pose proof (play_in_session [1%nat; 2%nat]
                [(1%nat, mkMove 0 0 2 1 "r" 0 3 3)] _
                (started_in_session [1%nat; 2%nat])) as Hin.
  fold two_players in Hin.
  pose proof (in_session_live _ _ Hin) as Hlive.
  destruct Hin as (_ & _ & Hgrid & _).
  assert (Hcorner : (0, 0) ∈ corners) by left.
  assert (Hc : cell_at (_gameField (play two_players
                 [(1%nat, mkMove 0 0 2 1 "r" 0 3 3)])) (0, 0).1 (0, 0).2
               = Ok (Some red__cell)) by (vm_compute; reflexivity).
  split; [exact Hcorner|]. split; [exact Hc|]. split; [discriminate|].
  destruct (second_mover_starts_opposite _ 2%nat (mkMove 29 29 27 28 "b" 0 3 3)
              (0, 0) red__cell Hlive Hgrid) as [Hanchor _];
    [vm_compute; reflexivity | reflexivity | exact Hcorner | exact Hc
    | discriminate | | exact Hanchor].
  intros other Hother Hne. unfold corners in Hother.
  repeat (apply elem_of_cons in Hother as [->|Hother]);
    [contradiction | | | |apply elem_of_nil in Hother; contradiction];
    vm_compute; reflexivity.
Defined.

(** ** A colour without a corner *)

(** X12. When some corner is claimed, the corners are not in the
    one-corner pattern that [_isCornerEmpty] recognises (for instance both
    ends of a diagonal are claimed), and no corner carries the class of
    the move's colour, [_findCurrentMove] returns the empty array and
    [_checkMove] indexes the board with [undefined]: the checks, and with
    them the handler of a move with [sum = 0] by the participant whose
    turn it is, end in a [TypeError]; no reply is sent. *)
Theorem colour_without_corner_throws (f : Field) (m : PlayerState) :
  grid f → _isFieldEmpty f = Ok false → _isCornerEmpty f = Ok false →
  (∀ corner, corner ∈ corners →
             cell_at f corner.1 corner.2 ≠ Ok (Some (cell_of_color (color m)))) →
  _findCurrentMove f (color m) = Ok []
  ∧ validation f m = TypeError
  ∧ ∀ g player, _gameField g = f → _currentMove g = Some player → sum m = 0 →
                _onPlayerMove g player m = TypeError.
Proof.
  intros Hgrid Hempty Hcorner Hnone.
  assert (Hfind : _findCurrentMove f (color m) = Ok []).
  { unfold _findCurrentMove. cbv zeta.
    assert (Htest : ∀ corner, corner ∈ corners →
              cell_is f corner.1 corner.2 (cell_of_color (color m)) = Ok false).
    { intros corner Hin. pose proof (Hnone corner Hin) as Hne.
      assert (Hrange : 0 ≤ corner.1 < 30).
      { unfold corners in Hin.
        repeat (apply elem_of_cons in Hin as [->|Hin]); cbn; try lia.
        apply elem_of_nil in Hin. contradiction. }
      destruct (grid_cell f corner.1 corner.2 Hgrid Hrange) as (oc & Hc & _).
      unfold cell_is. rewrite Hc in *. cbn.
      rewrite bool_decide_eq_false_2 by congruence. reflexivity. }
    pose proof (Htest (0, 0) ltac:(unfold corners; set_solver)) as H1.
    pose proof (Htest (0, 29) ltac:(unfold corners; set_solver)) as H2.
    pose proof (Htest (29, 0) ltac:(unfold corners; set_solver)) as H3.
    pose proof (Htest (29, 29) ltac:(unfold corners; set_solver)) as H4.
    cbn [fst snd] in H1, H2, H3, H4. rewrite H1, H2, H3, H4. reflexivity. }
  assert (Hvalid : validation f m = TypeError).
  { unfold validation, resolve_anchor. rewrite Hempty. cbn [mbind result_bind].
    rewrite Hcorner. cbn [mbind result_bind]. rewrite Hfind. reflexivity. }
  split; [exact Hfind|]. split; [exact Hvalid|].
  intros g player <- Hturn Hsum.
  rewrite (onPlayerMove_checked _ _ _ Hturn Hsum), Hvalid. reflexivity.
Qed.

Lemma colour_without_corner_throws_witness :
  _isFieldEmpty
    (_gameField (play two_players [(1%nat, mkMove 0 0 2 1 "r" 0 3 3);
                                   (2%nat, mkMove 29 29 27 28 "r" 0 3 3)]))
  = Ok false
  ∧ _isCornerEmpty
      (_gameField (play two_players [(1%nat, mkMove 0 0 2 1 "r" 0 3 3);
                                     (2%nat, mkMove 29 29 27 28 "r" 0 3 3)]))
    = Ok false
  ∧ _onPlayerMove
      (play two_players [(1%nat, mkMove 0 0 2 1 "r" 0 3 3);
                         (2%nat, mkMove 29 29 27 28 "r" 0 3 3)])
      1%nat (mkMove 3 0 5 1 "b" 0 3 3) = TypeError.
Proof.
  pose proof (play_in_session [1%nat; 2%nat]
                [(1%nat, mkMove 0 0 2 1 "r" 0 3 3);
                 (2%nat, mkMove 29 29 27 28 "r" 0 3 3)] _
                (started_in_session [1%nat; 2%nat])) as (_ & _ & Hgrid & _).
  fold two_players in Hgrid.
  assert (Hempty : _isFieldEmpty (_gameField (play two_players
                     [(1%nat, mkMove 0 0 2 1 "r" 0 3 3);
                      (2%nat, mkMove 29 29 27 28 "r" 0 3 3)])) = Ok false)
    by (vm_compute; reflexivity).
  assert (Hcorner : _isCornerEmpty (_gameField (play two_players
                      [(1%nat, mkMove 0 0 2 1 "r" 0 3 3);
                       (2%nat, mkMove 29 29 27 28 "r" 0 3 3)])) = Ok false)
    by (vm_compute; reflexivity).
  split; [exact Hempty|]. split; [exact Hcorner|].
  destruct (colour_without_corner_throws _ (mkMove 3 0 5 1 "b" 0 3 3)
              Hgrid Hempty Hcorner) as (_ & _ & Hthrow).
  - intros corner Hin. unfold corners in Hin.
    repeat (apply elem_of_cons in Hin as [->|Hin]);
      [| | | |apply elem_of_nil in Hin; contradiction];
      vm_compute; discriminate.
  - apply Hthrow; [reflexivity | vm_compute; reflexivity | reflexivity].
Defined.

(** ** After [destroy] *)

Lemma destroy_result (g g1 : Game) (rs rs1 : WebSocket → ReadyState)
    (sent1 : list Sent) :
  destroy_replaced g = false → destroy g rs = Ok (g1, rs1, sent1) →
  _session g1 = None ∧ _playersState g1 = None
  ∧ _gameField g1 = _gameField g ∧ _currentMove g1 = _currentMove g.
Proof.
  intros Hfresh Hrun. unfold destroy in Hrun. rewrite Hfresh in Hrun.
  destruct (_session g) as [session|]; [|discriminate].
  destruct (foldl _ _ session) as [rs' sent']. injection Hrun as <- _ _.
  cbn. auto.
Qed.

Lemma destroy_runs (g : Game) (rs : WebSocket → ReadyState)
    (session : list WebSocket) :
  _session g = Some session → destroy_replaced g = false →
  ∃ g1 rs1 sent1, destroy g rs = Ok (g1, rs1, sent1).
Proof.
  intros Hsession Hfresh. unfold destroy. rewrite Hfresh, Hsession.
  destruct (foldl _ _ session) as [rs1 sent1]. eauto.
Qed.

(** X13. Once [destroy] has run, the handlers are not guarded: a
    [repeatGame] ends in a [TypeError]; so does a move of the participant
    whose turn it was that skips the checks ([sum] not [0]) or passes
    them; a move out of turn still gets the 'Not your turn' reply; and no
    move is ever accepted again. *)
Theorem after_destroy (g g1 : Game) (rs rs1 : WebSocket → ReadyState)
    (sent1 : list Sent) :
  destroy_replaced g = false → destroy g rs = Ok (g1, rs1, sent1) →
  (∀ player, on_message g1 player (json repeatGame) = TypeError)
  ∧ (∀ player m, _currentMove g1 = Some player → sum m ≠ 0 →
                 _onPlayerMove g1 player m = TypeError)
  ∧ (∀ player m, _currentMove g1 = Some player → sum m = 0 →
                 validation (_gameField g1) m = Ok true →
                 _onPlayerMove g1 player m = TypeError)
  ∧ (∀ player m, _currentMove g1 ≠ Some player →
                 _onPlayerMove g1 player m
                 = Ok (g1, [(player, incorrectRequest' "Not your turn")]))
  ∧ (∀ player m, accepted (_onPlayerMove g1 player m) = false).
Proof.
  intros Hfresh Hrun.
  destruct (destroy_result _ _ _ _ _ Hfresh Hrun) as (Hsession & Hps & _).
  assert (Hsettle : ∀ field player m, settle g1 field player m = TypeError).
  { intros field player m. unfold settle. rewrite Hps. reflexivity. }
  split; [|split; [|split; [|split]]].
  - intros player. unfold on_message. cbn [_parseMessage _processMessage].
    unfold _sendStartMessage. rewrite Hsession.
    destruct (_generateField empty); reflexivity.
  - intros player m Hturn Hsum.
    rewrite (onPlayerMove_unchecked _ _ _ Hturn Hsum). apply Hsettle.
  - intros player m Hturn Hsum Hvalid.
    rewrite (onPlayerMove_checked _ _ _ Hturn Hsum), Hvalid.
    destruct (_fillField _ _ _ _ _ _); cbn; [apply Hsettle | reflexivity].
  - intros player m. apply onPlayerMove_out_of_turn.
  - intros player m. unfold _onPlayerMove.
    destruct (bool_decide (_currentMove g1 ≠ Some player)); [reflexivity|].
    destruct (checked_field (_gameField g1) m) as [[field|]|]; cbn;
      [rewrite Hsettle|..]; reflexivity.
Qed.

Lemma after_destroy_witness :
  destroy_replaced two_players = false
  ∧ ∃ g1 rs1 sent1,
      destroy two_players (λ _, OPEN) = Ok (g1, rs1, sent1)
      ∧ on_message g1 2%nat (json repeatGame) = TypeError.
Proof.
  assert (Hfresh : destroy_replaced two_players = false)
    by (vm_compute; reflexivity).
  split; [exact Hfresh|].
  destruct (destroy_runs two_players (λ _, OPEN) [1%nat; 2%nat])
    as (g1 & rs1 & sent1 & Hrun); [vm_compute; reflexivity | exact Hfresh|].
  exists g1, rs1, sent1. split; [exact Hrun|].
  destruct (after_destroy _ _ _ _ _ Hfresh Hrun) as (Hrestart & _).
  apply Hrestart.
Defined.

Lemma destroy_loop_states (session : list WebSocket)
    (readyState : WebSocket → ReadyState) (sent : list Sent) :
  let final :=
    foldl (λ '(readyState, sent) player,
             if bool_decide (readyState player ≠ CLOSED)
                && bool_decide (readyState player ≠ CLOSING)
             then (<[player := CLOSING]> readyState,
                   sent ++ [(player, gameAborted)])
             else (readyState, sent))
          (readyState, sent) session in
  (∀ q, q ∈ session → ¬ still_open (final.1 q))
  ∧ (∀ q, q ∉ session → final.1 q = readyState q)
  ∧ (∀ q, final.1 q = readyState q ∨ final.1 q = CLOSING).
Proof.
  revert readyState sent.
  induction session as [|p session IH]; intros readyState sent; cbn zeta.
  - cbn. split; [intros q Hq; apply elem_of_nil in Hq; contradiction|]. auto.
  - cbn [foldl].
    set (first := if bool_decide (readyState p ≠ CLOSED)
                     && bool_decide (readyState p ≠ CLOSING)
                  then (<[p := CLOSING]> readyState, sent ++ [(p, gameAborted)])
                  else (readyState, sent)).
    assert (Hfirst : ¬ still_open (first.1 p)
                     ∧ (∀ q, q ≠ p → first.1 q = readyState q)
                     ∧ ∀ q, first.1 q = readyState q ∨ first.1 q = CLOSING).
    { unfold first.
      destruct (bool_decide_reflect (readyState p ≠ CLOSED)) as [H1|H1];
        [destruct (bool_decide_reflect (readyState p ≠ CLOSING)) as [H2|H2]|];
        cbn [andb fst].
      - split; [rewrite fn_lookup_insert; intros [_ H]; congruence|].
        split; [intros q Hq; apply fn_lookup_insert_ne; congruence|].
        intros q. destruct (decide (p = q)) as [->|Hne];
          [right; apply fn_lookup_insert | left; apply fn_lookup_insert_ne, Hne].
      - split; [intros [_ H]; tauto | auto].
      - split; [intros [H _]; tauto | auto]. }
    destruct Hfirst as (Hp & Hothers & Hstep).
    destruct first as [rs1 sent1]. cbn [fst] in *.
    specialize (IH rs1 sent1). cbn zeta in IH.
    destruct IH as (Hclosed & Hout & Hmono).
    split; [|split].
    + intros q Hq. apply elem_of_cons in Hq as [->|Hq]; [|apply Hclosed, Hq].
      destruct (Hmono p) as [Heq|Heq]; rewrite Heq;
        [exact Hp | intros [_ H]; congruence].
    + intros q Hq. apply not_elem_of_cons in Hq as [Hne Hq].
      rewrite (Hout q Hq). apply Hothers, Hne.
    + intros q. destruct (Hmono q) as [Heq|Heq]; [|auto].
      rewrite Heq. apply Hstep.
Qed.

(** X14. The first [destroy] leaves no socket of the session open: each
    is closed or closing afterwards; sockets outside the session keep
    their state, and the only change [destroy] makes to a socket is
    moving it to [CLOSING]. *)
Theorem destroy_closes_session (g g1 : Game) (rs rs1 : WebSocket → ReadyState)
    (session : list WebSocket) (sent1 : list Sent) :
  _session g = Some session → destroy_replaced g = false →
  destroy g rs = Ok (g1, rs1, sent1) →
  (∀ q, q ∈ session → ¬ still_open (rs1 q))
  ∧ (∀ q, q ∉ session → rs1 q = rs q)
  ∧ (∀ q, rs1 q = rs q ∨ rs1 q = CLOSING).
Proof.
  intros Hsession Hfresh Hrun. unfold destroy in Hrun.
  rewrite Hfresh, Hsession in Hrun.
  pose proof (destroy_loop_states session rs []) as Hloop. cbn zeta in Hloop.
  destruct (foldl _ _ session) as [rs' sent']. injection Hrun as _ <- _.
  exact Hloop.
Qed.

Lemma destroy_closes_session_witness :
  _session two_players = Some [1%nat; 2%nat]
  ∧ destroy_replaced two_players = false
  ∧ ∃ g1 rs1 sent1,
      destroy two_players (λ _, OPEN) = Ok (g1, rs1, sent1)
      ∧ 2%nat ∈ [1%nat; 2%nat] ∧ ¬ still_open (rs1 2%nat).
Proof.
  assert (Hsession : _session two_players = Some [1%nat; 2%nat])
    by (vm_compute; reflexivity).
  assert (Hfresh : destroy_replaced two_players = false)
    by (vm_compute; reflexivity).
  split; [exact Hsession|]. split; [exact Hfresh|].
  destruct (destroy_runs two_players (λ _, OPEN) [1%nat; 2%nat]
              Hsession Hfresh) as (g1 & rs1 & sent1 & Hrun).
  exists g1, rs1, sent1. split; [exact Hrun|].
  destruct (destroy_closes_session _ _ _ _ _ _ Hsession Hfresh Hrun)
    as (Hclosed & _).
  split; [right; left|]. apply Hclosed. right. left.
Defined.

(** ** After a win *)

Lemma scores_after_keeps_win (playersState : gmap WebSocket number)
    (player q : WebSocket) (m : PlayerState) :
  0 ≤ dice_total m → number_wins (score_of playersState q) = true →
  number_wins (score_of (scores_after playersState player m) q) = true.
Proof.
  intros Hd Hwin. unfold scores_after, score_of.
  destruct (decide (player = q)) as [->|Hne].
  - rewrite lookup_insert_eq. cbn. unfold score_of in Hwin.
    destruct (default NaN (playersState !! q)) as [z|]; [|discriminate].
    cbn in *. unfold _checkWin, win_threshold, dice_total in *.
    apply bool_decide_eq_true in Hwin. apply bool_decide_eq_true. lia.
  - rewrite lookup_insert_ne by exact Hne. exact Hwin.
Qed.

(** ** The client's moves *)

Lemma client_onCell_keeps (st : Client.State) (cell : Client.Target) :
  Client.sum (Client.onCell st cell).1 = Client.sum st
  ∧ Client.dices (Client.onCell st cell).1 = Client.dices st
  ∧ Client.color (Client.onCell st cell).1 = Client.color st
  ∧ ∀ m, (Client.onCell st cell).2 = Some m →
         m = (Client.onCell st cell).1
         ∧ Client.moved m = false ∧ Client.moved st = true
         ∧ Client.dices st ≠ []
         ∧ Client.from m = Client.from st
         ∧ Client.to m = {| row := Client.cellRow cell; col := Client.cellCol cell |}.
Proof.
  assert (Hnone : ∀ st' : Client.State,
            Client.sum st' = Client.sum st → Client.dices st' = Client.dices st →
            Client.color st' = Client.color st →
            Client.sum (st', @None Client.State).1 = Client.sum st
            ∧ Client.dices (st', @None Client.State).1 = Client.dices st
            ∧ Client.color (st', @None Client.State).1 = Client.color st
            ∧ ∀ m, (st', @None Client.State).2 = Some m →
                   m = (st', @None Client.State).1
                   ∧ Client.moved m = false ∧ Client.moved st = true
                   ∧ Client.dices st ≠ []
                   ∧ Client.from m = Client.from st
                   ∧ Client.to m = {| row := Client.cellRow cell;
                                      col := Client.cellCol cell |}).
  { intros st' H1 H2 H3. split; [exact H1|]. split; [exact H2|].
    split; [exact H3|]. intros m' Hm'. discriminate Hm'. }
  unfold Client.onCell.
  destruct (bool_decide_reflect (List.length (Client.dices st) = 0%nat)) as [Hd|Hd];
    [apply Hnone; reflexivity|].
  assert (Hne : Client.dices st ≠ []) by (intros H; apply Hd; rewrite H; reflexivity).
  destruct (Client.isNumber cell); [apply Hnone; reflexivity|].
  destruct (_ || _); [apply Hnone; reflexivity|].
  destruct (Client.moved st) eqn:Hmoved; cbn [negb andb].
  - rewrite andb_true_r.
    destruct (_ || _); [|apply Hnone; reflexivity].
    cbn. split; [reflexivity|]. split; [reflexivity|]. split; [reflexivity|].
    intros m' [= <-]. cbn. repeat split; auto.
  - rewrite andb_false_r, orb_false_r.
    destruct (bool_decide (Client.cellColorClass cell = "default__cell"%string));
      destruct (bool_decide (Client.cellColorClass cell = "free__cell"%string));
      cbn [orb]; apply Hnone; reflexivity.
Qed.

Lemma client_handle_invariant (events : list Client.Event) (st : Client.State) :
  Client.sum st = 0 →
  (Client.dices st = [] ∨ ∃ d0 d1, Client.dices st = [d0; d1]) →
  Client.sum (Client.handle st events).1 = 0
  ∧ ∀ m, m ∈ (Client.handle st events).2 →
         Client.sum m = 0 ∧ Client.moved m = false
         ∧ ∃ d0 d1, Client.dices m = [d0; d1].
Proof.
  revert st. induction events as [|[d0 d1|cell|myTurn color'] events IH];
    intros st Hsum Hdices.
  - cbn. split; [exact Hsum|]. intros m Hm. apply elem_of_nil in Hm. contradiction.
  - cbn [Client.handle]. apply IH; [exact Hsum|]. right. eauto.
  - cbn [Client.handle].
    destruct (client_onCell_keeps st cell) as (Hs & Hd & _ & Hhanded).
    destruct (Client.onCell st cell) as [st' handed]. cbn [fst snd] in *.
    specialize (IH st'). rewrite Hs, Hd in IH.
    specialize (IH Hsum Hdices). destruct IH as [Hfinal Hmoves].
    destruct (Client.handle st' events) as [final moves]. cbn [fst snd] in *.
    split; [exact Hfinal|]. intros m Hm. apply elem_of_app in Hm as [Hm|Hm];
      [|apply Hmoves, Hm].
    destruct handed as [m'|]; cbn in Hm; [|apply elem_of_nil in Hm; contradiction].
    apply list_elem_of_singleton in Hm as ->.
    destruct (Hhanded m' eq_refl) as (-> & Hmoved & _ & Hne & _).
    split; [congruence|]. split; [exact Hmoved|].
    rewrite Hd. destruct Hdices as [Hnil|Hpair]; [contradiction | exact Hpair].
  - cbn [Client.handle]. apply IH; [exact Hsum|].
    cbn. destruct myTurn; [left; reflexivity | exact Hdices].
Qed.

(** X16. The game screen of the client, from its initial state and
    through any sequence of dice clicks, cell clicks and server updates:
    never changes the [sum] field, and hands a move to the turn handler
    only with [sum = 0], [moved = false] and exactly two dice.  With dice
    rolled and no click pending, a click on an unclaimed cell only records
    [from], and the next click on an unclaimed cell hands over the move
    with that [from] and this [to] (its own cell included). *)
Theorem client_moves (events : list Client.Event) :
  Client.sum (Client.handle Client.initial events).1 = 0
  ∧ (∀ m, m ∈ (Client.handle Client.initial events).2 →
          Client.sum m = 0 ∧ Client.moved m = false
          ∧ ∃ d0 d1, Client.dices m = [d0; d1])
  ∧ (∀ st r1 c1 r2 c2,
       Client.dices st ≠ [] → Client.moved st = false →
       Client.onCell st {| Client.cellRow := r1; Client.cellCol := c1;
                           Client.cellColorClass := "default__cell";
                           Client.isNumber := false |}
       = ({| Client.from := {| row := r1; col := c1 |};
             Client.to := Client.to st; Client.color := Client.color st;
             Client.moved := true; Client.sum := Client.sum st;
             Client.dices := Client.dices st |}, None)
       ∧ (Client.onCell
            (Client.onCell st {| Client.cellRow := r1; Client.cellCol := c1;
                                 Client.cellColorClass := "default__cell";
                                 Client.isNumber := false |}).1
            {| Client.cellRow := r2; Client.cellCol := c2;
               Client.cellColorClass := "default__cell";
               Client.isNumber := false |}).2
         = Some {| Client.from := {| row := r1; col := c1 |};
                   Client.to := {| row := r2; col := c2 |};
                   Client.color := Client.color st;
                   Client.moved := false; Client.sum := Client.sum st;
                   Client.dices := Client.dices st |}).
Proof.
  destruct (client_handle_invariant events Client.initial eq_refl
              (or_introl eq_refl)) as [Hfinal Hmoves].
  split; [exact Hfinal|]. split; [exact Hmoves|].
  intros st r1 c1 r2 c2 Hd Hmoved.
  destruct st as [f t c mv s d]. cbn in Hd, Hmoved. subst mv.
  destruct d as [|x d]; [contradiction|]. split; reflexivity.
Qed.

Lemma client_moves_witness :
  (∀ m, m ∈ (Client.handle Client.initial
               [Client.Update true "b"; Client.Dice 2 4;
                Client.Cell {| Client.cellRow := 29; Client.cellCol := 29;
                               Client.cellColorClass := "default__cell";
                               Client.isNumber := false |};
                Client.Cell {| Client.cellRow := 28; Client.cellCol := 27;
                               Client.cellColorClass := "default__cell";
                               Client.isNumber := false |}]).2 →
        Client.sum m = 0 ∧ Client.moved m = false
        ∧ ∃ d0 d1, Client.dices m = [d0; d1])
  ∧ (Client.handle Client.initial
       [Client.Update true "b"; Client.Dice 2 4;
        Client.Cell {| Client.cellRow := 29; Client.cellCol := 29;
                       Client.cellColorClass := "default__cell";
                       Client.isNumber := false |};
        Client.Cell {| Client.cellRow := 28; Client.cellCol := 27;
                       Client.cellColorClass := "default__cell";
                       Client.isNumber := false |}]).2
    = [{| Client.from := {| row := 29; col := 29 |};
          Client.to := {| row := 28; col := 27 |};
          Client.color := "b"; Client.moved := false; Client.sum := 0;
          Client.dices := [2; 4] |}].
Proof.
  split; [|reflexivity].
  destruct (client_moves
              [Client.Update true "b"; Client.Dice 2 4;
               Client.Cell {| Client.cellRow := 29; Client.cellCol := 29;
                              Client.cellColorClass := "default__cell";
                              Client.isNumber := false |};
               Client.Cell {| Client.cellRow := 28; Client.cellCol := 27;
                              Client.cellColorClass := "default__cell";
                              Client.isNumber := false |}])
    as (_ & Hmoves & _).
  exact Hmoves.
Defined.

(** X17. Every move this client hands to its turn handler reaches the
    server with [sum = 0], so the server never takes it without the
    checks: sent by the participant whose turn it is in a live game, it is
    accepted iff the checks succeed, and when they fail the mover gets
    'wrong move' and the game is as it was. *)
Theorem client_moves_are_checked (events : list Client.Event)
    (m : Client.State) (g : Game) (player : WebSocket) :
  m ∈ (Client.handle Client.initial events).2 →
  live g → _currentMove g = Some player →
  sum (as_received m) = 0
  ∧ (∃ d0 d1, Client.dices m = [d0; d1] ∧ dices (as_received m) = (d0, d1))
  ∧ (accepted (_onPlayerMove g player (as_received m)) = true
     ↔ validation (_gameField g) (as_received m) = Ok true)
  ∧ (validation (_gameField g) (as_received m) = Ok false →
     _onPlayerMove g player (as_received m)
     = Ok (g, [(player, incorrectRequest' "wrong move")])).
Proof.
  intros Hm Hlive Hturn.
  destruct (client_handle_invariant events Client.initial eq_refl
              (or_introl eq_refl)) as [_ Hmoves].
  destruct (Hmoves m Hm) as (Hsum & _ & d0 & d1 & Hd).
  assert (Hsum' : sum (as_received m) = 0) by exact Hsum.
  split; [exact Hsum'|]. split.
  { exists d0, d1. split; [exact Hd|]. unfold as_received. cbn. rewrite Hd.
    reflexivity. }
  split; [split|].
  - intros Hacc. apply accepted_settled in Hacc as (_ & _ & _ & Hv); auto.
  - apply valid_move_accepted; assumption.
  - intros Hvalid. rewrite (onPlayerMove_checked _ _ _ Hturn Hsum'), Hvalid.
    reflexivity.
Qed.

Lemma client_moves_are_checked_witness :
  {| Client.from := {| row := 0; col := 0 |};
     Client.to := {| row := 2; col := 1 |};
     Client.color := "r"; Client.moved := false; Client.sum := 0;
     Client.dices := [2; 4] |}
  ∈ (Client.handle Client.initial
       [Client.Update true "r"; Client.Dice 2 4;
        Client.Cell {| Client.cellRow := 0; Client.cellCol := 0;
                       Client.cellColorClass := "default__cell";
                       Client.isNumber := false |};
        Client.Cell {| Client.cellRow := 2; Client.cellCol := 1;
                       Client.cellColorClass := "default__cell";
                       Client.isNumber := false |}]).2
  ∧ live two_players
  ∧ _currentMove two_players = Some 1%nat
  ∧ (accepted
       (_onPlayerMove two_players 1%nat
          (as_received
             {| Client.from := {| row := 0; col := 0 |};
                Client.to := {| row := 2; col := 1 |};
                Client.color := "r"; Client.moved := false; Client.sum := 0;
                Client.dices := [2; 4] |})) = true
     ↔ validation (_gameField two_players)
         (as_received
            {| Client.from := {| row := 0; col := 0 |};
               Client.to := {| row := 2; col := 1 |};
               Client.color := "r"; Client.moved := false; Client.sum := 0;
               Client.dices := [2; 4] |}) = Ok true).
Proof.
  assert (Hm : {| Client.from := {| row := 0; col := 0 |};
                  Client.to := {| row := 2; col := 1 |};
                  Client.color := "r"; Client.moved := false; Client.sum := 0;
                  Client.dices := [2; 4] |}
               ∈ (Client.handle Client.initial
                    [Client.Update true "r"; Client.Dice 2 4;
                     Client.Cell {| Client.cellRow := 0; Client.cellCol := 0;
                                    Client.cellColorClass := "default__cell";
                                    Client.isNumber := false |};
                     Client.Cell {| Client.cellRow := 2; Client.cellCol := 1;
                                    Client.cellColorClass := "default__cell";
                                    Client.isNumber := false |}]).2)
    by (cbn; left).
  assert (Hturn : _currentMove two_players = Some 1%nat)
    by (vm_compute; reflexivity).
  split; [exact Hm|]. split; [exact two_players_live|]. split; [exact Hturn|].
  destruct (client_moves_are_checked _ _ two_players 1%nat Hm
              two_players_live Hturn) as (_ & _ & Hiff & _).
  exact Hiff.
Defined.

(** * Moves, turns, scores and errors *)

(** ** The checks on the 30x30 board *)






(** ** The anchor corner *)

Lemma isFieldEmpty_grid (f : Field) : grid f → ∃ b, _isFieldEmpty f = Ok b.
Proof.
  intros Hgrid. unfold _isFieldEmpty, and_then.
  rewrite !cell_is_grid by (exact Hgrid || lia). cbn.
  repeat match goal with |- context [is_default_at f ?i ?j] =>
    destruct (is_default_at f i j); cbn end; eexists; reflexivity.
Qed.

(** Once a corner is claimed, the anchor that is resolved is the empty
    array or one of the four corners. *)
Lemma resolve_anchor_shape (f : Field) (m : PlayerState) (anchor : list Z) :
  _isFieldEmpty f = Ok false → resolve_anchor f m = Ok anchor →
  anchor = [] ∨ ∃ ar ac, anchor = [ar; ac] ∧ is_corner ar ac.
Proof.
  intros Hempty. unfold resolve_anchor. rewrite Hempty. cbn.
  destruct (_isCornerEmpty f) as [[|]|]; cbn; [| |discriminate].
  - unfold _findFirstMove.
    destruct (cell_isnt f 0 0 default__cell) as [[|]|]; cbn; try discriminate;
    destruct (cell_isnt f 0 29 default__cell) as [[|]|]; cbn; try discriminate;
    destruct (cell_isnt f 29 0 default__cell) as [[|]|]; cbn; try discriminate;
    destruct (cell_isnt f 29 29 default__cell) as [[|]|]; cbn; try discriminate;
    intros [= <-]; first [left; reflexivity
                         | right; eexists _, _; split; [reflexivity|];
                           unfold is_corner; lia].
  - unfold _findCurrentMove. cbv zeta.
    destruct (cell_is f 0 0 _) as [[|]|]; cbn; try discriminate;
    destruct (cell_is f 0 29 _) as [[|]|]; cbn; try discriminate;
    destruct (cell_is f 29 0 _) as [[|]|]; cbn; try discriminate;
    destruct (cell_is f 29 29 _) as [[|]|]; cbn; try discriminate;
    intros [= <-]; first [left; reflexivity
                         | right; eexists _, _; split; [reflexivity|];
                           unfold is_corner; lia].
Qed.

(** ** The verdict of the checks *)

(** On the 30x30 board the checks pass exactly the legal moves. *)
Lemma validation_legal (f : Field) (m : PlayerState) :
  grid f → validation f m = Ok true ↔ legal f m.
Proof.
  intros Hgrid. destruct (isFieldEmpty_grid f Hgrid) as ([|] & Hempty).
  - assert (Hanchor : resolve_anchor f m = Ok [row (from m); col (from m)])
      by (unfold resolve_anchor; rewrite Hempty; reflexivity).
    rewrite (validation_first_move _ _ Hempty).
    rewrite (checkFirstMove_true f _ _ _ _ _ (grid_on_board _ Hgrid)).
    fold (dice_total m). split.
    + intros (Hcorner & Hreach & Hrect).
      exists (row (from m)), (col (from m)).
      split; [exact Hanchor|]. split; [exact Hcorner|].
      split; [|split; assumption]. unfold start_cell.
      destruct (is_default_at f (row (from m)) (col (from m))) eqn:Hdefault;
        [auto|].
      assert (Hcell : is_default_at f (row (from m)) (col (from m)) = true).
      { apply is_default_at_true, Hrect. unfold in_rect. lia. }
      congruence.
    + intros (ar & ac & Hresolved & Hcorner & _ & Hreach & Hrect).
      rewrite Hanchor in Hresolved. injection Hresolved as <- <-. auto.
  - split.
    + intros Hvalid.
      destruct (validation_true _ _ Hvalid) as (anchor & Hanchor & Hreach & _).
      destruct (resolve_anchor_shape f m anchor Hempty Hanchor)
        as [->|(ar & ac & -> & Hcorner)].
      * destruct Hreach as (s1 & s2 & p & Hsigns & _). discriminate Hsigns.
      * exists ar, ac. split; [exact Hanchor|]. split; [exact Hcorner|].
        unfold validation in Hvalid. rewrite Hempty in Hvalid. cbn in Hvalid.
        rewrite Hanchor in Hvalid. cbn in Hvalid.
        apply checkMove_grid in Hvalid;
          [exact Hvalid | exact Hgrid | unfold is_corner in Hcorner; lia].
    + intros (ar & ac & Hanchor & Hcorner & Hlegal).
      unfold validation. rewrite Hempty. cbn. rewrite Hanchor. cbn.
      apply checkMove_grid;
        [exact Hgrid | unfold is_corner in Hcorner; lia | exact Hlegal].
Qed.


(** ** Which moves are accepted *)

Lemma checked_move_accepted (g : Game) (player : WebSocket) (m : PlayerState) :
  live g → _currentMove g = Some player → sum m = 0 →
  accepted (_onPlayerMove g player m) = true
  ↔ validation (_gameField g) m = Ok true.
Proof.
  intros Hlive Hturn Hsum. split.
  - intros Hacc.
    destruct (accepted_settled g player m Hlive Hacc) as (_ & _ & _ & Hvalid).
    apply Hvalid, Hsum.
  - apply valid_move_accepted; assumption.
Qed.

Lemma accepted_iff (g : Game) (player : WebSocket) (m : PlayerState) :
  live g → grid (_gameField g) →
  accepted (_onPlayerMove g player m) = true
  ↔ _currentMove g = Some player ∧ (sum m ≠ 0 ∨ legal (_gameField g) m).
Proof.
  intros Hlive Hgrid. split.
  - intros Hacc.
    destruct (accepted_settled g player m Hlive Hacc) as (Hturn & _ & _ & Hvalid).
    split; [exact Hturn|].
    destruct (decide (sum m = 0)) as [Hsum|Hsum]; [|left; exact Hsum].
    right. apply validation_legal; auto.
  - intros [Hturn Hgo].
    destruct (decide (sum m = 0)) as [Hsum|Hsum].
    + apply checked_move_accepted; [assumption..|].
      apply validation_legal; [exact Hgrid|]. destruct Hgo; [contradiction|].
      assumption.
    + rewrite (onPlayerMove_unchecked _ _ _ Hturn Hsum).
      apply settle_accepted, Hlive.
Qed.


Lemma divisor_pair_6 : divisor_pair 6 (2, 1).
Proof.
  exists 3. split; [lia|]. split; [exists 2; reflexivity | reflexivity].
Qed.




(** ** Unchecked moves *)

Lemma next_mover_other_seat (a b player : WebSocket) :
  a ≠ b → player ∈ [a; b] →
  next_mover [a; b] player = other_seat a b player
  ∧ other_seat a b player ∈ [a; b] ∧ other_seat a b player ≠ player.
Proof.
  intros Hab Hin.
  destruct (next_mover_pair a b player Hab Hin) as (Hmem & Hne & Ha & Hb).
  assert (Heq : next_mover [a; b] player = other_seat a b player).
  { unfold other_seat. case_decide as Hp; [apply Ha, Hp|]. apply Hb.
    apply elem_of_cons in Hin as [->|Hin]; [contradiction|].
    apply list_elem_of_singleton in Hin. exact Hin. }
  rewrite <- Heq. auto.
Qed.

Lemma checkWin_threshold (z : Z) : number_wins (Num z) = bool_decide (450 ≤ z).
Proof.
  cbn. unfold _checkWin, win_threshold. apply bool_decide_ext. lia.
Qed.

Lemma scores_after_lookup (playersState : gmap WebSocket number)
    (player q : WebSocket) (m : PlayerState) (z : Z) :
  playersState !! q = Some (Num z) →
  scores_after playersState player m !! q
  = Some (Num (settled_score player q z m)).
Proof.
  intros Hq. unfold scores_after, settled_score, score_of.
  case_decide as Hp.
  - subst q. rewrite lookup_insert_eq, Hq. reflexivity.
  - rewrite lookup_insert_ne by congruence. exact Hq.
Qed.

Lemma safe_small (z : Z) : -1000 ≤ z ≤ 1000 → safe z.
Proof. unfold safe. intros Hz. change (2 ^ 53) with 9007199254740992. lia. Qed.

(** C9. In a session of two distinct participants with integer scores,
    for every [playerMove] of the participant whose turn it is whose [sum]
    field is not [0], whatever its cells and whether or not it is legal,
    with integer dice for which [score + dices[0] + dices[1]] stays within
    the integers a double holds exactly: the handler returns; the board is
    as it was; the sender's score is the old one plus [dices[0]] plus
    [dices[1]] and the other score is as it was; the turn is with the
    other participant; and the win check has run on the new scores: when
    one of them is at least 450 both participants get a [gameResult] with
    their own flag, otherwise the two [changePlayer] messages are sent.
    The outcome does not depend on the move's [from] and [to]. *)
Theorem nonzero_sum_skips_checks (g : Game) (a b player : WebSocket)
    (m : PlayerState) (playersState : gmap WebSocket number) (za zb : Z) :
  _session g = Some [a; b] → a ≠ b → player ∈ [a; b] →
  _currentMove g = Some player → sum m ≠ 0 →
  _playersState g = Some playersState →
  playersState !! a = Some (Num za) → playersState !! b = Some (Num zb) →
  exact_sum (if decide (player = a) then za else zb) (dices m).1 (dices m).2 →
  (∃ g' sent scores,
     _onPlayerMove g player m = Ok (g', sent)
     ∧ _gameField g' = _gameField g
     ∧ _session g' = Some [a; b]
     ∧ _playersState g' = Some scores
     ∧ scores !! a = Some (Num (settled_score player a za m))
     ∧ scores !! b = Some (Num (settled_score player b zb m))
     ∧ _currentMove g' = Some (other_seat a b player)
     ∧ sent
       = if decide (450 ≤ settled_score player a za m
                    ∨ 450 ≤ settled_score player b zb m)
         then [(a, gameResult (bool_decide (450 ≤ settled_score player a za m)));
               (b, gameResult (bool_decide (450 ≤ settled_score player b zb m)))]
         else [(other_seat a b player,
                changePlayer true (_gameField g)
                  (if bool_decide (color m = "r"%string) then "b" else "r")%string);
               (player, changePlayer false (_gameField g) (color m))])
  ∧ other_seat a b player ∈ [a; b]
  ∧ other_seat a b player ≠ player
  ∧ (∀ m', sum m' ≠ 0 → dices m' = dices m → color m' = color m →
           _onPlayerMove g player m' = _onPlayerMove g player m).
Proof.
  intros Hsession Hab Hin Hturn Hsum Hps Ha Hb _.
  destruct (next_mover_other_seat a b player Hab Hin) as (Hnext & Hmem & Hne).
  pose proof (scores_after_lookup playersState player a m za Ha) as Ha'.
  pose proof (scores_after_lookup playersState player b m zb Hb) as Hb'.
  split; [|split; [exact Hmem|split; [exact Hne|]]].
  - exists {| _session := Some [a; b];
              _playersState := Some (scores_after playersState player m);
              _gameField := _gameField g;
              _currentMove := Some (next_mover [a; b] player);
              destroy_replaced := destroy_replaced g |}.
    eexists. exists (scores_after playersState player m).
    rewrite (onPlayerMove_unchecked _ _ _ Hturn Hsum).
    split; [apply (settle_live _ _ _ _ _ _ Hps Hsession)|].
    cbn [_gameField _session _playersState _currentMove].
    split; [reflexivity|]. split; [reflexivity|]. split; [reflexivity|].
    split; [exact Ha'|]. split; [exact Hb'|]. split; [rewrite Hnext; reflexivity|].
    unfold some_win, score_of. cbn [foldl map]. rewrite Ha', Hb'.
    cbn [from_option id orb]. rewrite !checkWin_threshold, Hnext.
    case_decide as Hwin.
    + destruct Hwin as [Hwin|Hwin].
      * rewrite (bool_decide_eq_true_2 _ Hwin). reflexivity.
      * rewrite (bool_decide_eq_true_2 (450 ≤ settled_score player b zb m) Hwin).
        rewrite orb_true_r. reflexivity.
    + rewrite !bool_decide_eq_false_2 by tauto. reflexivity.
  - intros m' Hsum' Hdices Hcolor.
    rewrite !onPlayerMove_unchecked by assumption.
    rewrite !(settle_live _ _ _ _ _ _ Hps Hsession).
    unfold scores_after. rewrite Hdices, Hcolor. reflexivity.
Qed.

(** On a fresh game the first participant's move from [(5,5)] to
    [(20,20)] with dice [2,4] and [sum = 3] is not legal; the handler
    returns, the board is as it was, the score goes from [0] to [6], the
    turn to the second participant, and the two [changePlayer] messages
    are sent. *)
Lemma nonzero_sum_skips_checks_witness :
  _session two_players = Some [1%nat; 2%nat]
  ∧ _currentMove two_players = Some 1%nat
  ∧ sum (mkMove 5 5 20 20 "r" 3 2 4) ≠ 0
  ∧ _playersState two_players = Some {[1%nat := Num 0; 2%nat := Num 0]}
  ∧ exact_sum 0 2 4
  ∧ ¬ legal (_gameField two_players) (mkMove 5 5 20 20 "r" 3 2 4)
  ∧ ∃ g' sent scores,
      _onPlayerMove two_players 1%nat (mkMove 5 5 20 20 "r" 3 2 4) = Ok (g', sent)
      ∧ _gameField g' = _gameField two_players
      ∧ _playersState g' = Some scores
      ∧ scores !! 1%nat = Some (Num 6)
      ∧ scores !! 2%nat = Some (Num 0)
      ∧ _currentMove g' = Some 2%nat
      ∧ sent = [(2%nat, changePlayer true (_gameField two_players) "b");
                (1%nat, changePlayer false (_gameField two_players) "r")].
Proof.
  assert (Hsession : _session two_players = Some [1%nat; 2%nat])
    by (vm_compute; reflexivity).
  assert (Hturn : _currentMove two_players = Some 1%nat)
    by (vm_compute; reflexivity).
  assert (Hsum : sum (mkMove 5 5 20 20 "r" 3 2 4) ≠ 0) by (cbn; lia).
  assert (Hps : _playersState two_players
                = Some {[1%nat := Num 0; 2%nat := Num 0]})
    by (vm_compute; reflexivity).
  assert (Hexact : exact_sum 0 2 4)
    by (repeat split; apply safe_small; lia).
  split; [exact Hsession|]. split; [exact Hturn|]. split; [exact Hsum|].
  split; [exact Hps|]. split; [exact Hexact|]. split.
  { intros (ar & ac & Hanchor & Hcorner & _).
    assert (Hfrom : resolve_anchor (_gameField two_players)
                      (mkMove 5 5 20 20 "r" 3 2 4) = Ok [5; 5])
      by (vm_compute; reflexivity).
    rewrite Hfrom in Hanchor. injection Hanchor as <- <-.
    unfold is_corner in Hcorner. lia. }
  destruct (nonzero_sum_skips_checks two_players 1%nat 2%nat 1%nat
              (mkMove 5 5 20 20 "r" 3 2 4)
              {[1%nat := Num 0; 2%nat := Num 0]} 0 0
              Hsession ltac:(lia) ltac:(left) Hturn Hsum Hps eq_refl eq_refl
              Hexact)
    as ((g' & sent & scores & Hrun & Hfield & _ & Hscores & H1 & H2 & Hnext
         & Hsent) & _).
  exists g', sent, scores.
  split; [exact Hrun|]. split; [exact Hfield|]. split; [exact Hscores|].
  split; [exact H1|]. split; [exact H2|]. split; [exact Hnext|]. exact Hsent.
Defined.

(** ** The turn after a message *)

Lemma settle_NaN_accepted (g : Game) (gameField : Field) (currentPlayer : WebSocket)
    (m : PlayerState) :
  live g → accepted (settle_NaN g gameField currentPlayer m) = true.
Proof.
  intros [[session Hsession] [playersState Hps]].
  rewrite (settle_NaN_live _ _ _ _ _ _ Hps Hsession). cbn [accepted].
  destruct (some_win _ session); [|reflexivity].
  generalize (<[currentPlayer := NaN]> playersState). clear.
  intros scores. induction session as [|q session IH]; [reflexivity | exact IH].
Qed.

Lemma settle_passes_turn (session : list WebSocket) (g : Game) (field : Field)
    (player : WebSocket) (m : PlayerState) :
  in_session session g → _currentMove g = Some player →
  passes_turn session g player (settle g field player m).
Proof.
  intros Hin Hturn. pose proof (in_session_live _ _ Hin) as Hlive. right.
  split; [apply settle_accepted, Hlive|]. split; [exact Hturn|].
  destruct Hin as (Hsession & _ & _ & _ & ps & Hps & _).
  rewrite (settle_live _ _ _ _ _ _ Hps Hsession). reflexivity.
Qed.

Lemma settle_NaN_passes_turn (session : list WebSocket) (g : Game) (field : Field)
    (player : WebSocket) (m : PlayerState) :
  in_session session g → _currentMove g = Some player →
  passes_turn session g player (settle_NaN g field player m).
Proof.
  intros Hin Hturn. pose proof (in_session_live _ _ Hin) as Hlive. right.
  split; [apply settle_NaN_accepted, Hlive|]. split; [exact Hturn|].
  destruct Hin as (Hsession & _ & _ & _ & ps & Hps & _).
  rewrite (settle_NaN_live _ _ _ _ _ _ Hps Hsession). reflexivity.
Qed.

Lemma onPlayerMove_passes_turn (session : list WebSocket) (g : Game)
    (player : WebSocket) (m : PlayerState) :
  in_session session g →
  passes_turn session g player (_onPlayerMove g player m).
Proof.
  intros Hin. pose proof (in_session_live _ _ Hin) as Hlive.
  destruct (onPlayerMove_outcome g player m Hlive)
    as [Hrej|[(-> & _)|(Hturn & field & -> & _)]].
  - left. apply (rejected_not_accepted _ _ _ Hrej).
  - left. split; reflexivity.
  - apply settle_passes_turn; assumption.
Qed.

Lemma onPlayerMove_lacking_passes_turn (session : list WebSocket) (g : Game)
    (player : WebSocket) (missing : Missing) (m : PlayerState) :
  in_session session g →
  passes_turn session g player (_onPlayerMove_lacking g player missing m).
Proof.
  intros Hin. unfold _onPlayerMove_lacking.
  destruct (bool_decide_reflect (_currentMove g ≠ Some player)) as [Hturn|Hturn];
    [left; split; reflexivity|].
  assert (Hcur : _currentMove g = Some player)
    by (destruct (decide (_currentMove g = Some player)); [assumption|contradiction]).
  destruct missing.
  - left. split; reflexivity.
  - rewrite checked_field_without_cells_throws.
    destruct (bool_decide (sum m = 0)); cbn; [left; split; reflexivity|].
    apply settle_passes_turn; assumption.
  - destruct (checked_field (_gameField g) (without_dice m)) as [[field|]|]; cbn.
    + apply settle_NaN_passes_turn; assumption.
    + left. split; reflexivity.
    + left. split; reflexivity.
Qed.

(** From a started game of two participants, an accepted move is followed
    directly only by a move of the other participant; and the first move
    of the order of play is by the participant whose turn it is. *)
Lemma history_alternates (a b : WebSocket) (events : list (WebSocket * Payload)) :
  a ≠ b → ∀ g, in_session [a; b] g →
  alternates (history g events)
  ∧ ∀ p, head (history g events) = Some (moveBy p) → _currentMove g = Some p.
Proof.
  intros Hab. induction events as [|[player data] events IH]; intros g Hin.
  { split; [intros i p q Hi; discriminate Hi | intros p Hp; discriminate Hp]. }
  pose proof (on_message_in_session _ g player data Hin) as Hin'.
  destruct (IH _ Hin') as [Halt Hhead]. cbn [history].
  assert (Hmove : ∀ r, on_message g player data = r → passes_turn [a; b] g player r →
            alternates ((if accepted r then [moveBy player] else [])
                        ++ history (state_after g r) events)
            ∧ ∀ p, head ((if accepted r then [moveBy player] else [])
                         ++ history (state_after g r) events) = Some (moveBy p) →
                   _currentMove g = Some p).
  { intros r <- [[Hno Hsame]|(Hacc & Hturn & Hnext)].
    - rewrite Hno. cbn [app]. rewrite Hsame in Halt, Hhead |- *. auto.
    - rewrite Hacc. cbn [app]. split.
      + intros [|i] p q Hp Hq.
        * injection Hp as <-. cbn in Hq.
          assert (Hq' : head (history (state_after g (on_message g player data))
                                events) = Some (moveBy q))
            by (rewrite <- Hq; apply head_lookup).
          apply Hhead in Hq'. rewrite Hnext in Hq'. injection Hq' as <-.
          assert (Hmem : player ∈ [a; b]).
          { destruct Hin as (_ & _ & _ & Hmem & _). apply Hmem, Hturn. }
          destruct (next_mover_pair a b player Hab Hmem) as (_ & Hne & _).
          congruence.
        * apply (Halt i p q Hp Hq).
      + intros p [= <-]. exact Hturn. }
  assert (Hstay : state_after g (on_message g player data) = g →
            alternates (history (state_after g (on_message g player data)) events)
            ∧ ∀ p, head (history (state_after g (on_message g player data)) events)
                   = Some (moveBy p) → _currentMove g = Some p).
  { intros Hsame. rewrite Hsame in Halt, Hhead |- *. auto. }
  unfold entry.
  destruct (_parseMessage data) as [m| |text|text|type|missing m|] eqn:Hdata.
  - apply Hmove; [reflexivity|]. unfold on_message. rewrite Hdata.
    apply onPlayerMove_passes_turn, Hin.
  - cbn [app]. split; [|intros p Hp; discriminate Hp].
    intros [|i] p q Hp Hq; [discriminate Hp|]. apply (Halt i p q Hp Hq).
  - apply Hstay. unfold on_message. rewrite Hdata. reflexivity.
  - apply Hstay. unfold on_message. rewrite Hdata. reflexivity.
  - apply Hstay. unfold on_message. rewrite Hdata. reflexivity.
  - apply Hmove; [reflexivity|]. unfold on_message. rewrite Hdata.
    apply onPlayerMove_lacking_passes_turn, Hin.
  - apply Hstay. unfold on_message. rewrite Hdata. reflexivity.
Qed.

(** C4 (amended). In a started game of two distinct participants on the
    30x30 board: a [playerMove] is accepted exactly when it comes from the
    participant whose turn it is and is either unchecked ([sum] not [0])
    or legal; after an accepted move the turn is with the other
    participant; a [playerMove] of a participant whose turn it is not gets
    the single reply 'Not your turn' and leaves the game as it was; and in
    the order of play of any sequence of messages, two accepted moves with
    no restart between them that follow each other directly are never of
    the same participant. *)
Theorem turn_alternates (g : Game) (a b : WebSocket) :
  in_session [a; b] g → a ≠ b →
  (∀ player m,
     accepted (_onPlayerMove g player m) = true
     ↔ _currentMove g = Some player ∧ (sum m ≠ 0 ∨ legal (_gameField g) m))
  ∧ (∀ player m,
       accepted (_onPlayerMove g player m) = true →
       player ∈ [a; b]
       ∧ other_seat a b player ∈ [a; b]
       ∧ other_seat a b player ≠ player
       ∧ _currentMove (state_after g (_onPlayerMove g player m))
         = Some (other_seat a b player))
  ∧ (∀ player m,
       _currentMove g ≠ Some player →
       _onPlayerMove g player m
       = Ok (g, [(player, incorrectRequest' "Not your turn")]))
  ∧ (∀ events, alternates (history g events)).
Proof.
  intros Hin Hab. pose proof (in_session_live _ _ Hin) as Hlive.
  pose proof Hin as (_ & _ & Hgrid & Hmember & _).
  split; [|split; [|split]].
  - intros player m. apply accepted_iff; assumption.
  - intros player m Hacc.
    destruct (onPlayerMove_passes_turn _ g player m Hin)
      as [[Hno _]|(_ & Hturn & Hnext)]; [congruence|].
    pose proof (Hmember _ Hturn) as Hmem.
    destruct (next_mover_other_seat a b player Hab Hmem) as (Heq & Hother & Hne).
    rewrite <- Heq at 3. auto.
  - intros player m. apply onPlayerMove_out_of_turn.
  - intros events. apply (history_alternates a b events Hab g Hin).
Qed.

(** On a fresh game the first participant's move from the corner [(0,0)]
    to [(2,1)] with dice [3,3] is legal: it is accepted and the turn goes
    to the second participant, whose own move before that is answered
    'Not your turn'. *)
Lemma turn_alternates_witness :
  in_session [1%nat; 2%nat] two_players
  ∧ (1 ≠ 2)%nat
  ∧ _currentMove two_players = Some 1%nat
  ∧ legal (_gameField two_players) (mkMove 0 0 2 1 "r" 0 3 3)
  ∧ accepted (_onPlayerMove two_players 1%nat (mkMove 0 0 2 1 "r" 0 3 3)) = true
  ∧ _currentMove (state_after two_players
                    (_onPlayerMove two_players 1%nat (mkMove 0 0 2 1 "r" 0 3 3)))
    = Some 2%nat
  ∧ _currentMove two_players ≠ Some 2%nat
  ∧ sent_by (_onPlayerMove two_players 2%nat (mkMove 29 29 27 28 "b" 0 3 3))
    = [(2%nat, incorrectRequest' "Not your turn")].
Proof.
  pose proof (started_in_session [1%nat; 2%nat]) as Hin. fold two_players in Hin.
  assert (Hturn : _currentMove two_players = Some 1%nat)
    by (vm_compute; reflexivity).
  assert (Hlegal : legal (_gameField two_players) (mkMove 0 0 2 1 "r" 0 3 3)).
  { exists 0, 0. split; [vm_compute; reflexivity|].
    split; [unfold is_corner; lia|].
    unfold legal_move, dice_total, mkMove.
    cbn [row col from to color dices fst snd]. split; [|split].
    - unfold start_cell.
      replace (is_default_at (_gameField two_players) 0 0) with true
        by (vm_compute; reflexivity).
      auto.
    - exists plus, plus, (2, 1). split; [reflexivity|].
      split; [exact divisor_pair_6 | reflexivity].
    - apply areCellsEmpty_true. vm_compute. reflexivity. }
  assert (Hout : _currentMove two_players ≠ Some 2%nat)
    by (vm_compute; discriminate).
  destruct (turn_alternates two_players 1%nat 2%nat Hin ltac:(lia))
    as (Hiff & Hflip & Hreject & _).
  pose proof (proj2 (Hiff 1%nat (mkMove 0 0 2 1 "r" 0 3 3))
                (conj Hturn (or_intror Hlegal))) as Hacc.
  destruct (Hflip 1%nat (mkMove 0 0 2 1 "r" 0 3 3) Hacc) as (_ & _ & _ & Hnext).
  split; [exact Hin|]. split; [lia|]. split; [exact Hturn|].
  split; [exact Hlegal|].
  split; [exact Hacc|]. split; [exact Hnext|]. split; [exact Hout|].
  rewrite (Hreject 2%nat (mkMove 29 29 27 28 "b" 0 3 3) Hout). reflexivity.
Defined.

(** C4, as stated, fails across a restart: the first participant's move
    is accepted, a [repeatGame] (here from the second participant) gives
    the turn back to the first seat, and the first participant's next move
    is accepted again, with no accepted move of the other participant in
    between.  And a [playerMove] can end without being rejected and
    without passing the turn: after [edge_run] the first participant's
    move to [(35,0)] ends in an exception. *)
Lemma restart_gives_the_turn_back :
  history two_players
    [(1%nat, json (playerMove (mkMove 0 0 2 1 "r" 0 3 3)));
     (2%nat, json repeatGame);
     (1%nat, json (playerMove (mkMove 0 0 2 1 "r" 0 3 3)))]
  = [moveBy 1%nat; restart; moveBy 1%nat]
  ∧ (_currentMove (play two_players edge_run) = Some 1%nat
     ∧ _onPlayerMove (play two_players edge_run) 1%nat overshoot = TypeError).
Proof. repeat split; vm_compute; reflexivity. Qed.

(** ** Scores within the exact integers *)

Lemma accepted_total_bound (D : Z) (player : WebSocket)
    (moves : list (WebSocket * PlayerState)) (g : Game) :
  Forall (λ pm, dice_within D pm.2) moves →
  - (2 * D * Z.of_nat (List.length moves))
  ≤ sum_of (dice_total <$> accepted_moves g player moves)
  ≤ 2 * D * Z.of_nat (List.length moves).
Proof.
  intros Hall. revert g.
  induction Hall as [|[p m] moves [Hd0 Hd1] _ IH]; intros g; [cbn; lia|].
  cbn [accepted_moves List.length]. rewrite fmap_app. unfold sum_of.
  rewrite foldr_app.
  fold (sum_of (dice_total <$>
    accepted_moves (state_after g (_onPlayerMove g p m)) player moves)).
  specialize (IH (state_after g (_onPlayerMove g p m))).
  cbn [snd] in Hd0, Hd1. rewrite Nat2Z.inj_succ.
  replace (2 * D * Z.succ (Z.of_nat (List.length moves)))
    with (2 * D * Z.of_nat (List.length moves) + 2 * D) by ring.
  destruct (accepted (_onPlayerMove g p m) && bool_decide (p = player));
    cbn [fmap list_fmap foldr];
    change (dice_total m) with ((dices m).1 + (dices m).2); lia.
Qed.

(** C5. From the start of a game, after any sequence of [k] [playerMove]
    messages whose dice are integers of magnitude at most [D], with
    [2 * D * k] at most [2^53] (so that every sum the code forms is an
    integer that a double holds exactly; dice of one to six satisfy this
    with [D = 6]), the score stored for a participant is the sum of
    [dices[0] + dices[1]] over that participant's accepted moves.  It is
    not the number of cells claimed: after the first participant's
    accepted move with [sum = 1] and dice [3,3] the score is [6] and no
    cell of the board carries a colour. *)
Theorem score_is_sum_of_accepted_dice (session : list WebSocket)
    (player : WebSocket) (moves : list (WebSocket * PlayerState)) (D : Z) :
  player ∈ session →
  Forall (λ pm, dice_within D pm.2) moves →
  2 * D * Z.of_nat (List.length moves) ≤ 2 ^ 53 →
  (_playersState (play (started session) moves) ≫= (.!! player))
  = Some (Num (sum_of (dice_total <$>
                         accepted_moves (started session) player moves)))
  ∧ safe (sum_of (dice_total <$> accepted_moves (started session) player moves))
  ∧ accepted_moves two_players 1%nat [(1%nat, mkMove 1 0 2 1 "r" 1 3 3)]
    = [mkMove 1 0 2 1 "r" 1 3 3]
  ∧ (_playersState (play two_players [(1%nat, mkMove 1 0 2 1 "r" 1 3 3)])
     ≫= (.!! 1%nat)) = Some (Num 6)
  ∧ cells_of (_gameField (play two_players [(1%nat, mkMove 1 0 2 1 "r" 1 3 3)]))
             red__cell = 0%nat
  ∧ cells_of (_gameField (play two_players [(1%nat, mkMove 1 0 2 1 "r" 1 3 3)]))
             blue__cell = 0%nat.
Proof.
  intros Hin Hdice Hlength. split; [|split].
  - destruct (started_spec session) as (Hlive & _ & _ & Hzero).
    rewrite (play_score moves _ player 0 Hlive (Hzero player Hin)).
    reflexivity.
  - pose proof (accepted_total_bound D player moves (started session) Hdice).
    unfold safe. lia.
  - repeat split; vm_compute; reflexivity.
Qed.

(** After the four accepted moves of [edge_run], whose dice are at most
    six, the first participant's two moves with dice [6,6] add up to the
    stored score [24]. *)
Lemma score_is_sum_of_accepted_dice_witness :
  1%nat ∈ [1%nat; 2%nat]
  ∧ Forall (λ pm, dice_within 6 pm.2) edge_run
  ∧ 2 * 6 * Z.of_nat (List.length edge_run) ≤ 2 ^ 53
  ∧ sum_of (dice_total <$> accepted_moves (started [1%nat; 2%nat]) 1%nat edge_run)
    = 24
  ∧ (_playersState (play (started [1%nat; 2%nat]) edge_run) ≫= (.!! 1%nat))
    = Some (Num 24).
Proof.
  assert (Hdice : Forall (λ pm, dice_within 6 pm.2) edge_run).
  { unfold edge_run. repeat constructor; cbn; lia. }
  assert (Hlength : 2 * 6 * Z.of_nat (List.length edge_run) ≤ 2 ^ 53)
    by (vm_compute; discriminate).
  assert (Htotal : sum_of (dice_total <$>
                     accepted_moves (started [1%nat; 2%nat]) 1%nat edge_run) = 24)
    by (vm_compute; reflexivity).
  split; [left|]. split; [exact Hdice|]. split; [exact Hlength|].
  split; [exact Htotal|].
  destruct (score_is_sum_of_accepted_dice [1%nat; 2%nat] 1%nat edge_run 6
              ltac:(left) Hdice Hlength) as (Hscore & _).
  rewrite Htotal in Hscore. exact Hscore.
Defined.

(** ** Error replies to the sender *)







(** ** The invariants of a session *)

(** X3. From its creation on, whatever arrives from whichever connection
    (moves, complete or not, restarts, [null], unparsable or unknown
    payloads), a game keeps its session, stays live, keeps the exact 30x30
    board shape, has the turn with a member of the session, and has a
    score entry for every member. *)
Theorem run_keeps_session (session : list WebSocket)
    (events : list (WebSocket * Payload)) :
  _session (run (started session) events) = Some session
  ∧ live (run (started session) events)
  ∧ grid (_gameField (run (started session) events))
  ∧ (∀ q, _currentMove (run (started session) events) = Some q → q ∈ session)
  ∧ (∀ q, q ∈ session →
          is_Some (_playersState (run (started session) events) ≫= (.!! q))).
Proof.
  pose proof (run_in_session session events _ (started_in_session session))
    as Hin.
  pose proof (in_session_live _ _ Hin) as Hlive.
  destruct Hin as (Hsession & _ & Hgrid & Hturn & ps & Hps & Hscores).
  split; [exact Hsession|]. split; [exact Hlive|]. split; [exact Hgrid|].
  split; [exact Hturn|]. intros q Hq. rewrite Hps. cbn. apply Hscores, Hq.
Qed.

(** After an unchecked move of the first participant with an empty
    [dices] array and then the value [null] from the second, the stored
    score of the first is [NaN] and the turn is with the second, a member
    of the session. *)
Lemma run_keeps_session_witness :
  _currentMove
    (run (started [1%nat; 2%nat])
       [(1%nat, json (playerMoveLacking fewDice (mkMove 0 0 2 1 "r" 1 0 0)));
        (2%nat, json nullMessage)])
  = Some 2%nat
  ∧ (_playersState
       (run (started [1%nat; 2%nat])
          [(1%nat, json (playerMoveLacking fewDice (mkMove 0 0 2 1 "r" 1 0 0)));
           (2%nat, json nullMessage)])
     ≫= (.!! 1%nat)) = Some NaN
  ∧ 2%nat ∈ [1%nat; 2%nat].
Proof.
  assert (Hturn : _currentMove
                    (run (started [1%nat; 2%nat])
                       [(1%nat, json (playerMoveLacking fewDice
                                        (mkMove 0 0 2 1 "r" 1 0 0)));
                        (2%nat, json nullMessage)])
                  = Some 2%nat) by (vm_compute; reflexivity).
  split; [exact Hturn|]. split; [vm_compute; reflexivity|].
  destruct (run_keeps_session [1%nat; 2%nat]
              [(1%nat, json (playerMoveLacking fewDice (mkMove 0 0 2 1 "r" 1 0 0)));
               (2%nat, json nullMessage)])
    as (_ & _ & _ & Hin & _).
  exact (Hin 2%nat Hturn).
Defined.

(** ** Moves after a win *)

(** X15. The game has no finished state: once some participant's score
    is an integer of at least 450, moves are handled as before, and every
    accepted move with integer dice of a total that is not negative, added
    to the sender's integer score within the integers a double holds
    exactly, sends one [gameResult] to every participant, in session
    order, and no [changePlayer], the participant who had won still being
    told [win = true]. *)
Theorem win_is_announced_again (g : Game) (player winner : WebSocket)
    (m : PlayerState) (session : list WebSocket)
    (playersState : gmap WebSocket number) (z zw : Z) :
  _session g = Some session → _playersState g = Some playersState →
  winner ∈ session → playersState !! winner = Some (Num zw) → 450 ≤ zw →
  playersState !! player = Some (Num z) →
  exact_sum z (dices m).1 (dices m).2 → 0 ≤ (dices m).1 + (dices m).2 →
  accepted (_onPlayerMove g player m) = true →
  map fst (sent_by (_onPlayerMove g player m)) = session
  ∧ (∀ s, s ∈ sent_by (_onPlayerMove g player m) → ∃ win, s.2 = gameResult win)
  ∧ (winner, gameResult true) ∈ sent_by (_onPlayerMove g player m).
Proof.
  intros Hsession Hps Hin Hwinner Hwon Hplayer _ Hd Hacc.
  assert (Hlive : live g) by (split; eexists; eassumption).
  destruct (accepted_settled g player m Hlive Hacc) as (_ & field & -> & _).
  rewrite (settle_live _ _ _ _ _ _ Hps Hsession). cbn [sent_by].
  assert (Hstill : number_wins (score_of (scores_after playersState player m)
                                         winner) = true).
  { apply scores_after_keeps_win; [exact Hd|].
    unfold score_of. rewrite Hwinner. cbn. unfold _checkWin, win_threshold.
    apply bool_decide_eq_true. lia. }
  assert (Hsome : some_win (scores_after playersState player m) session = true).
  { apply some_win_true. exists winner. auto. }
  rewrite Hsome. split; [|split].
  - rewrite <- list_fmap_compose. apply list_fmap_id.
  - intros s Hs. apply list_elem_of_fmap in Hs as (q & -> & _). eexists. reflexivity.
  - apply list_elem_of_fmap. exists winner. rewrite Hstill. auto.
Qed.

(** After the first participant has reached 450, the second participant's
    legal first move with dice [3,3] is accepted and the first participant
    is told [win = true] again. *)
Lemma win_is_announced_again_witness :
  1%nat ∈ [1%nat; 2%nat]
  ∧ exact_sum 0 3 3
  ∧ accepted (_onPlayerMove
                (play two_players [(1%nat, mkMove 0 0 0 0 "r" 9 225 225)])
                2%nat (mkMove 29 29 27 28 "b" 0 3 3)) = true
  ∧ (1%nat, gameResult true)
    ∈ sent_by (_onPlayerMove
                 (play two_players [(1%nat, mkMove 0 0 0 0 "r" 9 225 225)])
                 2%nat (mkMove 29 29 27 28 "b" 0 3 3)).
Proof.
  assert (Hexact : exact_sum 0 3 3) by (repeat split; apply safe_small; lia).
  assert (Hacc : accepted (_onPlayerMove
                   (play two_players [(1%nat, mkMove 0 0 0 0 "r" 9 225 225)])
                   2%nat (mkMove 29 29 27 28 "b" 0 3 3)) = true)
    by (vm_compute; reflexivity).
  split; [left|]. split; [exact Hexact|]. split; [exact Hacc|].
  destruct (win_is_announced_again
              (play two_players [(1%nat, mkMove 0 0 0 0 "r" 9 225 225)])
              2%nat 1%nat (mkMove 29 29 27 28 "b" 0 3 3) [1%nat; 2%nat]
              {[1%nat := Num 450; 2%nat := Num 0]} 0 450)
    as (_ & _ & Hsent);
    [vm_compute; reflexivity | vm_compute; reflexivity | left
    | reflexivity | lia | reflexivity | exact Hexact | cbn; lia | exact Hacc
    | exact Hsent].
Defined.

(** ** Moves with missing dice *)

Lemma validation_without_dice (f : Field) (m : PlayerState) :
  validation f (without_dice m) ≠ Ok true.
Proof.
  intros Hvalid.
  destruct (validation_true _ _ Hvalid)
    as (anchor & _ & (s1 & s2 & p & _ & (i & Hi & _) & _) & _).
  cbn in Hi. lia.
Qed.

Lemma onPlayerMove_keeps_NaN (g : Game) (p player : WebSocket) (m : PlayerState) :
  live g → (_playersState g ≫= (.!! player)) = Some NaN →
  (_playersState (state_after g (_onPlayerMove g p m)) ≫= (.!! player))
  = Some NaN.
Proof.
  intros Hlive Hscore.
  destruct (onPlayerMove_outcome g p m Hlive)
    as [[text ->]|[(-> & _)|(_ & field & -> & _)]]; [exact Hscore..|].
  destruct Hlive as [[session Hsession] [playersState Hps]].
  rewrite (settle_live _ _ _ _ _ _ Hps Hsession). cbn.
  rewrite Hps in Hscore. cbn in Hscore. unfold scores_after.
  destruct (decide (p = player)) as [->|Hne].
  - rewrite lookup_insert_eq. unfold score_of. rewrite Hscore. reflexivity.
  - rewrite lookup_insert_ne by exact Hne. exact Hscore.
Qed.

Lemma play_keeps_NaN (session : list WebSocket)
    (moves : list (WebSocket * PlayerState)) (g : Game) (player : WebSocket) :
  in_session session g → (_playersState g ≫= (.!! player)) = Some NaN →
  (_playersState (play g moves) ≫= (.!! player)) = Some NaN.
Proof.
  revert g. induction moves as [|[p m] moves IH]; intros g Hin Hscore;
    [exact Hscore|].
  cbn [play]. apply IH; [apply onPlayerMove_in_session, Hin|].
  apply onPlayerMove_keeps_NaN; [eapply in_session_live, Hin | exact Hscore].
Qed.

(** X18. A [playerMove] of the participant whose turn it is whose
    [dices] array has fewer than two entries ([dices[0] + dices[1]] is
    [NaN]): with [sum = 0] it is never accepted and the game stays as it
    was, the checks finding no displacement; with another [sum] it is
    accepted, the board stays as it was, the turn passes, and the sender's
    stored score is [NaN] and stays [NaN] through every later sequence of
    moves. *)
Theorem missing_dice_store_NaN (g : Game) (player : WebSocket) (m : PlayerState)
    (session : list WebSocket) :
  in_session session g → _currentMove g = Some player →
  (sum m = 0 →
     accepted (on_message g player (json (playerMoveLacking fewDice m))) = false
     ∧ state_after g (on_message g player (json (playerMoveLacking fewDice m)))
       = g)
  ∧ (sum m ≠ 0 →
       accepted (on_message g player (json (playerMoveLacking fewDice m))) = true
       ∧ _gameField
           (state_after g (on_message g player (json (playerMoveLacking fewDice m))))
         = _gameField g
       ∧ _currentMove
           (state_after g (on_message g player (json (playerMoveLacking fewDice m))))
         = Some (next_mover session player)
       ∧ ∀ moves,
           (_playersState
              (play (state_after g
                       (on_message g player (json (playerMoveLacking fewDice m))))
                    moves)
            ≫= (.!! player)) = Some NaN).
Proof.
  intros Hin Hturn. pose proof (in_session_live _ _ Hin) as Hlive.
  unfold on_message. cbn [_parseMessage _processMessage].
  unfold _onPlayerMove_lacking.
  rewrite bool_decide_eq_false_2 by (intros H; apply H, Hturn).
  split.
  - intros Hsum.
    rewrite checked_field_validation by exact Hsum.
    pose proof (validation_without_dice (_gameField g) m) as Hno.
    destruct (validation (_gameField g) (without_dice m)) as [[|]|];
      [contradiction|split; reflexivity|split; reflexivity].
  - intros Hsum. unfold checked_field. cbv zeta.
    rewrite bool_decide_eq_false_2 by exact Hsum. cbn [mbind result_bind].
    split; [apply settle_NaN_accepted, Hlive|].
    pose proof (settle_NaN_in_session session g (_gameField g) player m Hin Hturn)
      as Hin'.
    destruct Hin as (Hsession & _ & Hgrid & _ & ps & Hps & _).
    specialize (Hin' Hgrid).
    rewrite (settle_NaN_live _ _ _ _ _ _ Hps Hsession) in Hin' |- *.
    cbn [state_after _gameField _currentMove _playersState] in Hin' |- *.
    split; [reflexivity|]. split; [reflexivity|].
    intros moves. apply (play_keeps_NaN session); [exact Hin'|].
    cbn. apply lookup_insert_eq.
Qed.

(** On a fresh game the first participant's unchecked move with an empty
    [dices] array is accepted, and the score stored for that participant
    is still [NaN] after a legal move of each participant. *)
Lemma missing_dice_store_NaN_witness :
  in_session [1%nat; 2%nat] two_players
  ∧ _currentMove two_players = Some 1%nat
  ∧ sum (mkMove 0 0 2 1 "r" 1 0 0) ≠ 0
  ∧ accepted (on_message two_players 1%nat
                (json (playerMoveLacking fewDice (mkMove 0 0 2 1 "r" 1 0 0))))
    = true
  ∧ (_playersState
       (play (state_after two_players
                (on_message two_players 1%nat
                   (json (playerMoveLacking fewDice (mkMove 0 0 2 1 "r" 1 0 0)))))
             [(2%nat, mkMove 29 29 27 28 "b" 0 3 3);
              (1%nat, mkMove 0 0 2 1 "r" 0 3 3)])
     ≫= (.!! 1%nat)) = Some NaN.
Proof.
  pose proof (started_in_session [1%nat; 2%nat]) as Hin. fold two_players in Hin.
  assert (Hturn : _currentMove two_players = Some 1%nat)
    by (vm_compute; reflexivity).
  assert (Hsum : sum (mkMove 0 0 2 1 "r" 1 0 0) ≠ 0) by (cbn; lia).
  split; [exact Hin|]. split; [exact Hturn|]. split; [exact Hsum|].
  destruct (missing_dice_store_NaN two_players 1%nat (mkMove 0 0 2 1 "r" 1 0 0)
              [1%nat; 2%nat] Hin Hturn) as (_ & Hstore).
  destruct (Hstore Hsum) as (Hacc & _ & _ & Hstays).
  split; [exact Hacc|]. apply Hstays.
Defined.
